(** * Binary struct builders of [index.ts]: a shallow embedding

    The file embeds the two struct builders of [src/index.ts],
    [BinaryStructBuilderV1] (accessors synthesised as source text and
    compiled with [new Function]) and [BinaryStructBuilderV2] (a table of
    closures), together with the part of the ECMAScript platform they run
    on: numbers, [DataView] accesses over an [ArrayBuffer], plain objects
    used as records and the [Function] constructor restricted to the
    fragment of the language that the templates of V1 emit. *)

From Stdlib Require Import ZArith String Ascii Bool Lia.
From Stdlib Require Import List Permutation.
From Stdlib.Strings Require Import Byte.
From Stdlib Require Import DecimalString.
From Stdlib Require DecimalNat DecimalFacts SpecFloat.
Import ListNotations.

Local Open Scope Z_scope.

(** ** The platform *)

Module JS.

(** *** Completions: a call returns normally or throws *)

Inductive Error : Type := RangeError | TypeError | SyntaxError | ReferenceError.

Inductive Completion (A : Type) : Type :=
| Normal (a : A)
| Throw (e : Error).

Arguments Normal {A} a.
Arguments Throw {A} e.

(** *** Numbers

    A Number is an IEEE-754 double.  A finite non-zero value is kept as
    the dyadic [(-1)^neg * m * 2^e] with [m] odd, which is unique; there
    is one NaN, as in the language. *)

Inductive number : Type :=
| NaN
| Infinity (neg : bool)
| Zero (neg : bool)
| Finite (neg : bool) (m : positive) (e : Z).

(** Move the factors two of a mantissa into the exponent. *)
Fixpoint strip (m : positive) (e : Z) : positive * Z :=
  match m with
  | xO m' => strip m' (e + 1)
  | _ => (m, e)
  end.

(** The number [(-1)^neg * z * 2^e], for [0 <= z]. *)
Definition dyadic (neg : bool) (z : Z) (e : Z) : number :=
  match z with
  | Zpos m => let (m', e') := strip m e in Finite neg m' e'
  | _ => Zero neg
  end.

(** An integer as a Number (exact when it fits a double, which is the
    case of every integer below [2^53]). *)
Definition Number_of_Z (z : Z) : number :=
  match z with
  | Z0 => Zero false
  | Zpos _ => dyadic false z 0
  | Zneg m => dyadic true (Zpos m) 0
  end.

(** Number of significant bits of a mantissa. *)
Definition digits (m : positive) : Z := Z.log2 (Zpos m) + 1.

(** The doubles, and among them the values a float32 holds exactly. *)
Definition is_double (v : number) : Prop :=
  match v with
  | Finite _ m e =>
      Z.odd (Zpos m) = true /\ digits m <= 53 /\ -1074 <= e /\ e + digits m <= 1024
  | _ => True
  end.

Definition is_float32 (v : number) : Prop :=
  match v with
  | Finite _ m e =>
      Z.odd (Zpos m) = true /\ digits m <= 24 /\ -149 <= e /\ e + digits m <= 128
  | _ => True
  end.

(** Values of the language that the codecs meet: reading a property of
    a record yields a number, [undefined], or one of the functions and
    objects that every record inherits from [Object.prototype].  The
    latter convert to NaN, their string form not being a numeral. *)
Inductive value : Type :=
| undefined
| Num (n : number)
| Inherited.

Definition ToNumber (v : value) : number :=
  match v with
  | undefined => NaN
  | Num n => n
  | Inherited => NaN
  end.

(** ToUint8, ToUint16, ToUint32: NaN, zeros and infinities give 0, a
    finite value is truncated toward zero and reduced modulo [2^bits]. *)
Definition truncate (neg : bool) (m : positive) (e : Z) : Z :=
  let t := if 0 <=? e then Zpos m * 2 ^ e else Zpos m / 2 ^ (- e) in
  if neg then - t else t.

Definition ToUint (bits : Z) (v : number) : Z :=
  match v with
  | Finite neg m e => truncate neg m e mod 2 ^ bits
  | _ => 0
  end.

(** Conversion of a double to the nearest float32 value, ties to even;
    a magnitude of [2^128] or more after rounding is an infinity. *)
Definition overflows (m : positive) (e : Z) : bool := 128 <? e + digits m.

Definition round_float32 (neg : bool) (m : positive) (e : Z) : number :=
  let q := Z.max (e + digits m - 24) (-149) in
  if q <=? e then
    if overflows m e then Infinity neg else Finite neg m e
  else
    let k := q - e in
    let mq := Zpos m / 2 ^ k in
    let r := Zpos m mod 2 ^ k in
    let half := 2 ^ (k - 1) in
    let up := (half <? r) || ((r =? half) && Z.odd mq) in
    match (if up then mq + 1 else mq) with
    | Zpos mr =>
        let (m', e') := strip mr q in
        if overflows m' e' then Infinity neg else Finite neg m' e'
    | _ => Zero neg
    end.

Definition ToFloat32 (v : number) : number :=
  match v with
  | Finite neg m e => round_float32 neg m e
  | _ => v
  end.

(** The floats of the Standard Library's specification of IEEE-754
    arithmetic, as numbers; [round_float32] is checked against its
    rounding on examples below. *)
Definition of_spec_float (f : SpecFloat.spec_float) : number :=
  match f with
  | SpecFloat.S754_zero s => Zero s
  | SpecFloat.S754_infinity s => Infinity s
  | SpecFloat.S754_nan => NaN
  | SpecFloat.S754_finite s m e => dyadic s (Zpos m) e
  end.

(** The binary32 interchange format: sign, 8 exponent bits, 23 fraction
    bits.  The language leaves the word stored for NaN to the engine; it
    is taken to be the quiet NaN [0x7fc00000].  Every NaN word is read
    as the one NaN. *)
Definition sign_bit (neg : bool) : Z := if neg then 2 ^ 31 else 0.

Definition float32_bits (v : number) : Z :=
  match v with
  | NaN => 0x7fc00000
  | Infinity neg => sign_bit neg + 0x7f800000
  | Zero neg => sign_bit neg
  | Finite neg m e =>
      let d := digits m in
      if -126 <=? e + d - 1
      then sign_bit neg + (e + d - 1 + 127) * 2 ^ 23 + (Zpos m * 2 ^ (24 - d) - 2 ^ 23)
      else sign_bit neg + Zpos m * 2 ^ (e + 149)
  end.

Definition float32_of_bits (z : Z) : number :=
  let neg := Z.testbit z 31 in
  let ex := (z / 2 ^ 23) mod 2 ^ 8 in
  let fr := z mod 2 ^ 23 in
  if ex =? 255 then (if fr =? 0 then Infinity neg else NaN)
  else if ex =? 0 then dyadic neg fr (-149)
  else dyadic neg (2 ^ 23 + fr) (ex - 150).

(** *** Array buffers and data views *)

Definition ArrayBuffer : Type := list byte.

(** [new ArrayBuffer(n)]: [n] zero bytes. *)
Definition new_ArrayBuffer (n : nat) : ArrayBuffer := repeat x00 n.

Definition byte_of_Z (z : Z) : byte :=
  match Byte.of_N (Z.to_N (z mod 256)) with
  | Some b => b
  | None => x00
  end.

Definition Z_of_byte (b : byte) : Z := Z.of_N (Byte.to_N b).

(** The [w] low bytes of [z], least significant first, and back. *)
Fixpoint NumericToRawBytes (w : nat) (z : Z) : list byte :=
  match w with
  | O => []
  | S w' => byte_of_Z z :: NumericToRawBytes w' (z / 256)
  end.

Fixpoint RawBytesToNumeric (bs : list byte) : Z :=
  match bs with
  | [] => 0
  | b :: bs' => Z_of_byte b + 256 * RawBytesToNumeric bs'
  end.

(** Overwrite the bytes of [ab] from position [pos] on with [bs]. *)
Definition splice (ab : ArrayBuffer) (pos : nat) (bs : list byte) : ArrayBuffer :=
  (firstn pos ab ++ bs ++ skipn (pos + length bs) ab)%list.

(** A view is a window [byteOffset, byteOffset + byteLength) over an
    array buffer.  The buffer is a mutable object shared with the caller:
    its content is the state threaded by the monad [M] below. *)
Record DataView : Type := mkDataView { byteOffset : nat; byteLength : nat }.

Definition M (A : Type) : Type := ArrayBuffer -> Completion A * ArrayBuffer.

Definition ret {A} (a : A) : M A := fun ab => (Normal a, ab).

Definition bind {A B} (c : M A) (k : A -> M B) : M B :=
  fun ab =>
    match c ab with
    | (Normal a, ab') => k a ab'
    | (Throw e, ab') => (Throw e, ab')
    end.

Definition throw {A} (e : Error) : M A := fun ab => (Throw e, ab).

Declare Scope js_scope.
Delimit Scope js_scope with js.
Notation "x <- c ;; k" := (bind c (fun x => k))
  (at level 61, c at next level, right associativity) : js_scope.
Notation "c ;; k" := (bind c (fun _ => k))
  (at level 61, right associativity) : js_scope.

Local Open Scope js_scope.

(** GetViewValue and SetViewValue of the language specification: the
    access is refused with a RangeError when it does not fit the view. *)
Definition GetViewValue (view : DataView) (requestIndex : nat)
    (isLittleEndian : bool) (elementSize : nat) : M Z :=
  fun ab =>
    if (requestIndex + elementSize <=? byteLength view)%nat then
      let raw := firstn elementSize (skipn (byteOffset view + requestIndex) ab) in
      (Normal (RawBytesToNumeric (if isLittleEndian then raw else rev raw)), ab)
    else (Throw RangeError, ab).

Definition SetViewValue (view : DataView) (requestIndex : nat)
    (isLittleEndian : bool) (elementSize : nat) (z : Z) : M unit :=
  fun ab =>
    if (requestIndex + elementSize <=? byteLength view)%nat then
      let raw := NumericToRawBytes elementSize z in
      (Normal tt, splice ab (byteOffset view + requestIndex)
                         (if isLittleEndian then raw else rev raw))
    else (Throw RangeError, ab).

Definition getUint8 (view : DataView) (byteOffset : nat) : M number :=
  z <- GetViewValue view byteOffset true 1 ;; ret (Number_of_Z z).

Definition getUint16 (view : DataView) (byteOffset : nat) (littleEndian : bool) : M number :=
  z <- GetViewValue view byteOffset littleEndian 2 ;; ret (Number_of_Z z).

Definition getUint32 (view : DataView) (byteOffset : nat) (littleEndian : bool) : M number :=
  z <- GetViewValue view byteOffset littleEndian 4 ;; ret (Number_of_Z z).

Definition getFloat32 (view : DataView) (byteOffset : nat) (littleEndian : bool) : M number :=
  z <- GetViewValue view byteOffset littleEndian 4 ;; ret (float32_of_bits z).

Definition setUint8 (view : DataView) (byteOffset : nat) (v : value) : M unit :=
  SetViewValue view byteOffset true 1 (ToUint 8 (ToNumber v)).

Definition setUint16 (view : DataView) (byteOffset : nat) (v : value) (littleEndian : bool) : M unit :=
  SetViewValue view byteOffset littleEndian 2 (ToUint 16 (ToNumber v)).

Definition setUint32 (view : DataView) (byteOffset : nat) (v : value) (littleEndian : bool) : M unit :=
  SetViewValue view byteOffset littleEndian 4 (ToUint 32 (ToNumber v)).

Definition setFloat32 (view : DataView) (byteOffset : nat) (v : value) (littleEndian : bool) : M unit :=
  SetViewValue view byteOffset littleEndian 4 (float32_bits (ToFloat32 (ToNumber v))).

(** The [buffer] argument of a codec: an [ArrayBuffer], or a [DataView]
    over one.  Either way [ab] is the content of the underlying array
    buffer when the call is made. *)
Inductive BufferArg : Type :=
| IsArrayBuffer (ab : ArrayBuffer)
| IsDataView (view : DataView) (ab : ArrayBuffer).

Definition underlying (b : BufferArg) : ArrayBuffer :=
  match b with
  | IsArrayBuffer ab => ab
  | IsDataView _ ab => ab
  end.

(** [buffer instanceof DataView ? buffer : new DataView(buffer)] *)
Definition view_of (b : BufferArg) : DataView :=
  match b with
  | IsArrayBuffer ab => mkDataView 0 (length ab)
  | IsDataView view _ => view
  end.

(** Number of bytes a read can reach through the argument. *)
Definition reachable (b : BufferArg) : nat := byteLength (view_of b).

(** *** Objects used as records and [Map]s

    Both keep their entries in insertion order; setting a key that is
    present replaces the value in place, setting a new key appends. *)

Fixpoint assoc_set {V} (l : list (string * V)) (k : string) (v : V) : list (string * V) :=
  match l with
  | [] => [(k, v)]
  | (k', v') :: l' =>
      if String.eqb k' k then (k', v) :: l' else (k', v') :: assoc_set l' k v
  end.

Fixpoint assoc_get {V} (l : list (string * V)) (k : string) : option V :=
  match l with
  | [] => None
  | (k', v') :: l' => if String.eqb k' k then Some v' else assoc_get l' k
  end.

(** A record: an ordinary object, given by its own data properties, which
    hold numbers, in the order of their creation.  Its prototype is
    [Object.prototype], in its initial state. *)
Definition object : Type := list (string * number).

(** The properties of [Object.prototype]. *)
Definition inherited (k : string) : bool :=
  existsb (String.eqb k)
    ["constructor"; "hasOwnProperty"; "isPrototypeOf"; "propertyIsEnumerable";
     "toLocaleString"; "toString"; "valueOf"; "__proto__"; "__defineGetter__";
     "__defineSetter__"; "__lookupGetter__"; "__lookupSetter__"]%string.

(** [o[k]] and [o.k]: the own property, else the inherited one *)
Definition Get (o : object) (k : string) : value :=
  match assoc_get o k with
  | Some n => Num n
  | None => if inherited k then Inherited else undefined
  end.

(** [o[k] = v], and the property definition [k: v] of an object literal,
    for a number [v].  Under the name [__proto__] both address the
    prototype of the object and ignore a value that is a number; under
    any other name they create or update the own property. *)
Definition Set_ (o : object) (k : string) (v : number) : object :=
  if String.eqb k "__proto__" then o else assoc_set o k v.

(** The array index that a property key is, when it is one: the
    canonical decimal form of an integer from 0 to [2^32 - 2]. *)
Definition array_index (k : string) : option N :=
  match NilEmpty.uint_of_string k with
  | Some d =>
      let i := N.of_uint d in
      if String.eqb (NilEmpty.string_of_uint (N.to_uint i)) k && (i <? 2 ^ 32 - 1)%N
      then Some i
      else None
  | None => None
  end.

Fixpoint insert_by_index (i : N) (v : number) (l : list (N * number)) : list (N * number) :=
  match l with
  | [] => [(i, v)]
  | (j, w) :: l' => if (i <? j)%N then (i, v) :: l else (j, w) :: insert_by_index i v l'
  end.

(** [Object.values(o)]: the values of the properties whose key is an
    array index, in ascending order of the index, then those of the
    other properties, in the order of their creation. *)
Definition Object_values (o : object) : list number :=
  (map snd
       (fold_right
          (fun kv acc =>
             match array_index (fst kv) with
             | Some i => insert_by_index i (snd kv) acc
             | None => acc
             end)
          [] o)
   ++ map snd
        (filter (fun kv => match array_index (fst kv) with Some _ => false | None => true end)
                o))%list.

(** [for (const x of l) body(x)] *)
Fixpoint for_of {A} (l : list A) (body : A -> M unit) : M unit :=
  match l with
  | [] => ret tt
  | x :: l' => body x ;; for_of l' body
  end.

End JS.

Import JS.
Local Open Scope js_scope.

(** ** Common types of [index.ts] *)

Inductive FieldType : Type := uint8 | uint16 | uint32 | float32.

(** The width in bytes that both [allocField] switches assign to a type. *)
Definition width (type : FieldType) : nat :=
  match type with
  | uint8 => 1
  | uint16 => 2
  | uint32 => 4
  | float32 => 4
  end%nat.

(** What [read] and [write] of a built struct give back: the completion
    of the call and the content of the underlying array buffer after it. *)
Definition Outcome (A : Type) : Type := Completion A * ArrayBuffer.

(** [view.buffer] *)
Definition view_buffer : M ArrayBuffer := fun ab => (Normal ab, ab).

(** ** Version 2: regular functions *)

Module V2.

Record Field : Type := mkField {
  name : string;
  offset : nat;
  size : nat;
  read : DataView -> M number;
  write : DataView -> value -> M unit
}.

(** The [fields] array of a builder is an object of the heap: [build]
    hands the array itself, not a copy, to the closures it returns.  The
    store holds the arrays allocated so far; a location is an index. *)
Definition loc : Type := nat.
Definition Store : Type := list (list Field).

Definition deref (st : Store) (l : loc) : list Field := nth l st [].

(** [array.push(x)] at location [l] *)
Fixpoint push (st : Store) (l : loc) (x : Field) : Store :=
  match st, l with
  | [], _ => []
  | a :: st', O => (a ++ [x]) :: st'
  | a :: st', S l' => a :: push st' l' x
  end.

(** The builder object.  [littleEndian] is assigned by the constructor
    only, so the closures of [allocField], which read [this.littleEndian]
    when they run, always find the constructor's value. *)
Record BinaryStructBuilderV2 : Type := mkBuilder {
  this_size : nat;
  this_fields : loc;
  this_littleEndian : bool
}.

(** [new BinaryStructBuilderV2(littleEndian = true)] *)
Definition new (littleEndian : option bool) (st : Store) : BinaryStructBuilderV2 * Store :=
  (mkBuilder 0 (length st) (match littleEndian with Some b => b | None => true end),
   st ++ [[]]).

Definition allocField (this : BinaryStructBuilderV2) (name : string) (type : FieldType)
    (st : Store) : BinaryStructBuilderV2 * Store :=
  let offset := this_size this in
  let '(size, read, write) :=
    match type with
    | uint8 =>
        (1%nat,
         (fun view => getUint8 view offset),
         (fun view value => setUint8 view offset value))
    | uint16 =>
        (2%nat,
         (fun view => getUint16 view offset (this_littleEndian this)),
         (fun view value => setUint16 view offset value (this_littleEndian this)))
    | uint32 =>
        (4%nat,
         (fun view => getUint32 view offset (this_littleEndian this)),
         (fun view value => setUint32 view offset value (this_littleEndian this)))
    | float32 =>
        (4%nat,
         (fun view => getFloat32 view offset (this_littleEndian this)),
         (fun view value => setFloat32 view offset value (this_littleEndian this)))
    end in
  (mkBuilder (this_size this + size) (this_fields this) (this_littleEndian this),
   push st (this_fields this) (mkField name offset size read write)).

Definition addField (this : BinaryStructBuilderV2) (name : string) (type : FieldType)
    (st : Store) : BinaryStructBuilderV2 * Store :=
  allocField this name type st.

(** The struct returned by [build]: [size] is a number copied at build
    time, [read] and [write] are closures over the array [fields], which
    they traverse in the store of the moment they are called. *)
Record Struct : Type := mkStruct {
  struct_size : nat;
  struct_read : Store -> BufferArg -> Outcome object;
  struct_write : Store -> object -> option BufferArg -> Outcome ArrayBuffer
}.

Fixpoint read_loop (fields : list Field) (view : DataView) (result : object) : M object :=
  match fields with
  | [] => ret result
  | field :: fields' =>
      v <- read field view ;;
      read_loop fields' view (Set_ result (name field) v)
  end.

Definition build (this : BinaryStructBuilderV2) : Struct :=
  let structSize := this_size this in
  let fields := this_fields this in
  mkStruct structSize
    (fun st buffer =>
       let view := view_of buffer in
       read_loop (deref st fields) view [] (underlying buffer))
    (fun st data buffer =>
       let '(view, ab) :=
         match buffer with
         | Some (IsDataView view ab) => (view, ab)
         | Some (IsArrayBuffer ab) => (mkDataView 0 (length ab), ab)
         | None => (mkDataView 0 structSize, new_ArrayBuffer structSize)
         end in
       (for_of (deref st fields)
               (fun field => write field view (Get data (name field))) ;;
        view_buffer) ab).

(** A chain of [addField] calls, as
    [entries.reduce((b, [name, type]) => b.addField(name, type), builder)]. *)
Fixpoint reduce (entries : list (string * FieldType)) (b : BinaryStructBuilderV2)
    (st : Store) : BinaryStructBuilderV2 * Store :=
  match entries with
  | [] => (b, st)
  | (name, type) :: entries' =>
      let '(b', st') := addField b name type st in reduce entries' b' st'
  end.

(** The builder after [new BinaryStructBuilderV2(littleEndian)] and a
    chain of declarations, with the store it lives in. *)
Definition declare (entries : list (string * FieldType)) (littleEndian : option bool)
    (st : Store) : BinaryStructBuilderV2 * Store :=
  let '(b, st') := new littleEndian st in reduce entries b st'.

End V2.

(** ** The [Function] constructor

    [new Function(params, body)] compiles source text.  The model covers
    the fragment of the language that the two templates of
    [BinaryStructBuilderV1.build] emit when every field name is one
    identifier: the declaration of [view], accessor calls on it with
    literal arguments, an object literal and [return], written in ASCII.
    It also covers what they emit for some names that are more than one
    identifier, described further on.  Where the model returns a
    function, the text is in the language and denotes that function.
    Text that is outside both fragments is reported as a SyntaxError,
    which is what an engine reports for the texts of that kind met below,
    such as a property name with a hyphen. *)

Module FunctionConstructor.

Inductive token : Type :=
| TIdent (s : string)
| TNum (n : nat)
| TPunct (c : ascii).

Definition in_range (lo hi : N) (c : ascii) : bool :=
  ((lo <=? N_of_ascii c) && (N_of_ascii c <=? hi))%N.

Definition is_space (c : ascii) : bool :=
  existsb (Ascii.eqb c) [" "; "009"; "010"; "013"]%char.

Definition is_punct (c : ascii) : bool :=
  existsb (Ascii.eqb c) ["="; "?"; ":"; ";"; ","; "."; "("; ")"; "{"; "}"; "["; "]"]%char.

Definition is_digit (c : ascii) : bool := in_range 48 57 c.

Definition is_ident_start (c : ascii) : bool :=
  in_range 65 90 c || in_range 97 122 c || Ascii.eqb c "_" || Ascii.eqb c "$".

Definition is_ident_part (c : ascii) : bool := is_ident_start c || is_digit c.

(** An IdentifierName written in ASCII without escapes. *)
Fixpoint all_ident_part (s : string) : bool :=
  match s with
  | EmptyString => true
  | String c s' => is_ident_part c && all_ident_part s'
  end.

Definition is_identifier_name (s : string) : bool :=
  match s with
  | EmptyString => false
  | String c s' => is_ident_start c && all_ident_part s'
  end.

(** A decimal literal; one with a leading zero is not decimal. *)
Definition numeral (s : string) : option nat :=
  match s with
  | String c (String _ _) =>
      if Ascii.eqb c "0" then None
      else option_map Nat.of_uint (NilEmpty.uint_of_string s)
  | _ => option_map Nat.of_uint (NilEmpty.uint_of_string s)
  end.

(** The token being read. *)
Inductive pending : Type :=
| PNone
| PIdent (s : string)
| PNum (s : string).

Definition flush (p : pending) : option (list token) :=
  match p with
  | PNone => Some []
  | PIdent s => Some [TIdent s]
  | PNum s => option_map (fun n => [TNum n]) (numeral s)
  end.

Definition oapp {A} (a b : option (list A)) : option (list A) :=
  match a, b with
  | Some x, Some y => Some (x ++ y)
  | _, _ => None
  end.

Definition snoc (s : string) (c : ascii) : string := (s ++ String c EmptyString)%string.

Fixpoint lex (p : pending) (s : string) : option (list token) :=
  match s with
  | EmptyString => flush p
  | String c s' =>
      if is_space c then oapp (flush p) (lex PNone s')
      else if is_punct c then oapp (flush p) (oapp (Some [TPunct c]) (lex PNone s'))
      else if is_ident_start c then
        match p with
        | PNone => lex (PIdent (String c EmptyString)) s'
        | PIdent a => lex (PIdent (snoc a c)) s'
        | PNum _ => None
        end
      else if is_digit c then
        match p with
        | PNone => lex (PNum (String c EmptyString)) s'
        | PIdent a => lex (PIdent (snoc a c)) s'
        | PNum a => lex (PNum (snoc a c)) s'
        end
      else None
  end.

Definition tokenize (s : string) : option (list token) := lex PNone s.

Definition token_eqb (a b : token) : bool :=
  match a, b with
  | TIdent x, TIdent y => String.eqb x y
  | TNum x, TNum y => Nat.eqb x y
  | TPunct x, TPunct y => Ascii.eqb x y
  | _, _ => false
  end.

(** Consume the tokens [pre] at the head of [ts]. *)
Fixpoint expect (pre ts : list token) : option (list token) :=
  match pre, ts with
  | [], _ => Some ts
  | p :: pre', t :: ts' => if token_eqb p t then expect pre' ts' else None
  | _ :: _, [] => None
  end.

(** A call [view.<accessor>(offset, ..., littleEndian)]; for a getter
    [key] is the property it initialises, for a setter the property of
    [data] it stores. *)
Record Access : Type := mkAccess {
  key : string;
  type : FieldType;
  at_offset : nat;
  isLittleEndian : bool
}.

Definition getter_type (g : string) : option FieldType :=
  if String.eqb g "getUint8" then Some uint8
  else if String.eqb g "getUint16" then Some uint16
  else if String.eqb g "getUint32" then Some uint32
  else if String.eqb g "getFloat32" then Some float32
  else None.

Definition setter_type (s : string) : option FieldType :=
  if String.eqb s "setUint8" then Some uint8
  else if String.eqb s "setUint16" then Some uint16
  else if String.eqb s "setUint32" then Some uint32
  else if String.eqb s "setFloat32" then Some float32
  else None.

Definition boolean_literal (b : string) : option bool :=
  if String.eqb b "true" then Some true
  else if String.eqb b "false" then Some false
  else None.

Definition punct (c : ascii) (d : ascii) : bool := Ascii.eqb c d.

(** [key: view.getter(offset, littleEndian)], separated by commas *)
Fixpoint parse_props (ts : list token) : option (list Access * list token) :=
  match ts with
  | TIdent k :: TPunct c1 :: TIdent v :: TPunct c2 :: TIdent g :: TPunct c3
      :: TNum off :: TPunct c4 :: TIdent b :: TPunct c5 :: rest =>
      if punct c1 ":" && String.eqb v "view" && punct c2 "." && punct c3 "("
         && punct c4 "," && punct c5 ")"
      then
        match getter_type g, boolean_literal b with
        | Some ty, Some le =>
            let p := mkAccess k ty off le in
            match rest with
            | TPunct c6 :: rest' =>
                if punct c6 "," then
                  match parse_props rest' with
                  | Some (ps, r) => Some (p :: ps, r)
                  | None => None
                  end
                else Some ([p], rest)
            | _ => Some ([p], rest)
            end
        | _, _ => None
        end
      else None
  | _ => None
  end.

(** [view.setter(offset, data.key, littleEndian);], one after another *)
Fixpoint parse_stmts (ts : list token) : list Access * list token :=
  match ts with
  | TIdent v :: TPunct c1 :: TIdent s :: TPunct c2 :: TNum off :: TPunct c3
      :: TIdent d :: TPunct c4 :: TIdent k :: TPunct c5 :: TIdent b
      :: TPunct c6 :: TPunct c7 :: rest =>
      if String.eqb v "view" && punct c1 "." && punct c2 "(" && punct c3 ","
         && String.eqb d "data" && punct c4 "." && punct c5 "," && punct c6 ")"
         && punct c7 ";"
      then
        match setter_type s, boolean_literal b with
        | Some ty, Some le =>
            let (ss, r) := parse_stmts rest in (mkAccess k ty off le :: ss, r)
        | _, _ => ([], ts)
        end
      else ([], ts)
  | _ => ([], ts)
  end.

Definition nl : string := String "010" EmptyString.

(** The tokens of
    [const view = buffer instanceof DataView ? buffer : new DataView(buffer);] *)
Definition view_of_buffer : list token :=
  [TIdent "const"; TIdent "view"; TPunct "="; TIdent "buffer";
   TIdent "instanceof"; TIdent "DataView"; TPunct "?"; TIdent "buffer";
   TPunct ":"; TIdent "new"; TIdent "DataView"; TPunct "("; TIdent "buffer";
   TPunct ")"; TPunct ";"].

(** The tokens of [const view = buffer instanceof DataView ? buffer :
    buffer instanceof ArrayBuffer ? new DataView(buffer) :
    new DataView(new ArrayBuffer(] and of what follows the size. *)
Definition view_of_target : list token :=
  [TIdent "const"; TIdent "view"; TPunct "="; TIdent "buffer";
   TIdent "instanceof"; TIdent "DataView"; TPunct "?"; TIdent "buffer";
   TPunct ":"; TIdent "buffer"; TIdent "instanceof"; TIdent "ArrayBuffer";
   TPunct "?"; TIdent "new"; TIdent "DataView"; TPunct "("; TIdent "buffer";
   TPunct ")"; TPunct ":"; TIdent "new"; TIdent "DataView"; TPunct "(";
   TIdent "new"; TIdent "ArrayBuffer"; TPunct "("].

Definition return_view_buffer : list token :=
  [TIdent "return"; TIdent "view"; TPunct "."; TIdent "buffer"; TPunct ";"].

(** An object literal may define [__proto__] once. *)
Definition proto_once (props : list Access) : bool :=
  (length (filter (fun p => String.eqb (key p) "__proto__") props) <=? 1)%nat.

(** Body of a function of [buffer] that returns an object literal. *)
Definition parse_object (ts : list token) : option (list Access) :=
  match expect (view_of_buffer ++ [TIdent "return"; TPunct "{"]) ts with
  | Some (TPunct c :: rest) =>
      if punct c "}" then
        match rest with
        | [TPunct c'] => if punct c' ";" then Some [] else None
        | _ => None
        end
      else None
  | Some ts' =>
      match parse_props ts' with
      | Some (ps, [TPunct c1; TPunct c2]) =>
          if punct c1 "}" && punct c2 ";" then Some ps else None
      | _ => None
      end
  | None => None
  end.

Definition parse_reader (ts : list token) : option (list Access) :=
  match parse_object ts with
  | Some props => if proto_once props then Some props else None
  | None => None
  end.

(** Body of a function of [data] and [buffer] that stores into the view
    and returns its buffer. *)
Definition parse_writer (ts : list token) : option (nat * list Access) :=
  match expect view_of_target ts with
  | Some (TNum n :: ts1) =>
      match expect [TPunct ")"; TPunct ")"; TPunct ";"] ts1 with
      | Some ts2 =>
          let (ss, r) := parse_stmts ts2 in
          match expect return_view_buffer r with
          | Some [] => Some (n, ss)
          | _ => None
          end
      | None => None
      end
  | _ => None
  end.

Definition call_getter (view : DataView) (a : Access) : M number :=
  match type a with
  | uint8 => getUint8 view (at_offset a)
  | uint16 => getUint16 view (at_offset a) (isLittleEndian a)
  | uint32 => getUint32 view (at_offset a) (isLittleEndian a)
  | float32 => getFloat32 view (at_offset a) (isLittleEndian a)
  end.

Definition call_setter (view : DataView) (a : Access) (v : value) : M unit :=
  match type a with
  | uint8 => setUint8 view (at_offset a) v
  | uint16 => setUint16 view (at_offset a) v (isLittleEndian a)
  | uint32 => setUint32 view (at_offset a) v (isLittleEndian a)
  | float32 => setFloat32 view (at_offset a) v (isLittleEndian a)
  end.

(** Evaluation of the object literal, property by property. *)
Fixpoint literal (props : list Access) (view : DataView) (result : object) : M object :=
  match props with
  | [] => ret result
  | p :: props' =>
      v <- call_getter view p ;;
      literal props' view (Set_ result (key p) v)
  end.

Definition run_reader (props : list Access) (buffer : BufferArg) : Outcome object :=
  let view := view_of buffer in
  literal props view [] (underlying buffer).

Definition run_writer (n : nat) (stmts : list Access) (data : object)
    (buffer : option BufferArg) : Outcome ArrayBuffer :=
  let '(view, ab) :=
    match buffer with
    | Some (IsDataView view ab) => (view, ab)
    | Some (IsArrayBuffer ab) => (mkDataView 0 (length ab), ab)
    | None => (mkDataView 0 n, new_ArrayBuffer n)
    end in
  (for_of stmts (fun s => call_setter view s (Get data (key s))) ;; view_buffer) ab.

(** *** Names that are more than one identifier

    Nothing checks a field name before it is pasted into the two texts,
    and a name may be more than one token.  The model also covers the
    texts that arise from names of the form [x1, ..., xn, K]: identifiers
    [x1] to [xn], then [K], which is an identifier or an accessor call in
    brackets, [[view.setT(...)]].  In the object literal of the reader
    [x1] to [xn] are shorthand properties and [K] is the key of the
    property that the template initialises, a computed key when it is in
    brackets.  In the call of the writer the value stored is [data.x1],
    and [x2] to [xn] and [K] are further arguments of the setter, [K] in
    brackets being an array literal.

    The arguments of a call in brackets are decimal literals, [true],
    [false], [NaN], [Infinity], [undefined], [data.x],
    [Object.values(data)[i]] and identifiers that nothing binds.  An
    identifier is taken to be bound by nothing when it is not a
    parameter, not [view] or [arguments], not a reserved word and not
    one of [global_names], the properties that the global object has in
    an engine and its host; [Object] and [Object.values] are in their
    initial state. *)

Definition reserved_words : list string :=
  ["break"; "case"; "catch"; "class"; "const"; "continue"; "debugger"; "default";
   "delete"; "do"; "else"; "enum"; "export"; "extends"; "finally"; "for";
   "function"; "if"; "import"; "in"; "instanceof"; "new"; "null"; "return"; "super";
   "switch"; "this"; "throw"; "try"; "typeof"; "var"; "void"; "while"; "with";
   "let"; "static"; "yield"; "await"; "implements"; "interface"; "package";
   "private"; "protected"; "public"]%string.

Definition global_names : list string :=
  ["globalThis"; "eval"; "isFinite"; "isNaN"; "parseFloat"; "parseInt"; "decodeURI";
   "decodeURIComponent"; "encodeURI"; "encodeURIComponent"; "escape"; "unescape";
   "AggregateError"; "Array"; "ArrayBuffer"; "AsyncDisposableStack"; "Atomics";
   "BigInt"; "BigInt64Array"; "BigUint64Array"; "Boolean"; "DataView"; "Date";
   "DisposableStack"; "Error"; "EvalError"; "FinalizationRegistry"; "Float16Array";
   "Float32Array"; "Float64Array"; "Function"; "Int8Array"; "Int16Array"; "Int32Array";
   "Intl"; "Iterator"; "JSON"; "Map"; "Math"; "Number"; "Object"; "Promise"; "Proxy";
   "RangeError"; "ReferenceError"; "Reflect"; "RegExp"; "Set"; "SharedArrayBuffer";
   "String"; "SuppressedError"; "Symbol"; "SyntaxError"; "TypeError"; "URIError";
   "Uint8Array"; "Uint8ClampedArray"; "Uint16Array"; "Uint32Array"; "WeakMap";
   "WeakRef"; "WeakSet"; "WebAssembly";
   "AbortController"; "AbortSignal"; "Blob"; "BroadcastChannel"; "Buffer"; "Bun";
   "ByteLengthQueuingStrategy"; "CloseEvent"; "CompressionStream";
   "CountQueuingStrategy"; "Crypto"; "CryptoKey"; "CustomEvent"; "DOMException";
   "DecompressionStream"; "ErrorEvent"; "Event"; "EventSource"; "EventTarget"; "File";
   "FormData"; "HTMLRewriter"; "Headers"; "Loader"; "MessageChannel"; "MessageEvent";
   "MessagePort"; "Navigator"; "Performance"; "PerformanceEntry"; "PerformanceMark";
   "PerformanceMeasure"; "PerformanceObserver"; "PerformanceObserverEntryList";
   "PerformanceResourceTiming"; "ReadableByteStreamController"; "ReadableStream";
   "ReadableStreamBYOBReader"; "ReadableStreamBYOBRequest";
   "ReadableStreamDefaultController"; "ReadableStreamDefaultReader"; "Request";
   "Response"; "ShadowRealm"; "SubtleCrypto"; "TextDecoder"; "TextDecoderStream";
   "TextEncoder"; "TextEncoderStream"; "TransformStream";
   "TransformStreamDefaultController"; "URL"; "URLPattern"; "URLSearchParams";
   "WebSocket"; "Worker"; "WritableStream"; "WritableStreamDefaultController";
   "WritableStreamDefaultWriter"; "addEventListener"; "alert"; "atob"; "btoa";
   "clearImmediate"; "clearInterval"; "clearTimeout"; "confirm"; "console"; "crypto";
   "dispatchEvent"; "document"; "exports"; "fetch"; "global"; "location"; "module";
   "name"; "navigator"; "onerror"; "onmessage"; "origin"; "performance";
   "postMessage"; "process"; "prompt"; "queueMicrotask"; "removeEventListener";
   "reportError"; "require"; "self"; "setImmediate"; "setInterval"; "setTimeout";
   "structuredClone"; "window"; "__dirname"; "__filename"]%string.

(** An argument of an accessor call in brackets. *)
Inductive atom : Type :=
| ALiteral (n : nat)
| AConstant (v : value)
| ABoolean (b : bool)
| AUnresolvable (x : string)
| AProperty (x : string)
| AValues (i : nat).

(** [view.setT(arguments)] *)
Record call : Type := mkCall { callee : FieldType; arguments : list atom }.

(** A property definition of the object literal: the shorthand [x], with
    the number that [x] is bound to, if it is bound; [key: view.getT(...)];
    [[call]: view.getT(...)]. *)
Inductive property : Type :=
| Shorthand (x : string) (bound : option number)
| Plain (p : Access)
| Computed (c : call) (p : Access).

(** An argument of a setter of the writer, after [data.x]. *)
Inductive argument : Type :=
| Atom (a : atom)
| ArrayLiteral (c : call).

(** [view.setT(offset, data.x, arguments);] *)
Record statement : Type := mkStatement {
  setter_of : FieldType;
  index_of : nat;
  property_of : string;
  further : list argument
}.

(** What an identifier denotes as an expression, in a function with the
    parameters [params]. *)
Definition resolve (params : list string) (x : string) : option atom :=
  if String.eqb x "NaN" then Some (AConstant (Num NaN))
  else if String.eqb x "Infinity" then Some (AConstant (Num (Infinity false)))
  else if String.eqb x "undefined" then Some (AConstant undefined)
  else if String.eqb x "true" then Some (ABoolean true)
  else if String.eqb x "false" then Some (ABoolean false)
  else if existsb (String.eqb x) reserved_words
          || existsb (String.eqb x) params
          || String.eqb x "view" || String.eqb x "arguments"
          || inherited x || existsb (String.eqb x) global_names
       then None
  else Some (AUnresolvable x).

(** [data.x] and [Object.values(data)[i]], after the first identifier *)
Definition parse_data (x : string) (ts : list token) : option (atom * list token) :=
  match ts with
  | TPunct c1 :: TIdent y :: ts1 =>
      if String.eqb x "data" && punct c1 "." then Some (AProperty y, ts1)
      else if String.eqb x "Object" && punct c1 "." && String.eqb y "values" then
        match ts1 with
        | TPunct c2 :: TIdent d :: TPunct c3 :: TPunct c4 :: TNum i :: TPunct c5 :: ts2 =>
            if punct c2 "(" && String.eqb d "data" && punct c3 ")" && punct c4 "["
               && punct c5 "]"
            then Some (AValues i, ts2)
            else None
        | _ => None
        end
      else None
  | _ => None
  end.

Definition parse_atom (params : list string) (ts : list token) : option (atom * list token) :=
  match ts with
  | TNum n :: rest => if Z.of_nat n <? 2 ^ 53 then Some (ALiteral n, rest) else None
  | TIdent x :: rest =>
      match parse_data x rest with
      | Some r => Some r
      | None => option_map (fun a => (a, rest)) (resolve params x)
      end
  | _ => None
  end.

(** Atoms separated by commas, then [)] *)
Fixpoint parse_atoms (fuel : nat) (params : list string) (ts : list token)
  : option (list atom * list token) :=
  match fuel with
  | O => None
  | S fuel' =>
      match parse_atom params ts with
      | Some (a, TPunct c :: rest) =>
          if punct c ")" then Some ([a], rest)
          else if punct c "," then
            match parse_atoms fuel' params rest with
            | Some (l, r) => Some (a :: l, r)
            | None => None
            end
          else None
      | _ => None
      end
  end.

Definition parse_call (params : list string) (ts : list token) : option (call * list token) :=
  match ts with
  | TIdent v :: TPunct c1 :: TIdent s :: TPunct c2 :: rest =>
      if String.eqb v "view" && punct c1 "." && punct c2 "(" then
        match setter_type s, rest with
        | Some ty, TPunct c :: rest' =>
            if punct c ")" then Some (mkCall ty [], rest') else None
        | Some ty, _ =>
            match parse_atoms (length rest) params rest with
            | Some (l, r) => Some (mkCall ty l, r)
            | None => None
            end
        | None, _ => None
        end
      else None
  | _ => None
  end.

(** [[view.setT(...)]] *)
Definition parse_bracket (params : list string) (ts : list token)
  : option (call * list token) :=
  match ts with
  | TPunct c :: rest =>
      if punct c "[" then
        match parse_call params rest with
        | Some (cl, TPunct c' :: rest') => if punct c' "]" then Some (cl, rest') else None
        | _ => None
        end
      else None
  | _ => None
  end.

(** [: view.getter(offset, littleEndian)], as the template writes it
    after a name *)
Definition parse_getter (k : string) (ts : list token) : option (Access * list token) :=
  match ts with
  | TPunct c1 :: TIdent v :: TPunct c2 :: TIdent g :: TPunct c3 :: TNum off :: TPunct c4
      :: TIdent b :: TPunct c5 :: rest =>
      if punct c1 ":" && String.eqb v "view" && punct c2 "." && punct c3 "("
         && punct c4 "," && punct c5 ")"
      then
        match getter_type g, boolean_literal b with
        | Some ty, Some le => Some (mkAccess k ty off le, rest)
        | _, _ => None
        end
      else None
  | _ => None
  end.

(** The property definitions of the object literal, separated by commas.
    A computed key is the result of a setter, which is [undefined]. *)
Fixpoint parse_properties (fuel : nat) (ts : list token)
  : option (list property * list token) :=
  match fuel with
  | O => None
  | S fuel' =>
      let more (p : property) (rest : list token) :=
        match rest with
        | TPunct c :: rest' =>
            if punct c "," then
              match parse_properties fuel' rest' with
              | Some (ps, r) => Some (p :: ps, r)
              | None => None
              end
            else Some ([p], rest)
        | _ => Some ([p], rest)
        end in
      match ts with
      | TIdent x :: TPunct c :: rest =>
          if punct c "," then
            match resolve ["buffer"%string] x, parse_properties fuel' rest with
            | Some (AConstant (Num n)), Some (ps, r) => Some (Shorthand x (Some n) :: ps, r)
            | Some (AUnresolvable _), Some (ps, r) => Some (Shorthand x None :: ps, r)
            | _, _ => None
            end
          else
            match parse_getter x (TPunct c :: rest) with
            | Some (p, rest') => more (Plain p) rest'
            | None => None
            end
      | TPunct _ :: _ =>
          match parse_bracket ["buffer"%string] ts with
          | Some (cl, rest) =>
              match parse_getter "undefined" rest with
              | Some (p, rest') => more (Computed cl p) rest'
              | None => None
              end
          | None => None
          end
      | _ => None
      end
  end.

Definition plain (ps : list property) : list Access :=
  flat_map (fun p => match p with Plain a => [a] | _ => [] end) ps.

Definition parse_reader_wide (ts : list token) : option (list property) :=
  match expect (view_of_buffer ++ [TIdent "return"; TPunct "{"]) ts with
  | Some ts' =>
      match parse_properties (length ts') ts' with
      | Some (ps, [TPunct c1; TPunct c2]) =>
          if punct c1 "}" && punct c2 ";" && proto_once (plain ps) then Some ps else None
      | _ => None
      end
  | None => None
  end.

Definition parse_argument (params : list string) (ts : list token)
  : option (argument * list token) :=
  match ts with
  | TPunct _ :: _ =>
      match parse_bracket params ts with
      | Some (cl, rest) => Some (ArrayLiteral cl, rest)
      | None => None
      end
  | _ =>
      match parse_atom params ts with
      | Some (a, rest) => Some (Atom a, rest)
      | None => None
      end
  end.

(** [, argument] any number of times, then [)] *)
Fixpoint parse_arguments (fuel : nat) (params : list string) (ts : list token)
  : option (list argument * list token) :=
  match fuel with
  | O => None
  | S fuel' =>
      match ts with
      | TPunct c :: rest =>
          if punct c ")" then Some ([], rest)
          else if punct c "," then
            match parse_argument params rest with
            | Some (a, rest') =>
                match parse_arguments fuel' params rest' with
                | Some (l, r) => Some (a :: l, r)
                | None => None
                end
            | None => None
            end
          else None
      | _ => None
      end
  end.

Definition parse_statement (ts : list token) : option (statement * list token) :=
  match ts with
  | TIdent v :: TPunct c1 :: TIdent s :: TPunct c2 :: TNum off :: TPunct c3
      :: TIdent d :: TPunct c4 :: TIdent k :: rest =>
      if String.eqb v "view" && punct c1 "." && punct c2 "(" && punct c3 ","
         && String.eqb d "data" && punct c4 "."
      then
        match setter_type s, parse_arguments (length rest) ["data"; "buffer"]%string rest with
        | Some ty, Some (l, TPunct c5 :: rest') =>
            if punct c5 ";" then Some (mkStatement ty off k l, rest') else None
        | _, _ => None
        end
      else None
  | _ => None
  end.

Fixpoint parse_statements (fuel : nat) (ts : list token) : list statement * list token :=
  match fuel with
  | O => ([], ts)
  | S fuel' =>
      match parse_statement ts with
      | Some (s, rest) => let (ss, r) := parse_statements fuel' rest in (s :: ss, r)
      | None => ([], ts)
      end
  end.

Definition parse_writer_wide (ts : list token) : option (nat * list statement) :=
  match expect view_of_target ts with
  | Some (TNum n :: ts1) =>
      match expect [TPunct ")"; TPunct ")"; TPunct ";"] ts1 with
      | Some ts2 =>
          let (ss, r) := parse_statements (length ts2) ts2 in
          match expect return_view_buffer r with
          | Some [] => Some (n, ss)
          | _ => None
          end
      | None => None
      end
  | _ => None
  end.

(** The value of an atom: a value of a record, or a boolean. *)
Inductive operand : Type :=
| OValue (v : value)
| OBoolean (b : bool).

Definition ToBoolean (o : operand) : bool :=
  match o with
  | OBoolean b => b
  | OValue undefined => false
  | OValue (Num NaN) => false
  | OValue (Num (Zero _)) => false
  | OValue (Num _) => true
  | OValue Inherited => true
  end.

Definition operand_number (o : operand) : number :=
  match o with
  | OBoolean true => Number_of_Z 1
  | OBoolean false => Zero false
  | OValue v => ToNumber v
  end.

(** ToIndex: the integer part of the number, refused with a RangeError
    when it is negative or above [2^53 - 1]. *)
Definition ToIndex (o : operand) : option nat :=
  match operand_number o with
  | NaN => Some O
  | Zero _ => Some O
  | Infinity _ => None
  | Finite neg m e =>
      let t := truncate neg m e in
      if (0 <=? t) && (t <=? 2 ^ 53 - 1) then Some (Z.to_nat t) else None
  end.

(** Evaluation of an atom; [data] is the record in the writer, and is
    bound by nothing in the reader. *)
Definition eval_atom (data : option object) (a : atom) : Completion operand :=
  match a with
  | ALiteral n => Normal (OValue (Num (Number_of_Z (Z.of_nat n))))
  | AConstant v => Normal (OValue v)
  | ABoolean b => Normal (OBoolean b)
  | AUnresolvable _ => Throw ReferenceError
  | AProperty x =>
      match data with
      | Some d => Normal (OValue (Get d x))
      | None => Throw ReferenceError
      end
  | AValues i =>
      match data with
      | Some d =>
          Normal (OValue (match nth_error (Object_values d) i with
                          | Some n => Num n
                          | None => undefined
                          end))
      | None => Throw ReferenceError
      end
  end.

Fixpoint eval_atoms (data : option object) (l : list atom) : Completion (list operand) :=
  match l with
  | [] => Normal []
  | a :: l' =>
      match eval_atom data a with
      | Normal o =>
          match eval_atoms data l' with
          | Normal os => Normal (o :: os)
          | Throw e => Throw e
          end
      | Throw e => Throw e
      end
  end.

(** A call [view.setT(byteOffset, value, littleEndian)] on any
    arguments: they are evaluated, then converted; an argument that is
    not given is [undefined]. *)
Definition run_call (view : DataView) (data : option object) (c : call) : M unit :=
  match eval_atoms data (arguments c) with
  | Throw e => throw e
  | Normal os =>
      match ToIndex (nth 0 os (OValue undefined)) with
      | None => throw RangeError
      | Some i =>
          call_setter view
            (mkAccess EmptyString (callee c) i (ToBoolean (nth 2 os (OValue undefined))))
            (Num (operand_number (nth 1 os (OValue undefined))))
      end
  end.

(** Evaluation of the object literal, property by property; a computed
    key is evaluated before the value of its property. *)
Fixpoint define (props : list property) (view : DataView) (result : object) : M object :=
  match props with
  | [] => ret result
  | Shorthand x (Some n) :: props' => define props' view (assoc_set result x n)
  | Shorthand x None :: _ => throw ReferenceError
  | Plain p :: props' =>
      v <- call_getter view p ;;
      define props' view (Set_ result (key p) v)
  | Computed c p :: props' =>
      run_call view None c ;;
      v <- call_getter view p ;;
      define props' view (assoc_set result "undefined" v)
  end.

Definition run_reader_wide (props : list property) (buffer : BufferArg) : Outcome object :=
  let view := view_of buffer in
  define props view [] (underlying buffer).

(** The further arguments of a setter, from left to right: what each
    converts to as a boolean, an array being an object. *)
Fixpoint run_arguments (view : DataView) (data : object) (l : list argument) : M (list bool) :=
  match l with
  | [] => ret []
  | Atom a :: l' =>
      match eval_atom (Some data) a with
      | Normal o => bs <- run_arguments view data l' ;; ret (ToBoolean o :: bs)
      | Throw e => throw e
      end
  | ArrayLiteral c :: l' =>
      run_call view (Some data) c ;;
      bs <- run_arguments view data l' ;;
      ret (true :: bs)
  end.

(** The first of the further arguments is [littleEndian]. *)
Definition run_statement (view : DataView) (data : object) (s : statement) : M unit :=
  bs <- run_arguments view data (further s) ;;
  call_setter view (mkAccess (property_of s) (setter_of s) (index_of s) (hd false bs))
              (Get data (property_of s)).

Definition run_writer_wide (n : nat) (stmts : list statement) (data : object)
    (buffer : option BufferArg) : Outcome ArrayBuffer :=
  let '(view, ab) :=
    match buffer with
    | Some (IsDataView view ab) => (view, ab)
    | Some (IsArrayBuffer ab) => (mkDataView 0 (length ab), ab)
    | None => (mkDataView 0 n, new_ArrayBuffer n)
    end in
  (for_of stmts (run_statement view data) ;; view_buffer) ab.

(** [new Function("buffer", body)] *)
Definition new_Function_buffer (body : string)
  : Completion (BufferArg -> Outcome object) :=
  match tokenize body with
  | Some ts =>
      match parse_reader ts with
      | Some props => Normal (run_reader props)
      | None =>
          match parse_reader_wide ts with
          | Some props => Normal (run_reader_wide props)
          | None => Throw SyntaxError
          end
      end
  | None => Throw SyntaxError
  end.

(** [new Function("data", "buffer", body)] *)
Definition new_Function_data_buffer (body : string)
  : Completion (object -> option BufferArg -> Outcome ArrayBuffer) :=
  match tokenize body with
  | Some ts =>
      match parse_writer ts with
      | Some (n, stmts) => Normal (run_writer n stmts)
      | None =>
          match parse_writer_wide ts with
          | Some (n, stmts) => Normal (run_writer_wide n stmts)
          | None => Throw SyntaxError
          end
      end
  | None => Throw SyntaxError
  end.

End FunctionConstructor.

(** ** Version 1: using [new Function()] *)

Module V1.

Import FunctionConstructor.

Record Field : Type := mkField {
  offset : nat;
  size : nat;
  getter : string;
  setter : string
}.

(** The builder object.  [fields] and [fieldMap] are read by [build]
    while it runs and by nothing that [build] returns. *)
Record BinaryStructBuilderV1 : Type := mkBuilder {
  this_size : nat;
  this_fields : list Field;
  this_fieldMap : list (string * nat);
  this_littleEndian : bool
}.

(** [new BinaryStructBuilderV1(littleEndian = true)] *)
Definition new (littleEndian : option bool) : BinaryStructBuilderV1 :=
  mkBuilder 0 [] [] (match littleEndian with Some b => b | None => true end).

Definition allocField (this : BinaryStructBuilderV1) (type : FieldType)
  : Field * BinaryStructBuilderV1 :=
  let offset := this_size this in
  let '(size, getter, setter) :=
    match type with
    | uint8 => (1%nat, "getUint8"%string, "setUint8"%string)
    | uint16 => (2%nat, "getUint16"%string, "setUint16"%string)
    | uint32 => (4%nat, "getUint32"%string, "setUint32"%string)
    | float32 => (4%nat, "getFloat32"%string, "setFloat32"%string)
    end in
  (mkField offset size getter setter,
   mkBuilder (this_size this + size) (this_fields this) (this_fieldMap this)
             (this_littleEndian this)).

Definition addField (this : BinaryStructBuilderV1) (name : string) (type : FieldType)
  : BinaryStructBuilderV1 :=
  let (field, this) := allocField this type in
  let fields := this_fields this ++ [field] in
  mkBuilder (this_size this) fields
            (assoc_set (this_fieldMap this) name (length fields - 1)%nat)
            (this_littleEndian this).

(** The struct returned by [build]. *)
Record Struct : Type := mkStruct {
  struct_size : nat;
  struct_read : BufferArg -> Outcome object;
  struct_write : object -> option BufferArg -> Outcome ArrayBuffer
}.

(** Conversion to text inside a template: a size or an offset, a
    non-negative integer (below [10^21], from where on the language uses
    the exponent notation), prints in decimal, a boolean as its literal. *)
Definition string_of_nat (n : nat) : string := NilEmpty.string_of_uint (Nat.to_uint n).

Definition string_of_bool (b : bool) : string := if b then "true" else "false".

Definition spaces (n : nat) : string := String.concat EmptyString (repeat " "%string n).

(** [Array.from(fieldMap.entries()).map(([name, index]) => render(name, fields[index]))];
    reading a property of [fields[index]] when there is no such element
    throws a TypeError. *)
Fixpoint map_entries (render : string -> Field -> string) (fields : list Field)
    (entries : list (string * nat)) : Completion (list string) :=
  match entries with
  | [] => Normal []
  | (name, index) :: entries' =>
      match nth_error fields index with
      | Some field =>
          match map_entries render fields entries' with
          | Normal l => Normal (render name field :: l)
          | Throw e => Throw e
          end
      | None => Throw TypeError
      end
  end.

Definition read_entry (littleEndian : bool) (name : string) (field : Field) : string :=
  (name ++ ": view." ++ getter field ++ "(" ++ string_of_nat (offset field) ++ ", "
        ++ string_of_bool littleEndian ++ ")")%string.

Definition write_entry (littleEndian : bool) (name : string) (field : Field) : string :=
  ("view." ++ setter field ++ "(" ++ string_of_nat (offset field) ++ ", data." ++ name
           ++ ", " ++ string_of_bool littleEndian ++ ");")%string.

Definition read_body (entries : list string) : string :=
  (nl ++ spaces 6 ++ "const view = buffer instanceof DataView ? buffer : new DataView(buffer);"
      ++ nl ++ spaces 6 ++ "return {"
      ++ nl ++ spaces 8 ++ String.concat ("," ++ nl) entries
      ++ nl ++ spaces 6 ++ "};"
      ++ nl ++ spaces 4)%string.

Definition write_body (structSize : nat) (entries : list string) : string :=
  (nl ++ spaces 6 ++ "const view = buffer instanceof DataView ? buffer :"
      ++ nl ++ spaces 19 ++ "buffer instanceof ArrayBuffer ? new DataView(buffer) :"
      ++ nl ++ spaces 19 ++ "new DataView(new ArrayBuffer(" ++ string_of_nat structSize ++ "));"
      ++ nl ++ spaces 6 ++ String.concat nl entries
      ++ nl ++ spaces 6 ++ "return view.buffer;"
      ++ nl ++ spaces 4)%string.

Definition build (this : BinaryStructBuilderV1) : Completion Struct :=
  let structSize := this_size this in
  let fields := this_fields this in
  let fieldMap := this_fieldMap this in
  let littleEndian := this_littleEndian this in
  match map_entries (read_entry littleEndian) fields fieldMap with
  | Throw e => Throw e
  | Normal reads =>
      match new_Function_buffer (read_body reads) with
      | Throw e => Throw e
      | Normal readFn =>
          match map_entries (write_entry littleEndian) fields fieldMap with
          | Throw e => Throw e
          | Normal writes =>
              match new_Function_data_buffer (write_body structSize writes) with
              | Throw e => Throw e
              | Normal writeFn => Normal (mkStruct structSize readFn writeFn)
              end
          end
      end
  end.

(** A chain of [addField] calls, as
    [entries.reduce((b, [name, type]) => b.addField(name, type), builder)]. *)
Definition reduce (entries : list (string * FieldType)) (b : BinaryStructBuilderV1)
  : BinaryStructBuilderV1 :=
  fold_left (fun b e => addField b (fst e) (snd e)) entries b.

(** The builder after [new BinaryStructBuilderV1(littleEndian)] and a
    chain of declarations. *)
Definition declare (entries : list (string * FieldType)) (littleEndian : option bool)
  : BinaryStructBuilderV1 :=
  reduce entries (new littleEndian).

End V1.

(** ** The benchmark's struct and record *)

Definition ComplexStruct : list (string * FieldType) :=
  [("id", uint32); ("x", float32); ("y", float32); ("z", float32);
   ("flags", uint16); ("type", uint8); ("reserved", uint8)]%string.

(** [1.5], [2.5] and [3.5] are [3/2], [5/2] and [7/2];
    [0b1010101010101010] is [43690]. *)
Definition data : object :=
  [("id", Number_of_Z 1234); ("x", Finite false 3 (-1)); ("y", Finite false 5 (-1));
   ("z", Finite false 7 (-1)); ("flags", Number_of_Z 43690);
   ("type", Number_of_Z 255); ("reserved", Number_of_Z 0)]%string.

(** ** Layouts, as both builders compute them *)

Definition total_width (entries : list (string * FieldType)) : nat :=
  list_sum (map (fun e => width (snd e)) entries).

(** The offsets given to the fields of [entries], the first one at [offset]. *)
Fixpoint offsets (entries : list (string * FieldType)) (offset : nat) : list nat :=
  match entries with
  | [] => []
  | (_, type) :: entries' => offset :: offsets entries' (offset + width type)
  end.

(** The accesses that a struct makes for [entries], in declaration order. *)
Fixpoint layout (littleEndian : bool) (entries : list (string * FieldType)) (offset : nat)
  : list FunctionConstructor.Access :=
  match entries with
  | [] => []
  | (name, type) :: entries' =>
      FunctionConstructor.mkAccess name type offset littleEndian
        :: layout littleEndian entries' (offset + width type)
  end.

Definition default_true (littleEndian : option bool) : bool :=
  match littleEndian with Some b => b | None => true end.

(** The values that a field of a given type holds exactly. *)
Definition exact (type : FieldType) (v : number) : Prop :=
  match type with
  | uint8 => exists z, 0 <= z < 2 ^ 8 /\ v = Number_of_Z z
  | uint16 => exists z, 0 <= z < 2 ^ 16 /\ v = Number_of_Z z
  | uint32 => exists z, 0 <= z < 2 ^ 32 /\ v = Number_of_Z z
  | float32 => is_float32 v
  end.

(** The same buffer argument over another content of the array buffer. *)
Definition with_content (b : BufferArg) (ab : ArrayBuffer) : BufferArg :=
  match b with
  | IsArrayBuffer _ => IsArrayBuffer ab
  | IsDataView view _ => IsDataView view ab
  end.

(** What an accessor call stores and loads: the integer written for a
    value, the value read from an integer, and the order of the bytes. *)
Definition field_bits (type : FieldType) (v : value) : Z :=
  match type with
  | uint8 => ToUint 8 (ToNumber v)
  | uint16 => ToUint 16 (ToNumber v)
  | uint32 => ToUint 32 (ToNumber v)
  | float32 => float32_bits (ToFloat32 (ToNumber v))
  end.

Definition field_value (type : FieldType) (z : Z) : number :=
  match type with
  | float32 => float32_of_bits z
  | _ => Number_of_Z z
  end.

Definition endian (type : FieldType) (littleEndian : bool) (raw : list byte) : list byte :=
  match type with
  | uint8 => raw
  | _ => if littleEndian then raw else rev raw
  end.

Definition stored (a : FunctionConstructor.Access) (v : value) : list byte :=
  endian (FunctionConstructor.type a) (FunctionConstructor.isLittleEndian a)
    (NumericToRawBytes (width (FunctionConstructor.type a))
       (field_bits (FunctionConstructor.type a) v)).

Definition loaded (a : FunctionConstructor.Access) (raw : list byte) : number :=
  field_value (FunctionConstructor.type a)
    (RawBytesToNumeric
       (endian (FunctionConstructor.type a) (FunctionConstructor.isLittleEndian a) raw)).

Definition slice (ab : ArrayBuffer) (pos w : nat) : list byte := firstn w (skipn pos ab).

(** The access fits the view. *)
Definition in_bounds (view : DataView) (a : FunctionConstructor.Access) : bool :=
  (FunctionConstructor.at_offset a + width (FunctionConstructor.type a) <=? byteLength view)%nat.

(** The content of the buffer after the stores of [stmts], all of which
    fit the view. *)
Definition write_all (view : DataView) (data : object)
    (stmts : list FunctionConstructor.Access) (ab : ArrayBuffer) : ArrayBuffer :=
  fold_left
    (fun ab a =>
       splice ab (byteOffset view + FunctionConstructor.at_offset a)
              (stored a (Get data (FunctionConstructor.key a))))
    stmts ab.

(** The object that the loads of [props] build from a buffer, all of
    them fitting the view. *)
Definition read_all (view : DataView) (ab : ArrayBuffer)
    (props : list FunctionConstructor.Access) (result : object) : object :=
  fold_left
    (fun o a =>
       Set_ o (FunctionConstructor.key a)
            (loaded a (slice ab (byteOffset view + FunctionConstructor.at_offset a)
                             (width (FunctionConstructor.type a)))))
    props result.

(** The field that [V2.allocField] pushes, seen as an access. *)
Definition field_of (a : FunctionConstructor.Access) : V2.Field :=
  V2.mkField (FunctionConstructor.key a) (FunctionConstructor.at_offset a)
             (width (FunctionConstructor.type a))
             (fun view => FunctionConstructor.call_getter view a)
             (fun view v => FunctionConstructor.call_setter view a v).

(** ** Tokens of the templates *)

Module Template.

Import FunctionConstructor.

Definition is_sep (c : ascii) : bool := is_space c || is_punct c.

Definition first_is_sep (s : string) : bool :=
  match s with
  | EmptyString => false
  | String c _ => is_sep c
  end.

Fixpoint last_is_sep (s : string) : bool :=
  match s with
  | EmptyString => false
  | String c EmptyString => is_sep c
  | String _ s' => last_is_sep s'
  end.

Definition getter_name (type : FieldType) : string :=
  match type with
  | uint8 => "getUint8"
  | uint16 => "getUint16"
  | uint32 => "getUint32"
  | float32 => "getFloat32"
  end.

Definition setter_name (type : FieldType) : string :=
  match type with
  | uint8 => "setUint8"
  | uint16 => "setUint16"
  | uint32 => "setUint32"
  | float32 => "setFloat32"
  end.

(** The field that [V1.allocField] returns, seen as an access. *)
Definition V1field (a : Access) : V1.Field :=
  V1.mkField (at_offset a) (width (type a)) (getter_name (type a)) (setter_name (type a)).

(** The tokens around the name in an entry of the reader and of the writer. *)
Definition getter_tokens (le : bool) (a : Access) : list token :=
  [TPunct ":"; TIdent "view"; TPunct "."; TIdent (getter_name (type a)); TPunct "(";
   TNum (at_offset a); TPunct ","; TIdent (V1.string_of_bool le); TPunct ")"].

Definition setter_head (a : Access) : list token :=
  [TIdent "view"; TPunct "."; TIdent (setter_name (type a)); TPunct "(";
   TNum (at_offset a); TPunct ","; TIdent "data"; TPunct "."].

Definition setter_tail (le : bool) : list token :=
  [TPunct ","; TIdent (V1.string_of_bool le); TPunct ")"; TPunct ";"].

(** The identifier that a field name is read as, when it is read as one. *)
Definition identifier_of (name : string) : option string :=
  match tokenize name with
  | Some [TIdent x] => Some x
  | _ => None
  end.

(** The entries of [fieldMap] with the field each index designates. *)
Fixpoint bind_entries (L : list Access) (fieldMap : list (string * nat))
  : list (string * Access) :=
  match fieldMap with
  | [] => []
  | (name, index) :: fieldMap' =>
      match nth_error L index with
      | Some a => (name, a) :: bind_entries L fieldMap'
      | None => []
      end
  end.

(** [fieldMap] after a chain of [addField], the first index being [k]. *)
Fixpoint index_map (entries : list (string * FieldType)) (k : nat)
    (fieldMap : list (string * nat)) : list (string * nat) :=
  match entries with
  | [] => fieldMap
  | (name, _) :: entries' => index_map entries' (S k) (assoc_set fieldMap name k)
  end.

(** The accesses of the functions that [V1.build] compiles: those of the
    bound entries, under the identifiers their names are read as. *)
Definition rekey (x : string) (a : Access) : Access :=
  mkAccess x (type a) (at_offset a) (isLittleEndian a).

(** The accesses that the text of the entries compiles to, when every
    name is read as an identifier and [__proto__] is not defined twice. *)
Fixpoint accesses (bound : list (string * Access)) : option (list Access) :=
  match bound with
  | [] => Some []
  | (name, a) :: bound' =>
      match identifier_of name, accesses bound' with
      | Some x, Some ps => Some (rekey x a :: ps)
      | _, _ => None
      end
  end.

Definition compile (bound : list (string * Access)) : option (list Access) :=
  match accesses bound with
  | Some ps => if proto_once ps then Some ps else None
  | None => None
  end.

(** The bound entries with the tokens of their names. *)
Fixpoint lexed (bound : list (string * Access)) : option (list (list token * Access)) :=
  match bound with
  | [] => Some []
  | (name, a) :: bound' =>
      match tokenize name, lexed bound' with
      | Some tn, Some E => Some ((tn, a) :: E)
      | _, _ => None
      end
  end.

(** Token lists joined as [Array.prototype.join] joins the entries. *)
Fixpoint ojoin (sep : list token) (l : list (option (list token))) : option (list token) :=
  match l with
  | [] => Some []
  | [x] => x
  | x :: l' => oapp x (oapp (Some sep) (ojoin sep l'))
  end.

(** The tokens of the entries of the reader and of the writer, a name
    being given by its tokens. *)
Fixpoint reader_tokens (le : bool) (E : list (list token * Access)) : list token :=
  match E with
  | [] => []
  | [(tn, a)] => tn ++ getter_tokens le a
  | (tn, a) :: E' => tn ++ getter_tokens le a ++ [TPunct ","] ++ reader_tokens le E'
  end.

Fixpoint writer_tokens (le : bool) (E : list (list token * Access)) : list token :=
  match E with
  | [] => []
  | (tn, a) :: E' => setter_head a ++ tn ++ setter_tail le ++ writer_tokens le E'
  end.

Definition single (tn : list token) : option string :=
  match tn with
  | [TIdent x] => Some x
  | _ => None
  end.

Fixpoint singles (E : list (list token * Access)) : option (list Access) :=
  match E with
  | [] => Some []
  | (tn, a) :: E' =>
      match single tn, singles E' with
      | Some x, Some ps => Some (rekey x a :: ps)
      | _, _ => None
      end
  end.

(** The constant text of the two templates. *)
Definition read_head : string :=
  (nl ++ V1.spaces 6
      ++ "const view = buffer instanceof DataView ? buffer : new DataView(buffer);"
      ++ nl ++ V1.spaces 6 ++ "return {" ++ nl ++ V1.spaces 8)%string.

Definition read_foot : string := (nl ++ V1.spaces 6 ++ "};" ++ nl ++ V1.spaces 4)%string.

Definition write_head : string :=
  (nl ++ V1.spaces 6 ++ "const view = buffer instanceof DataView ? buffer :"
      ++ nl ++ V1.spaces 19 ++ "buffer instanceof ArrayBuffer ? new DataView(buffer) :"
      ++ nl ++ V1.spaces 19 ++ "new DataView(new ArrayBuffer(")%string.

Definition write_neck : string := ("));" ++ nl ++ V1.spaces 6)%string.

Definition write_foot : string :=
  (nl ++ V1.spaces 6 ++ "return view.buffer;" ++ nl ++ V1.spaces 4)%string.

(** Their tokens. *)
Definition reader_head : list token := view_of_buffer ++ [TIdent "return"; TPunct "{"].

Definition reader_foot : list token := [TPunct "}"; TPunct ";"].

Definition writer_head (n : nat) : list token :=
  view_of_target ++ [TNum n; TPunct ")"; TPunct ")"; TPunct ";"].

(** What [parse_object] does once the head is consumed. *)
Definition reader_tail (ts : list token) : option (list Access) :=
  match ts with
  | TPunct c :: rest =>
      if punct c "}" then
        match rest with
        | [TPunct c'] => if punct c' ";" then Some [] else None
        | _ => None
        end
      else None
  | ts' =>
      match parse_props ts' with
      | Some (ps, [TPunct c1; TPunct c2]) =>
          if punct c1 "}" && punct c2 ";" then Some ps else None
      | _ => None
      end
  end.

(** Every access of the entries has the byte order [le]. *)
Definition uniform (le : bool) (E : list (list token * Access)) : Prop :=
  Forall (fun e => isLittleEndian (snd e) = le) E.

(** The writer is stopped at a statement it cannot read. *)
Definition stuck (ts : list token) : Prop :=
  exists l, snd (parse_stmts ts) = TIdent "view" :: l.

Fixpoint all_digits (s : string) : bool :=
  match s with
  | EmptyString => true
  | String c s' => is_digit c && all_digits s'
  end.

End Template.

(** Distinct names, decided. *)
Fixpoint distinct (names : list string) : bool :=
  match names with
  | [] => true
  | name :: names' => negb (existsb (String.eqb name) names') && distinct names'
  end.

(** The record of the benchmark without its property [type]. *)
Definition data_without_type : object :=
  [("id", Number_of_Z 1234); ("x", Finite false 3 (-1)); ("y", Finite false 5 (-1));
   ("z", Finite false 7 (-1)); ("flags", Number_of_Z 43690);
   ("reserved", Number_of_Z 0)]%string.

(** The twenty bytes that the struct of the benchmark writes for [data]. *)
Definition data_bytes : ArrayBuffer :=
  [xd2; x04; x00; x00; x00; x00; xc0; x3f; x00; x00; x20; x40; x00; x00; x60; x40;
   xaa; xaa; xff; x00].

(** ** Views, ranges and names, for the statements on targets and on names *)

(** The window of the view of a buffer argument lies within the array
    buffer, which the constructor of [DataView] ensures. *)
Definition view_fits (b : BufferArg) : bool :=
  (byteOffset (view_of b) + byteLength (view_of b) <=? length (underlying b))%nat.

(** Byte ranges, each given by its offset and its size of at least one
    byte, that tile the bytes from [start] to [size]: each range starts
    where the one before it ends. *)
Fixpoint packed (ranges : list (nat * nat)) (start size : nat) : bool :=
  match ranges with
  | [] => (start =? size)%nat
  | (o, w) :: ranges' => (o =? start)%nat && (0 <? w)%nat && packed ranges' (start + w) size
  end.

(** The names of [entries] are read as the identifiers of [entries'],
    the types being the same. *)
Definition read_as (entries entries' : list (string * FieldType)) : Prop :=
  Forall2 (fun e e' => Template.identifier_of (fst e) = Some (fst e') /\ snd e = snd e')
          entries entries'.

(** The accesses that [V1.build] compiles for identifier names: for
    each name of [fieldMap], the field bound to it. *)
Definition bound_accesses (le : bool) (entries : list (string * FieldType))
  : list FunctionConstructor.Access :=
  map (fun na => Template.rekey (fst na) (snd na))
      (Template.bind_entries (layout le entries 0) (Template.index_map entries 0 [])).

(** The value that an access reads from a buffer through a view. *)
Definition value_at (view : DataView) (ab : ArrayBuffer) (a : FunctionConstructor.Access)
  : number :=
  loaded a (slice ab (byteOffset view + FunctionConstructor.at_offset a)
                  (width (FunctionConstructor.type a))).

(** The own properties that an object literal creates for a list of
    definitions with distinct names. *)
(** The bytes that a setter stores for NaN, which is what a value that
    is not a number converts to: zeros in an integer field, the word
    [0x7fc00000] in a float32 field. *)
Definition NaN_bytes (littleEndian : bool) (type : FieldType) : list byte :=
  match type with
  | float32 => if littleEndian then [x00; x00; xc0; x7f] else [x7f; xc0; x00; x00]
  | _ => repeat x00 (width type)
  end.

Definition own (kvs : list (string * number)) : object :=
  filter (fun kv => negb (String.eqb (fst kv) "__proto__")) kvs.

(** * Properties *)

(** ** Bytes *)

Section Bytes.

Lemma Z_of_byte_of_Z (z : Z) : Z_of_byte (byte_of_Z z) = z mod 256.
Proof.
  unfold Z_of_byte, byte_of_Z.
  assert (Hr : 0 <= z mod 256 < 256) by (apply Z.mod_pos_bound; lia).
  destruct (Byte.of_N (Z.to_N (z mod 256))) as [b|] eqn:E.
  - apply Byte.to_of_N in E. rewrite E. lia.
  - apply Byte.of_N_None_iff in E. lia.
Qed.

Lemma Z_of_byte_range (b : byte) : 0 <= Z_of_byte b < 256.
Proof.
  unfold Z_of_byte. pose proof (Byte.to_N_bounded b). lia.
Qed.

Lemma length_NumericToRawBytes (w : nat) (z : Z) : length (NumericToRawBytes w z) = w.
Proof.
  revert z. induction w as [|w IH]; intros z; simpl; [reflexivity|].
  now rewrite IH.
Qed.

Lemma RawBytes_roundtrip (w : nat) (z : Z) :
  RawBytesToNumeric (NumericToRawBytes w z) = z mod 256 ^ Z.of_nat w.
Proof.
  revert z. induction w as [|w IH]; intros z.
  - simpl. now rewrite Z.mod_1_r.
  - cbn [NumericToRawBytes RawBytesToNumeric].
    rewrite Z_of_byte_of_Z, IH, Nat2Z.inj_succ, Z.pow_succ_r by lia.
    rewrite Z.rem_mul_r by lia. reflexivity.
Qed.

Lemma RawBytes_exact (w : nat) (z : Z) :
  0 <= z < 256 ^ Z.of_nat w -> RawBytesToNumeric (NumericToRawBytes w z) = z.
Proof.
  intros H. rewrite RawBytes_roundtrip. now apply Z.mod_small.
Qed.

End Bytes.

(** ** Numbers *)

Section Numbers.

Lemma strip_odd (m : positive) (e : Z) :
  Z.odd (Zpos m) = true -> strip m e = (m, e).
Proof.
  destruct m; simpl; [reflexivity|discriminate|reflexivity].
Qed.

Lemma strip_value (m : positive) (e : Z) :
  e <= snd (strip m e) /\
  Zpos m = Zpos (fst (strip m e)) * 2 ^ (snd (strip m e) - e).
Proof.
  revert e. induction m as [m IH|m IH|]; intros e; cbn [strip fst snd].
  - rewrite Z.sub_diag, Z.pow_0_r. split; lia.
  - destruct (IH (e + 1)) as [Hle Hv]. split; [lia|].
    replace (snd (strip m (e + 1)) - e) with (Z.succ (snd (strip m (e + 1)) - (e + 1))) by lia.
    rewrite Z.pow_succ_r by lia.
    rewrite Pos2Z.inj_xO. rewrite Hv at 1. ring.
  - rewrite Z.sub_diag, Z.pow_0_r. split; lia.
Qed.

Lemma dyadic_shift (neg : bool) (m : positive) (e k : Z) :
  Z.odd (Zpos m) = true -> 0 <= k ->
  dyadic neg (Zpos m * 2 ^ k) (e - k) = Finite neg m e.
Proof.
  intros Hodd Hk. revert e. pattern k. apply natlike_ind; [| |exact Hk].
  - intros e. rewrite Z.pow_0_r, Z.mul_1_r, Z.sub_0_r. simpl.
    now rewrite strip_odd.
  - intros x Hx IH e. rewrite Z.pow_succ_r by lia.
    specialize (IH e).
    assert (Hpos : 0 < Zpos m * 2 ^ x) by (apply Z.mul_pos_pos; [lia|apply Z.pow_pos_nonneg; lia]).
    replace (Zpos m * (2 * 2 ^ x)) with (2 * (Zpos m * 2 ^ x)) by ring.
    destruct (Zpos m * 2 ^ x) as [|p|p] eqn:Ep; try lia.
    change (2 * Zpos p) with (Zpos (xO p)).
    unfold dyadic in *. cbn [strip].
    replace (e - Z.succ x + 1) with (e - x) by lia. exact IH.
Qed.

(** An integer within the range of an unsigned field is stored as it is. *)
Lemma ToUint_Number_of_Z (bits z : Z) :
  0 <= z < 2 ^ bits -> ToUint bits (Number_of_Z z) = z.
Proof.
  intros Hz. destruct z as [|p|p]; [reflexivity| |lia].
  unfold Number_of_Z, dyadic.
  destruct (strip_value p 0) as [Hle Hv].
  destruct (strip p 0) as [m e] eqn:Es. cbn [fst snd] in *.
  unfold ToUint, truncate.
  destruct (0 <=? e) eqn:He; [|apply Z.leb_gt in He; lia].
  rewrite Z.sub_0_r in Hv. rewrite <- Hv. now apply Z.mod_small.
Qed.

Lemma digits_spec (m : positive) :
  2 ^ (digits m - 1) <= Zpos m < 2 ^ digits m /\ 1 <= digits m.
Proof.
  unfold digits. pose proof (Z.log2_spec (Zpos m) ltac:(lia)) as H.
  pose proof (Z.log2_nonneg (Zpos m)).
  replace (Z.log2 (Zpos m) + 1 - 1) with (Z.log2 (Zpos m)) by lia.
  replace (Z.log2 (Zpos m) + 1) with (Z.succ (Z.log2 (Zpos m))) by lia.
  split; [exact H|lia].
Qed.

(** Rounding to float32 on examples, each compared with the rounding of
    the Standard Library: one tenth, a tie that goes to the even
    neighbour, the overflow to infinity, the largest float32, a
    subnormal result, and the underflow to zero. *)
Example round_float32_examples :
  let std m e := of_spec_float (SpecFloat.binary_normalize 24 128 m e false) in
  ToFloat32 (Finite false 3602879701896397 (-55)) = Finite false 13421773 (-27)
  /\ std 3602879701896397 (-55) = Finite false 13421773 (-27)
  /\ ToFloat32 (Finite false 16777217 0) = Finite false 1 24
  /\ std 16777217 0 = Finite false 1 24
  /\ ToFloat32 (Finite false 16777219 0) = Finite false 4194305 2
  /\ std 16777219 0 = Finite false 4194305 2
  /\ ToFloat32 (Finite false 33554431 103) = Infinity false
  /\ std 33554431 103 = Infinity false
  /\ ToFloat32 (Finite false 16777215 104) = Finite false 16777215 104
  /\ std 16777215 104 = Finite false 16777215 104
  /\ ToFloat32 (Finite false 5 (-151)) = Finite false 1 (-149)
  /\ std 5 (-151) = Finite false 1 (-149)
  /\ ToFloat32 (Finite false 1 (-150)) = Zero false
  /\ std 1 (-150) = Zero false.
Proof.
  cbn zeta. repeat split; vm_compute; reflexivity.
Qed.

(** The float32 values are doubles: what [getFloat32] returns is exact. *)
Lemma float32_is_double (v : number) : is_float32 v -> is_double v.
Proof.
  destruct v as [|neg|neg|neg m e]; try easy.
  unfold is_float32, is_double. intros (Ho & Hd & He & Hm).
  repeat split; [exact Ho|lia|lia|lia].
Qed.

(** A float32 value is converted to itself. *)
Lemma ToFloat32_exact (v : number) : is_float32 v -> ToFloat32 v = v.
Proof.
  destruct v as [|neg|neg|neg m e]; try reflexivity.
  intros (Hodd & Hd & He & Hmax). unfold ToFloat32, round_float32, overflows.
  destruct (Z.max (e + digits m - 24) (-149) <=? e) eqn:Hq; [|apply Z.leb_gt in Hq; lia].
  destruct (128 <? e + digits m) eqn:Ho; [apply Z.ltb_lt in Ho; lia|reflexivity].
Qed.

(** The three fields of a binary32 word are read back from their sum. *)
Lemma bits_fields (s : bool) (E F : Z) :
  0 <= E < 2 ^ 8 -> 0 <= F < 2 ^ 23 ->
  let z := sign_bit s + E * 2 ^ 23 + F in
  Z.testbit z 31 = s /\ (z / 2 ^ 23) mod 2 ^ 8 = E /\ z mod 2 ^ 23 = F /\ 0 <= z < 2 ^ 32.
Proof.
  intros HE HF z.
  assert (Hb : Z.b2z (Z.testbit z 31) = (z / 2 ^ 31) mod 2) by (apply Z.testbit_spec'; lia).
  subst z. unfold sign_bit in *.
  change (2 ^ 8) with 256 in *. change (2 ^ 23) with 8388608 in *.
  change (2 ^ 31) with 2147483648 in *. change (2 ^ 32) with 4294967296 in *.
  destruct s; (split; [destruct (Z.testbit _ 31); cbn [Z.b2z] in Hb; try reflexivity; exfalso|]);
    Z.div_mod_to_equations; lia.
Qed.

(** Encoding a float32 value and decoding the word gives the value back. *)
Lemma float32_bits_spec (v : number) :
  is_float32 v ->
  float32_of_bits (float32_bits v) = v /\ 0 <= float32_bits v < 2 ^ 32.
Proof.
  destruct v as [|neg|neg|neg m e].
  - intros _. split; [reflexivity|]. cbn. lia.
  - intros _. destruct neg; split; try reflexivity; cbn; lia.
  - intros _. destruct neg; split; try reflexivity; cbn; lia.
  - intros (Hodd & Hd & He & Hmax).
    destruct (digits_spec m) as [[Hlo Hhi] Hd1].
    unfold float32_bits.
    destruct (-126 <=? e + digits m - 1) eqn:Hn.
    + apply Z.leb_le in Hn.
      set (F := Zpos m * 2 ^ (24 - digits m) - 2 ^ 23).
      set (E := e + digits m - 1 + 127).
      assert (HF : 0 <= F < 2 ^ 23).
      { subst F.
        assert (2 ^ 23 = 2 ^ (digits m - 1) * 2 ^ (24 - digits m)) as H23
          by (rewrite <- Z.pow_add_r by lia; f_equal; lia).
        assert (2 ^ 24 = 2 ^ digits m * 2 ^ (24 - digits m)) as H24
          by (rewrite <- Z.pow_add_r by lia; f_equal; lia).
        assert (0 < 2 ^ (24 - digits m)) by (apply Z.pow_pos_nonneg; lia).
        change (2 ^ 24) with (2 * 2 ^ 23) in H24. nia. }
      assert (HE : 0 <= E < 2 ^ 8) by (subst E; change (2 ^ 8) with 256; lia).
      destruct (bits_fields neg E F HE HF) as (Hs & Hex & Hfr & Hr).
      split; [|exact Hr].
      unfold float32_of_bits. rewrite Hs, Hex, Hfr.
      destruct (E =? 255) eqn:E255; [apply Z.eqb_eq in E255; subst E; lia|].
      destruct (E =? 0) eqn:E0; [apply Z.eqb_eq in E0; subst E; lia|].
      subst F E.
      replace (2 ^ 23 + (Zpos m * 2 ^ (24 - digits m) - 2 ^ 23)) with (Zpos m * 2 ^ (24 - digits m)) by lia.
      replace (e + digits m - 1 + 127 - 150) with (e - (24 - digits m)) by lia.
      apply dyadic_shift; [exact Hodd|lia].
    + apply Z.leb_gt in Hn.
      set (F := Zpos m * 2 ^ (e + 149)).
      assert (HF : 0 < F < 2 ^ 23).
      { subst F. split; [apply Z.mul_pos_pos; [lia|apply Z.pow_pos_nonneg; lia]|].
        apply Z.lt_le_trans with (2 ^ digits m * 2 ^ (e + 149)).
        - apply Z.mul_lt_mono_pos_r; [apply Z.pow_pos_nonneg; lia|exact Hhi].
        - rewrite <- Z.pow_add_r by lia. apply Z.pow_le_mono_r; lia. }
      destruct (bits_fields neg 0 F ltac:(cbn; lia) ltac:(lia)) as (Hs & Hex & Hfr & Hr).
      rewrite Z.mul_0_l, Z.add_0_r in *.
      split; [|exact Hr].
      unfold float32_of_bits. rewrite Hs, Hex, Hfr. cbn [Z.eqb].
      subst F. replace (-149) with (e - (e + 149)) by lia.
      apply dyadic_shift; [exact Hodd|lia].
Qed.

End Numbers.

(** ** Accesses through a view *)

Section Views.

Import FunctionConstructor.

Lemma nth_error_slice (ab : ArrayBuffer) (pos w i : nat) :
  nth_error (slice ab pos w) i = if (i <? w)%nat then nth_error ab (pos + i) else None.
Proof.
  unfold slice. rewrite nth_error_firstn, nth_error_skipn. reflexivity.
Qed.

Lemma nth_error_splice (ab : ArrayBuffer) (pos : nat) (bs : list byte) (i : nat) :
  (pos + length bs <= length ab)%nat ->
  nth_error (splice ab pos bs) i =
  if ((pos <=? i) && (i <? pos + length bs))%nat then nth_error bs (i - pos)
  else nth_error ab i.
Proof.
  intros Hfit. unfold splice.
  assert (Hl : length (firstn pos ab) = pos) by (rewrite length_firstn; lia).
  destruct (pos <=? i)%nat eqn:H1; cbn [andb].
  - apply Nat.leb_le in H1.
    rewrite nth_error_app2 by lia. rewrite Hl.
    destruct (i <? pos + length bs)%nat eqn:H2.
    + apply Nat.ltb_lt in H2. rewrite nth_error_app1 by lia. reflexivity.
    + apply Nat.ltb_ge in H2. rewrite nth_error_app2 by lia.
      rewrite nth_error_skipn. f_equal. lia.
  - apply Nat.leb_gt in H1. rewrite nth_error_app1 by lia.
    rewrite nth_error_firstn.
    destruct (i <? pos)%nat eqn:H2; [reflexivity|apply Nat.ltb_ge in H2; lia].
Qed.

Lemma length_splice (ab : ArrayBuffer) (pos : nat) (bs : list byte) :
  (pos + length bs <= length ab)%nat -> length (splice ab pos bs) = length ab.
Proof.
  intros Hfit. unfold splice.
  rewrite !length_app, length_firstn, length_skipn. lia.
Qed.

Lemma slice_splice_same (ab : ArrayBuffer) (pos : nat) (bs : list byte) :
  (pos + length bs <= length ab)%nat -> slice (splice ab pos bs) pos (length bs) = bs.
Proof.
  intros Hfit. apply nth_error_ext. intros i.
  rewrite nth_error_slice, nth_error_splice by exact Hfit.
  destruct (i <? length bs)%nat eqn:H1.
  - apply Nat.ltb_lt in H1.
    replace ((pos <=? pos + i) && (pos + i <? pos + length bs))%nat with true.
    + f_equal. lia.
    + symmetry. apply andb_true_iff. split; [apply Nat.leb_le|apply Nat.ltb_lt]; lia.
  - apply Nat.ltb_ge in H1. symmetry. apply nth_error_None. lia.
Qed.

Lemma slice_splice_other (ab : ArrayBuffer) (pos : nat) (bs : list byte) (pos' w : nat) :
  (pos + length bs <= length ab)%nat ->
  (pos' + w <= pos \/ pos + length bs <= pos')%nat ->
  slice (splice ab pos bs) pos' w = slice ab pos' w.
Proof.
  intros Hfit Hdis. apply nth_error_ext. intros i.
  rewrite !nth_error_slice, nth_error_splice by exact Hfit.
  destruct (i <? w)%nat eqn:H1; [|reflexivity].
  apply Nat.ltb_lt in H1.
  replace ((pos <=? pos' + i) && (pos' + i <? pos + length bs))%nat with false; [reflexivity|].
  symmetry. apply andb_false_iff.
  destruct Hdis; [left; apply Nat.leb_gt|right; apply Nat.ltb_ge]; lia.
Qed.

Lemma call_setter_eq (view : DataView) (a : Access) (v : value) (ab : ArrayBuffer) :
  call_setter view a v ab =
  if in_bounds view a
  then (Normal tt, splice ab (byteOffset view + at_offset a) (stored a v))
  else (Throw RangeError, ab).
Proof.
  destruct a as [k [] off le]; reflexivity.
Qed.

Lemma call_getter_eq (view : DataView) (a : Access) (ab : ArrayBuffer) :
  call_getter view a ab =
  if in_bounds view a
  then (Normal (loaded a (slice ab (byteOffset view + at_offset a) (width (type a)))), ab)
  else (Throw RangeError, ab).
Proof.
  destruct a as [k ty off le].
  unfold call_getter, in_bounds, loaded, slice; cbn [type at_offset isLittleEndian].
  destruct ty; cbn [width endian field_value];
    unfold getUint8, getUint16, getUint32, getFloat32, bind, ret, GetViewValue;
    match goal with |- context [(?a <=? ?b)%nat] => destruct (a <=? b)%nat end; reflexivity.
Qed.

Lemma length_stored (a : Access) (v : value) : length (stored a v) = width (type a).
Proof.
  unfold stored, endian.
  destruct (type a), (isLittleEndian a);
    rewrite ?length_rev, length_NumericToRawBytes; reflexivity.
Qed.

Lemma endian_involutive (ty : FieldType) (le : bool) (raw : list byte) :
  endian ty le (endian ty le raw) = raw.
Proof.
  destruct ty, le; cbn [endian]; rewrite ?rev_involutive; reflexivity.
Qed.

Lemma field_bits_range (ty : FieldType) (v : number) :
  exact ty v -> 0 <= field_bits ty (Num v) < 256 ^ Z.of_nat (width ty)
                /\ field_value ty (field_bits ty (Num v)) = v.
Proof.
  destruct ty; cbn [exact field_bits field_value width ToNumber].
  1-3: intros (z & Hz & ->); rewrite ToUint_Number_of_Z by exact Hz;
       split; [|reflexivity]; cbn in *; lia.
  intros Hf. rewrite ToFloat32_exact by exact Hf.
  destruct (float32_bits_spec v Hf) as [Hrt Hr]. split; [|exact Hrt].
  cbn in *. lia.
Qed.

(** What was stored for an exact value is loaded as that value. *)
Lemma loaded_stored (a : Access) (v : number) :
  exact (type a) v -> loaded a (stored a (Num v)) = v.
Proof.
  intros Hex. unfold loaded, stored. rewrite endian_involutive.
  destruct (field_bits_range _ _ Hex) as [Hr Hv].
  rewrite RawBytes_exact by exact Hr. exact Hv.
Qed.

End Views.

(** ** Readers and writers over a list of accesses *)

Section Accesses.

Import FunctionConstructor.

Variable view : DataView.

(** A reader leaves the buffer as it found it. *)
Lemma literal_frame (props : list Access) (o : object) (ab : ArrayBuffer) :
  snd (literal props view o ab) = ab.
Proof.
  revert o. induction props as [|p props IH]; intros o; [reflexivity|].
  cbn [literal]. unfold bind. rewrite call_getter_eq.
  destruct (in_bounds view p); [apply IH|reflexivity].
Qed.

Lemma literal_ok (props : list Access) (o : object) (ab : ArrayBuffer) :
  forallb (in_bounds view) props = true ->
  literal props view o ab = (Normal (read_all view ab props o), ab).
Proof.
  revert o. induction props as [|p props IH]; intros o H; [reflexivity|].
  cbn [forallb] in H. apply andb_true_iff in H as [Hp H].
  cbn [literal]. unfold bind. rewrite call_getter_eq, Hp. now apply IH.
Qed.

(** A load that does not fit the view makes the reader throw. *)
Lemma literal_out_of_bounds (props : list Access) (o : object) (ab : ArrayBuffer) :
  forallb (in_bounds view) props = false ->
  literal props view o ab = (Throw RangeError, ab).
Proof.
  revert o. induction props as [|p props IH]; intros o H; [discriminate|].
  cbn [forallb] in H. cbn [literal]. unfold bind. rewrite call_getter_eq.
  destruct (in_bounds view p); [apply IH; exact H|reflexivity].
Qed.

Lemma for_of_setters_ok (data : object) (stmts : list Access) (ab : ArrayBuffer) :
  forallb (in_bounds view) stmts = true ->
  for_of stmts (fun s => call_setter view s (Get data (key s))) ab
  = (Normal tt, write_all view data stmts ab).
Proof.
  revert ab. induction stmts as [|s stmts IH]; intros ab H; [reflexivity|].
  cbn [forallb] in H. apply andb_true_iff in H as [Hs H].
  cbn [for_of]. unfold bind. rewrite call_setter_eq, Hs. now apply IH.
Qed.

(** A writer only looks at the number each property of [data] converts to. *)
Lemma for_of_setters_ext (d1 d2 : object) (stmts : list Access) (ab : ArrayBuffer) :
  (forall k, ToNumber (Get d1 k) = ToNumber (Get d2 k)) ->
  for_of stmts (fun s => call_setter view s (Get d1 (key s))) ab
  = for_of stmts (fun s => call_setter view s (Get d2 (key s))) ab.
Proof.
  intros Hext. revert ab. induction stmts as [|s stmts IH]; intros ab; [reflexivity|].
  cbn [for_of]. unfold bind. rewrite !call_setter_eq.
  assert (Hst : stored s (Get d1 (key s)) = stored s (Get d2 (key s))).
  { unfold stored, field_bits. destruct (type s); now rewrite Hext. }
  rewrite Hst. destruct (in_bounds view s); [apply IH|reflexivity].
Qed.

End Accesses.

(** ** Layouts *)

Section Layouts.

Import FunctionConstructor.

Variable littleEndian : bool.

Lemma total_width_cons (n : string) (t : FieldType) (es : list (string * FieldType)) :
  total_width ((n, t) :: es) = (width t + total_width es)%nat.
Proof. reflexivity. Qed.

Lemma layout_app (es1 es2 : list (string * FieldType)) (start : nat) :
  layout littleEndian (es1 ++ es2) start
  = layout littleEndian es1 start
      ++ layout littleEndian es2 (start + total_width es1).
Proof.
  revert start. induction es1 as [|[n t] es1 IH]; intros start.
  - cbn. now rewrite Nat.add_0_r.
  - cbn [app layout]. rewrite IH.
    replace (start + width t + total_width es1)%nat
      with (start + total_width ((n, t) :: es1))%nat; [reflexivity|].
    rewrite total_width_cons. lia.
Qed.

Lemma total_width_app (es1 es2 : list (string * FieldType)) :
  total_width (es1 ++ es2) = (total_width es1 + total_width es2)%nat.
Proof.
  unfold total_width. now rewrite map_app, list_sum_app.
Qed.

Lemma layout_keys (es : list (string * FieldType)) (start : nat) :
  map key (layout littleEndian es start) = map fst es.
Proof.
  revert start. induction es as [|[n t] es IH]; intros start; [reflexivity|].
  cbn. now rewrite IH.
Qed.

Lemma layout_offsets (es : list (string * FieldType)) (start : nat) :
  map at_offset (layout littleEndian es start) = offsets es start.
Proof.
  revert start. induction es as [|[n t] es IH]; intros start; [reflexivity|].
  cbn. now rewrite IH.
Qed.

Lemma layout_types (es : list (string * FieldType)) (start : nat) :
  map type (layout littleEndian es start) = map snd es.
Proof.
  revert start. induction es as [|[n t] es IH]; intros start; [reflexivity|].
  cbn. now rewrite IH.
Qed.

(** Every access of a layout lies between its start and its end. *)
Lemma layout_range (es : list (string * FieldType)) (start : nat) (a : Access) :
  In a (layout littleEndian es start) ->
  (start <= at_offset a /\ at_offset a + width (type a) <= start + total_width es)%nat.
Proof.
  revert start. induction es as [|[n t] es IH]; intros start; [intros []|].
  cbn [layout]. rewrite total_width_cons. intros [<-|Hin].
  - cbn. lia.
  - apply IH in Hin. lia.
Qed.

Lemma layout_in_bounds (es : list (string * FieldType)) (start : nat) (view : DataView) :
  (start + total_width es <= byteLength view)%nat ->
  forallb (in_bounds view) (layout littleEndian es start) = true.
Proof.
  intros H. apply forallb_forall. intros a Ha.
  apply layout_range in Ha. unfold in_bounds. apply Nat.leb_le. lia.
Qed.

(** The last access of a non-empty layout ends where the layout ends, so a
    view shorter than the layout refuses one of its accesses. *)
Lemma layout_out_of_bounds (es : list (string * FieldType)) (start : nat) (view : DataView) :
  (byteLength view < start + total_width es)%nat ->
  es <> [] ->
  forallb (in_bounds view) (layout littleEndian es start) = false.
Proof.
  revert start. induction es as [|[n t] es IH]; intros start H Hne; [easy|].
  cbn [layout forallb]. rewrite total_width_cons in H.
  destruct es as [|e es'].
  - change (total_width []) with 0%nat in H. unfold in_bounds. cbn [at_offset type].
    replace (_ <=? _)%nat with false; [reflexivity|].
    symmetry. apply Nat.leb_gt. lia.
  - rewrite IH; [apply andb_false_r| |easy]. lia.
Qed.

Variable view : DataView.
Variable data : object.

Lemma write_all_cons (s : Access) (stmts : list Access) (ab : ArrayBuffer) :
  write_all view data (s :: stmts) ab
  = write_all view data stmts
      (splice ab (byteOffset view + at_offset s) (stored s (Get data (key s)))).
Proof. reflexivity. Qed.

Lemma write_all_length (stmts : list Access) (ab : ArrayBuffer) :
  (forall a, In a stmts ->
     (byteOffset view + at_offset a + width (type a) <= length ab)%nat) ->
  length (write_all view data stmts ab) = length ab.
Proof.
  revert ab. induction stmts as [|s stmts IH]; intros ab H; [reflexivity|].
  rewrite write_all_cons.
  assert (Hs : length (splice ab (byteOffset view + at_offset s) (stored s (Get data (key s))))
               = length ab).
  { apply length_splice. rewrite length_stored. specialize (H s (or_introl eq_refl)). lia. }
  rewrite IH; [exact Hs|].
  intros a Ha. rewrite Hs. apply H. now right.
Qed.

(** Stores leave alone the bytes that none of them covers. *)
Lemma write_all_frame (stmts : list Access) (ab : ArrayBuffer) (pos w : nat) :
  (forall a, In a stmts ->
     (byteOffset view + at_offset a + width (type a) <= length ab)%nat /\
     (pos + w <= byteOffset view + at_offset a \/
      byteOffset view + at_offset a + width (type a) <= pos)%nat) ->
  slice (write_all view data stmts ab) pos w = slice ab pos w.
Proof.
  revert ab. induction stmts as [|s stmts IH]; intros ab H; [reflexivity|].
  rewrite write_all_cons.
  destruct (H s (or_introl eq_refl)) as [Hfit Hdis].
  rewrite IH.
  - apply slice_splice_other; rewrite length_stored; lia.
  - intros a Ha. rewrite length_splice by (rewrite length_stored; lia).
    apply H. now right.
Qed.

(** After the stores of a layout, each field holds what was stored for it. *)
Lemma write_all_slice (es : list (string * FieldType)) (start : nat) (ab : ArrayBuffer)
    (a : Access) :
  (byteOffset view + start + total_width es <= length ab)%nat ->
  In a (layout littleEndian es start) ->
  slice (write_all view data (layout littleEndian es start) ab)
        (byteOffset view + at_offset a) (width (type a))
  = stored a (Get data (key a)).
Proof.
  revert start ab. induction es as [|[n t] es IH]; intros start ab Hfit; [intros []|].
  rewrite total_width_cons in Hfit.
  cbn [layout]. rewrite write_all_cons.
  pose proof (length_stored (mkAccess n t start littleEndian) (Get data n)) as Hl.
  cbn [type] in Hl.
  intros [<-|Hin]; cbn [at_offset type key] in *.
  - rewrite write_all_frame.
    + rewrite <- Hl. apply slice_splice_same. lia.
    + intros a Ha. apply layout_range in Ha.
      rewrite length_splice by lia. lia.
  - apply IH; [|exact Hin].
    rewrite length_splice by lia. lia.
Qed.

End Layouts.

(** ** Records *)

Section Records.

Import FunctionConstructor.

Lemma read_all_cons (view : DataView) (ab : ArrayBuffer) (p : Access)
    (props : list Access) (o : object) :
  read_all view ab (p :: props) o
  = read_all view ab props
      (Set_ o (key p) (loaded p (slice ab (byteOffset view + at_offset p) (width (type p))))).
Proof. reflexivity. Qed.

Lemma assoc_get_set_same {V} (l : list (string * V)) (k : string) (v : V) :
  assoc_get (assoc_set l k v) k = Some v.
Proof.
  induction l as [|[k' v'] l IH]; cbn.
  - now rewrite String.eqb_refl.
  - destruct (String.eqb k' k) eqn:E; cbn; rewrite E; [reflexivity|exact IH].
Qed.

Lemma assoc_get_set_other {V} (l : list (string * V)) (k k' : string) (v : V) :
  k <> k' -> assoc_get (assoc_set l k v) k' = assoc_get l k'.
Proof.
  intros Hne. induction l as [|[k0 v0] l IH]; cbn.
  - destruct (String.eqb k k') eqn:E; [apply String.eqb_eq in E; contradiction|reflexivity].
  - destruct (String.eqb k0 k) eqn:E; cbn.
    + apply String.eqb_eq in E. subst k0.
      destruct (String.eqb k k') eqn:E'; [apply String.eqb_eq in E'; contradiction|reflexivity].
    + destruct (String.eqb k0 k'); [reflexivity|exact IH].
Qed.

Lemma Get_Set_same (o : object) (k : string) (v : number) :
  k <> "__proto__"%string -> Get (Set_ o k v) k = Num v.
Proof.
  intros Hk. unfold Get, Set_.
  destruct (String.eqb k "__proto__") eqn:E; [apply String.eqb_eq in E; contradiction|].
  now rewrite assoc_get_set_same.
Qed.

Lemma Get_Set_other (o : object) (k k' : string) (v : number) :
  k <> k' -> Get (Set_ o k v) k' = Get o k'.
Proof.
  intros Hk. unfold Get, Set_.
  destruct (String.eqb k "__proto__"); [reflexivity|].
  now rewrite assoc_get_set_other.
Qed.

(** A reader leaves alone the properties that it does not define. *)
Lemma read_all_other (view : DataView) (ab : ArrayBuffer) (props : list Access)
    (o : object) (k : string) :
  ~ In k (map key props) -> Get (read_all view ab props o) k = Get o k.
Proof.
  revert o. induction props as [|p props IH]; intros o Hk; [reflexivity|].
  rewrite read_all_cons, IH by (intros H; apply Hk; now right).
  apply Get_Set_other. intros E. apply Hk. now left.
Qed.

(** With distinct keys, the object built by a reader holds under each key
    what the access of that key loaded. *)
Lemma read_all_get (view : DataView) (ab : ArrayBuffer) (props : list Access)
    (o : object) (a : Access) :
  NoDup (map key props) -> In a props -> key a <> "__proto__"%string ->
  Get (read_all view ab props o) (key a)
  = Num (loaded a (slice ab (byteOffset view + at_offset a) (width (type a)))).
Proof.
  revert o. induction props as [|p props IH]; intros o Hnd; [intros []|].
  cbn [map] in Hnd. apply NoDup_cons_iff in Hnd as [Hnotin Hnd].
  rewrite read_all_cons. intros [<-|Hin] Hk.
  - rewrite read_all_other by exact Hnotin. now apply Get_Set_same.
  - now apply IH.
Qed.

Lemma assoc_get_Permutation {V} (d1 d2 : list (string * V)) (k : string) :
  Permutation d1 d2 -> NoDup (map fst d1) -> assoc_get d1 k = assoc_get d2 k.
Proof.
  intros HP.
  induction HP as [|[k0 v0] l l' HP IH|[k0 v0] [k1 v1] l|l l' l'' HP1 IH1 HP2 IH2]; intros Hnd.
  - reflexivity.
  - cbn. cbn [map fst] in Hnd. apply NoDup_cons_iff in Hnd as [_ Hnd].
    destruct (String.eqb k0 k); [reflexivity|now apply IH].
  - cbn. cbn [map fst] in Hnd. apply NoDup_cons_iff in Hnd as [Hn _].
    destruct (String.eqb k1 k) eqn:E1, (String.eqb k0 k) eqn:E0; try reflexivity.
    apply String.eqb_eq in E1, E0. subst. exfalso. apply Hn. now left.
  - rewrite IH1 by exact Hnd. apply IH2.
    apply (Permutation_NoDup (l := map fst l)); [now apply Permutation_map|exact Hnd].
Qed.

(** A record is read by name: the order of its entries does not matter. *)
Lemma Get_Permutation (d1 d2 : object) (k : string) :
  Permutation d1 d2 -> NoDup (map fst d1) -> Get d1 k = Get d2 k.
Proof.
  intros HP Hnd. unfold Get. now rewrite (assoc_get_Permutation d1 d2 k HP Hnd).
Qed.

End Records.

(** ** The store of version 2 *)

Section Store.

Import FunctionConstructor.

Lemma length_push (st : V2.Store) (l : V2.loc) (x : V2.Field) :
  length (V2.push st l x) = length st.
Proof.
  revert l. induction st as [|a st IH]; intros [|l]; cbn; try reflexivity.
  now rewrite IH.
Qed.

Lemma deref_push_same (st : V2.Store) (l : V2.loc) (x : V2.Field) :
  (l < length st)%nat -> V2.deref (V2.push st l x) l = V2.deref st l ++ [x].
Proof.
  revert l. induction st as [|a st IH]; intros [|l] H; cbn in *; try lia; [reflexivity|].
  apply IH. lia.
Qed.

Lemma deref_push_other (st : V2.Store) (l l' : V2.loc) (x : V2.Field) :
  l <> l' -> V2.deref (V2.push st l x) l' = V2.deref st l'.
Proof.
  revert l l'. induction st as [|a st IH]; intros [|l] [|l'] H; cbn; try reflexivity; try lia.
  apply IH. lia.
Qed.

(** [addField] pushes the field of one access and moves [size] past it. *)
Lemma V2_addField_eq (b : V2.BinaryStructBuilderV2) (name : string) (ty : FieldType)
    (st : V2.Store) :
  V2.addField b name ty st
  = (V2.mkBuilder (V2.this_size b + width ty) (V2.this_fields b) (V2.this_littleEndian b),
     V2.push st (V2.this_fields b)
             (field_of (mkAccess name ty (V2.this_size b) (V2.this_littleEndian b)))).
Proof.
  destruct ty; reflexivity.
Qed.

Lemma V2_reduce_builder (es : list (string * FieldType)) (b : V2.BinaryStructBuilderV2)
    (st : V2.Store) :
  fst (V2.reduce es b st)
  = V2.mkBuilder (V2.this_size b + total_width es) (V2.this_fields b) (V2.this_littleEndian b).
Proof.
  revert b st. induction es as [|[n t] es IH]; intros b st.
  - cbn. change (total_width []) with 0%nat. rewrite Nat.add_0_r. now destruct b.
  - cbn [V2.reduce]. rewrite V2_addField_eq, IH, total_width_cons.
    cbn [V2.this_size V2.this_fields V2.this_littleEndian]. f_equal. lia.
Qed.

Lemma V2_reduce_length (es : list (string * FieldType)) (b : V2.BinaryStructBuilderV2)
    (st : V2.Store) :
  length (snd (V2.reduce es b st)) = length st.
Proof.
  revert b st. induction es as [|[n t] es IH]; intros b st; [reflexivity|].
  cbn [V2.reduce]. rewrite V2_addField_eq, IH. apply length_push.
Qed.

(** A chain of [addField] appends the fields of a layout to the array of
    the builder, and touches no other array. *)
Lemma V2_reduce_fields (es : list (string * FieldType)) (b : V2.BinaryStructBuilderV2)
    (st : V2.Store) :
  (V2.this_fields b < length st)%nat ->
  V2.deref (snd (V2.reduce es b st)) (V2.this_fields b)
  = V2.deref st (V2.this_fields b)
      ++ map field_of (layout (V2.this_littleEndian b) es (V2.this_size b)).
Proof.
  revert b st. induction es as [|[n t] es IH]; intros b st H.
  - cbn. now rewrite app_nil_r.
  - cbn [V2.reduce]. rewrite V2_addField_eq.
    match goal with |- context [V2.reduce es ?b' ?st'] => specialize (IH b' st') end.
    cbn [V2.this_fields V2.this_size V2.this_littleEndian] in IH.
    rewrite IH by (rewrite length_push; exact H).
    rewrite deref_push_same by exact H. rewrite <- app_assoc. reflexivity.
Qed.

Lemma V2_reduce_others (es : list (string * FieldType)) (b : V2.BinaryStructBuilderV2)
    (st : V2.Store) (l : V2.loc) :
  l <> V2.this_fields b ->
  V2.deref (snd (V2.reduce es b st)) l = V2.deref st l.
Proof.
  revert b st. induction es as [|[n t] es IH]; intros b st H; [reflexivity|].
  cbn [V2.reduce]. rewrite V2_addField_eq.
  rewrite IH by exact H. apply deref_push_other. congruence.
Qed.

Lemma V2_new_fields (le : option bool) (st0 : V2.Store) :
  V2.deref (snd (V2.new le st0)) (V2.this_fields (fst (V2.new le st0))) = []
  /\ (V2.this_fields (fst (V2.new le st0)) < length (snd (V2.new le st0)))%nat.
Proof.
  cbn. split.
  - unfold V2.deref. rewrite app_nth2 by lia. now rewrite Nat.sub_diag.
  - rewrite length_app. cbn. lia.
Qed.

(** The loops of the struct of version 2 are the reader and the writer
    of the accesses that its fields stand for. *)
Lemma V2_read_loop_eq (accs : list Access) (view : DataView) (o : object) (ab : ArrayBuffer) :
  V2.read_loop (map field_of accs) view o ab = literal accs view o ab.
Proof.
  revert o ab. induction accs as [|a accs IH]; intros o ab; [reflexivity|].
  cbn [map V2.read_loop literal]. unfold bind. cbn [V2.read V2.name field_of].
  destruct (call_getter view a ab) as [[v|e] ab']; [apply IH|reflexivity].
Qed.

Lemma V2_for_of_eq (accs : list Access) (view : DataView) (data : object) (ab : ArrayBuffer) :
  for_of (map field_of accs) (fun field => V2.write field view (Get data (V2.name field))) ab
  = for_of accs (fun s => call_setter view s (Get data (key s))) ab.
Proof.
  revert ab. induction accs as [|a accs IH]; intros ab; [reflexivity|].
  cbn [map for_of]. unfold bind. cbn [V2.write V2.name field_of].
  destruct (call_setter view a (Get data (key a)) ab) as [[v|e] ab']; [apply IH|reflexivity].
Qed.

Lemma V2_struct_read_eq (b : V2.BinaryStructBuilderV2) (st : V2.Store)
    (accs : list Access) (buffer : BufferArg) :
  V2.deref st (V2.this_fields b) = map field_of accs ->
  V2.struct_read (V2.build b) st buffer = run_reader accs buffer.
Proof.
  intros H. cbn. rewrite H. apply V2_read_loop_eq.
Qed.

Lemma V2_struct_write_eq (b : V2.BinaryStructBuilderV2) (st : V2.Store)
    (accs : list Access) (data : object) (buffer : option BufferArg) :
  V2.deref st (V2.this_fields b) = map field_of accs ->
  V2.struct_write (V2.build b) st data buffer = run_writer (V2.this_size b) accs data buffer.
Proof.
  intros H. cbn. rewrite H. unfold run_writer.
  destruct buffer as [[ab|view ab]|]; unfold bind; rewrite V2_for_of_eq; reflexivity.
Qed.

End Store.

(** ** Lexing *)

Section Lexing.

Import FunctionConstructor Template.

Lemma oapp_nil_l {A} (x : option (list A)) : oapp (Some []) x = x.
Proof. now destruct x. Qed.

Lemma oapp_nil_r {A} (x : option (list A)) : oapp x (Some []) = x.
Proof. destruct x; cbn; [now rewrite List.app_nil_r|reflexivity]. Qed.

Lemma oapp_assoc {A} (x y z : option (list A)) :
  oapp (oapp x y) z = oapp x (oapp y z).
Proof. destruct x, y, z; cbn; try reflexivity. now rewrite <- app_assoc. Qed.

Lemma oapp_Some {A} (x y : list A) : oapp (Some x) (Some y) = Some (x ++ y).
Proof. reflexivity. Qed.

Ltac by_cases c := destruct c as [[] [] [] [] [] [] [] []]; try discriminate; try reflexivity.

Lemma ident_start_class (c : ascii) :
  is_ident_start c = true -> is_space c = false /\ is_punct c = false.
Proof.
  intros H. split; revert H; by_cases c.
Qed.

Lemma digit_class (c : ascii) :
  is_digit c = true -> is_space c = false /\ is_punct c = false /\ is_ident_start c = false.
Proof.
  intros H. repeat split; revert H; by_cases c.
Qed.

(** A token ends at a space or a punctuator: what precedes one is lexed
    on its own. *)
Lemma lex_app_sep (p : pending) (s1 : string) (c : ascii) (s2 : string) :
  is_sep c = true ->
  lex p (s1 ++ String c s2) = oapp (lex p s1) (lex PNone (String c s2)).
Proof.
  intros Hc. revert p. induction s1 as [|a s1 IH]; intros p.
  - cbn [append lex]. unfold is_sep in Hc.
    destruct (is_space c).
    + cbn [flush]. now rewrite oapp_nil_l.
    + cbn [orb] in Hc. rewrite Hc. cbn [flush]. now rewrite oapp_nil_l.
  - cbn [append lex].
    destruct (is_space a); [rewrite IH; now rewrite oapp_assoc|].
    destruct (is_punct a); [rewrite IH; now rewrite !oapp_assoc|].
    destruct (is_ident_start a); [destruct p; try apply IH; reflexivity|].
    destruct (is_digit a); [destruct p; apply IH|reflexivity].
Qed.

Lemma lex_last_sep (p : pending) (s : string) :
  last_is_sep s = true -> forall s2, lex p (s ++ s2) = oapp (lex p s) (lex PNone s2).
Proof.
  revert p. induction s as [|a s IH]; intros p H s2; [discriminate|].
  destruct s as [|b s].
  - cbn [last_is_sep] in H. cbn [append lex]. unfold is_sep in H.
    destruct (is_space a).
    + cbn [flush]. now rewrite oapp_nil_r.
    + cbn [orb] in H. rewrite H. cbn [flush]. now rewrite oapp_nil_r, oapp_assoc.
  - assert (H' : last_is_sep (String b s) = true) by exact H.
    change (String a (String b s) ++ s2)%string with (String a (String b s ++ s2)).
    cbn [lex].
    destruct (is_space a); [rewrite IH by exact H'; now rewrite oapp_assoc|].
    destruct (is_punct a); [rewrite IH by exact H'; now rewrite !oapp_assoc|].
    destruct (is_ident_start a); [destruct p; try apply IH; trivial|].
    destruct (is_digit a); [destruct p; apply IH; trivial|reflexivity].
Qed.

(** Two pieces of text are lexed apart when the first ends, or the
    second begins, with a space or a punctuator. *)
Lemma lex_app (p : pending) (s1 s2 : string) :
  last_is_sep s1 = true \/ first_is_sep s2 = true ->
  lex p (s1 ++ s2) = oapp (lex p s1) (lex PNone s2).
Proof.
  intros [H|H]; [now apply lex_last_sep|].
  destruct s2 as [|c s2]; [discriminate|]. now apply lex_app_sep.
Qed.


Lemma append_empty_r (s : string) : (s ++ EmptyString)%string = s.
Proof. induction s as [|c s IH]; cbn; [reflexivity|now rewrite IH]. Qed.

Lemma append_snoc (acc : string) (c : ascii) (s : string) :
  (snoc acc c ++ s)%string = (acc ++ String c s)%string.
Proof.
  unfold snoc. induction acc as [|a acc IH]; cbn; [reflexivity|now rewrite IH].
Qed.

Lemma lex_ident_part (acc s : string) :
  all_ident_part s = true -> lex (PIdent acc) s = Some [TIdent (acc ++ s)].
Proof.
  revert acc. induction s as [|c s IH]; intros acc H.
  - cbn. now rewrite append_empty_r.
  - cbn [all_ident_part] in H. apply andb_true_iff in H as [Hc H].
    cbn [lex]. unfold is_ident_part in Hc. apply orb_true_iff in Hc as [Hc|Hc].
    + destruct (ident_start_class c Hc) as [-> ->]. rewrite Hc.
      rewrite IH by exact H. now rewrite append_snoc.
    + destruct (digit_class c Hc) as (-> & -> & ->). rewrite Hc.
      rewrite IH by exact H. now rewrite append_snoc.
Qed.

(** An identifier name is lexed as one identifier, itself. *)
Lemma lex_identifier_name (s : string) :
  is_identifier_name s = true -> tokenize s = Some [TIdent s].
Proof.
  destruct s as [|c s]; [discriminate|]. cbn [is_identifier_name]. intros H.
  apply andb_true_iff in H as [Hc H]. unfold tokenize. cbn [lex].
  destruct (ident_start_class c Hc) as [-> ->]. rewrite Hc.
  now rewrite lex_ident_part.
Qed.

Lemma string_of_uint_digits (d : Decimal.uint) :
  all_digits (NilEmpty.string_of_uint d) = true.
Proof.
  induction d; cbn [NilEmpty.string_of_uint all_digits]; try rewrite IHd; reflexivity.
Qed.

Lemma lex_digits (acc s : string) :
  all_digits s = true -> lex (PNum acc) s = flush (PNum (acc ++ s)).
Proof.
  revert acc. induction s as [|c s IH]; intros acc H.
  - cbn [lex]. now rewrite append_empty_r.
  - cbn [all_digits] in H. apply andb_true_iff in H as [Hc H].
    cbn [lex]. destruct (digit_class c Hc) as (-> & -> & ->). rewrite Hc.
    rewrite IH by exact H. now rewrite append_snoc.
Qed.

Lemma lex_digit_string (s : string) :
  s <> EmptyString -> all_digits s = true -> tokenize s = flush (PNum s).
Proof.
  destruct s as [|c s]; [easy|]. intros _ H.
  cbn [all_digits] in H. apply andb_true_iff in H as [Hc H].
  unfold tokenize. cbn [lex]. destruct (digit_class c Hc) as (-> & -> & ->). rewrite Hc.
  now rewrite lex_digits.
Qed.

(** The decimal text of a natural number has no leading zero. *)
Lemma to_uint_head (n : nat) :
  Nat.to_uint n = Decimal.D0 Decimal.Nil \/
  (Nat.to_uint n <> Decimal.Nil /\ forall d, Nat.to_uint n <> Decimal.D0 d).
Proof.
  pose proof (DecimalNat.Unsigned.to_of (Nat.to_uint n)) as H.
  rewrite DecimalNat.Unsigned.of_to in H.
  revert H. generalize (Nat.to_uint n). intros d Hd.
  unfold Decimal.unorm in Hd.
  destruct (Decimal.nzhead d) as [|u|u|u|u|u|u|u|u|u|u] eqn:E.
  1: left; exact Hd.
  1: exfalso; exact (DecimalFacts.nzhead_nonzero d u E).
  all: right; split; [rewrite Hd; discriminate|];
    intros d' Hd'; apply (DecimalFacts.nzhead_nonzero d d');
    rewrite E, <- Hd; exact Hd'.
Qed.

Lemma numeral_string_of_nat (n : nat) : numeral (V1.string_of_nat n) = Some n.
Proof.
  unfold V1.string_of_nat, numeral.
  assert (Hok : option_map Nat.of_uint
                  (NilEmpty.uint_of_string (NilEmpty.string_of_uint (Nat.to_uint n)))
                = Some n).
  { rewrite NilEmpty.usu. cbn. now rewrite DecimalNat.Unsigned.of_to. }
  destruct (to_uint_head n) as [E|[Hnil Hd0]].
  - rewrite E in *. exact Hok.
  - destruct (Nat.to_uint n) as [|d|d|d|d|d|d|d|d|d|d] eqn:E; try easy.
    1: exfalso; now apply (Hd0 d).
    all: cbn [NilEmpty.string_of_uint] in *;
      destruct (NilEmpty.string_of_uint d); exact Hok.
Qed.

(** An offset or a size printed by a template is lexed as that number. *)
Lemma lex_string_of_nat (n : nat) : tokenize (V1.string_of_nat n) = Some [TNum n].
Proof.
  rewrite lex_digit_string.
  - cbn [flush]. now rewrite numeral_string_of_nat.
  - unfold V1.string_of_nat. destruct (Nat.to_uint n) eqn:E; try discriminate.
    destruct (to_uint_head n) as [H|[H _]]; congruence.
  - apply string_of_uint_digits.
Qed.

End Lexing.

(** ** The tokens of the two function bodies *)

Section Bodies.

Import FunctionConstructor Template.

Lemma lex_read_entry (le : bool) (name : string) (a : Access) :
  tokenize (V1.read_entry le name (V1field a))
  = oapp (tokenize name) (Some (getter_tokens le a)).
Proof.
  unfold V1.read_entry, tokenize. cbn [V1.getter V1.offset V1field].
  rewrite lex_app by (right; reflexivity).
  rewrite (lex_app _ ": view.") by (left; reflexivity).
  rewrite (lex_app _ (getter_name _)) by (right; reflexivity).
  rewrite (lex_app _ "(") by (left; reflexivity).
  rewrite (lex_app _ (V1.string_of_nat _)) by (right; reflexivity).
  rewrite (lex_app _ ", ") by (left; reflexivity).
  rewrite (lex_app _ (V1.string_of_bool _)) by (right; reflexivity).
  fold (tokenize (V1.string_of_nat (at_offset a))). rewrite lex_string_of_nat.
  unfold getter_tokens.
  destruct (lex PNone name), (type a), le; reflexivity.
Qed.

Lemma lex_write_entry (le : bool) (name : string) (a : Access) :
  tokenize (V1.write_entry le name (V1field a))
  = oapp (Some (setter_head a)) (oapp (tokenize name) (Some (setter_tail le))).
Proof.
  unfold V1.write_entry, tokenize. cbn [V1.setter V1.offset V1field].
  rewrite (lex_app _ "view.") by (left; reflexivity).
  rewrite (lex_app _ (setter_name _)) by (right; reflexivity).
  rewrite (lex_app _ "(") by (left; reflexivity).
  rewrite (lex_app _ (V1.string_of_nat _)) by (right; reflexivity).
  rewrite (lex_app _ ", data.") by (left; reflexivity).
  rewrite (lex_app _ name) by (right; reflexivity).
  rewrite (lex_app _ ", ") by (left; reflexivity).
  rewrite (lex_app _ (V1.string_of_bool _)) by (right; reflexivity).
  fold (tokenize (V1.string_of_nat (at_offset a))). rewrite lex_string_of_nat.
  unfold setter_head, setter_tail.
  destruct (lex PNone name), (type a), le; reflexivity.
Qed.

Lemma lex_concat (sep : string) (toks : list token) (l : list string) :
  first_is_sep sep = true -> last_is_sep sep = true -> tokenize sep = Some toks ->
  tokenize (String.concat sep l) = ojoin toks (map tokenize l).
Proof.
  intros Hf Hl Hs. induction l as [|x l IH]; [reflexivity|].
  destruct l as [|y l]; [reflexivity|].
  change (String.concat sep (x :: y :: l))
    with (x ++ sep ++ String.concat sep (y :: l))%string.
  unfold tokenize in *.
  rewrite lex_app.
  - rewrite (lex_app _ sep) by (left; exact Hl). rewrite Hs, IH. reflexivity.
  - right. destruct sep; [discriminate|exact Hf].
Qed.

Lemma lex_read_body (entries : list string) :
  tokenize (V1.read_body entries)
  = oapp (Some reader_head)
      (oapp (tokenize (String.concat ("," ++ nl) entries)) (Some reader_foot)).
Proof.
  change (V1.read_body entries)
    with (read_head ++ String.concat ("," ++ nl) entries ++ read_foot)%string.
  unfold tokenize.
  rewrite (lex_app _ read_head) by (left; reflexivity).
  rewrite lex_app by (right; reflexivity).
  reflexivity.
Qed.

Lemma lex_write_body (n : nat) (entries : list string) :
  tokenize (V1.write_body n entries)
  = oapp (Some (writer_head n))
      (oapp (tokenize (String.concat nl entries)) (Some return_view_buffer)).
Proof.
  change (V1.write_body n entries)
    with (write_head ++ V1.string_of_nat n ++ write_neck
                     ++ String.concat nl entries ++ write_foot)%string.
  unfold tokenize.
  rewrite (lex_app _ write_head) by (left; reflexivity).
  rewrite (lex_app _ (V1.string_of_nat n)) by (right; reflexivity).
  rewrite (lex_app _ write_neck) by (left; reflexivity).
  rewrite lex_app by (right; reflexivity).
  fold (tokenize (V1.string_of_nat n)). rewrite lex_string_of_nat.
  destruct (lex PNone (String.concat nl entries)); reflexivity.
Qed.

End Bodies.

(** ** Parsing the bodies *)

Section Parsing.

Import FunctionConstructor Template.

Lemma token_eqb_refl (t : token) : token_eqb t t = true.
Proof.
  destruct t; cbn; [apply String.eqb_refl|apply Nat.eqb_refl|apply Ascii.eqb_refl].
Qed.

Lemma token_eqb_eq (t u : token) : token_eqb t u = true -> t = u.
Proof.
  destruct t, u; cbn; try discriminate; intros H; f_equal.
  - now apply String.eqb_eq.
  - now apply Nat.eqb_eq.
  - now apply Ascii.eqb_eq.
Qed.

Lemma expect_app (pre ts : list token) : expect pre (pre ++ ts) = Some ts.
Proof.
  induction pre as [|p pre IH]; [reflexivity|].
  cbn. now rewrite token_eqb_refl.
Qed.

Lemma expect_nil_inv (pre ts : list token) : expect pre ts = Some [] -> ts = pre.
Proof.
  revert ts. induction pre as [|p pre IH]; intros ts; cbn.
  - now intros [= ->].
  - destruct ts as [|t ts]; [discriminate|].
    destruct (token_eqb p t) eqn:E; [|discriminate].
    apply token_eqb_eq in E. subst t. intros H. now rewrite (IH ts H).
Qed.

(** One entry of the reader whose name is an identifier. *)
Lemma parse_props_entry (le : bool) (x : string) (a : Access) (rest : list token) :
  isLittleEndian a = le ->
  parse_props (TIdent x :: getter_tokens le a ++ rest)
  = match rest with
    | TPunct c :: rest' =>
        if punct c ","
        then match parse_props rest' with
             | Some (ps, r) => Some (rekey x a :: ps, r)
             | None => None
             end
        else Some ([rekey x a], rest)
    | _ => Some ([rekey x a], rest)
    end.
Proof.
  intros <-. destruct a as [k ty off le]. destruct ty, le; reflexivity.
Qed.

(** One statement of the writer whose name is an identifier. *)
Lemma parse_stmts_entry (le : bool) (x : string) (a : Access) (rest : list token) :
  isLittleEndian a = le ->
  parse_stmts (setter_head a ++ TIdent x :: setter_tail le ++ rest)
  = let (ss, r) := parse_stmts rest in (rekey x a :: ss, r).
Proof.
  intros <-. destruct a as [k ty off le]. destruct ty, le; reflexivity.
Qed.

Ltac peel l := destruct l as [|[?|?|?] l]; try reflexivity.

(** A property name followed by anything but a colon is refused. *)
Lemma parse_props_not_colon (x : string) (t : token) (l : list token) :
  t <> TPunct ":" -> parse_props (TIdent x :: t :: l) = None.
Proof.
  intros Ht. destruct t as [s|n|c]; try reflexivity.
  assert (Hc : punct c ":" = false).
  { unfold punct. destruct (Ascii.eqb c ":") eqn:E; [|reflexivity].
    apply Ascii.eqb_eq in E. now subst c. }
  do 8 peel l. cbn. now rewrite Hc.
Qed.

(** A statement whose property access is followed by a colon is not one. *)
Lemma parse_stmts_colon (a : Access) (x : string) (l : list token) :
  parse_stmts (setter_head a ++ TIdent x :: TPunct ":" :: l)
  = ([], setter_head a ++ TIdent x :: TPunct ":" :: l).
Proof.
  do 3 peel l.
Qed.

End Parsing.

(** ** What the two bodies compile to *)

Section Compiling.

Import FunctionConstructor Template.

Variable le : bool.

Lemma reader_tokens_cons (tn : list token) (a : Access) (e : list token * Access)
    (E : list (list token * Access)) :
  reader_tokens le ((tn, a) :: e :: E)
  = tn ++ getter_tokens le a ++ [TPunct ","] ++ reader_tokens le (e :: E).
Proof. reflexivity. Qed.

Lemma reader_tokens_shape (tn : list token) (a : Access) (E : list (list token * Access)) :
  exists rest, reader_tokens le ((tn, a) :: E) ++ reader_foot
               = tn ++ getter_tokens le a ++ rest.
Proof.
  destruct E as [|e E].
  - exists reader_foot. cbn [reader_tokens]. now rewrite <- app_assoc.
  - exists ([TPunct ","] ++ reader_tokens le (e :: E) ++ reader_foot).
    rewrite reader_tokens_cons. now rewrite <- !app_assoc.
Qed.

Lemma reader_good (E : list (list token * Access)) (ps : list Access) :
  E <> [] -> uniform le E -> singles E = Some ps ->
  parse_props (reader_tokens le E ++ reader_foot) = Some (ps, reader_foot).
Proof.
  revert ps. induction E as [|[tn a] E IH]; intros ps Hne Hu Hs; [easy|].
  pose proof (Forall_inv Hu) as Ha. pose proof (Forall_inv_tail Hu) as Hu'. cbn [snd] in Ha.
  cbn [singles] in Hs.
  destruct tn as [|[x| |] [|]]; try discriminate. cbn [single] in Hs.
  destruct (singles E) as [ps'|] eqn:HE; [|discriminate].
  injection Hs as <-.
  destruct E as [|e E].
  - cbn [singles] in HE. injection HE as <-.
    cbn [reader_tokens]. rewrite <- app_assoc. cbn [app].
    rewrite (parse_props_entry le x a reader_foot Ha). reflexivity.
  - rewrite reader_tokens_cons. rewrite <- !app_assoc.
    change ([TIdent x] ++ getter_tokens le a ++ [TPunct ","] ++ reader_tokens le (e :: E) ++ reader_foot)
      with (TIdent x :: getter_tokens le a
              ++ TPunct "," :: (reader_tokens le (e :: E) ++ reader_foot)).
    rewrite (parse_props_entry le x a _ Ha).
    change (punct "," ",") with true. cbn iota.
    rewrite (IH ps'); [reflexivity|easy|exact Hu'|reflexivity].
Qed.

Lemma writer_good (E : list (list token * Access)) (ps : list Access) :
  uniform le E -> singles E = Some ps ->
  parse_stmts (writer_tokens le E ++ return_view_buffer) = (ps, return_view_buffer).
Proof.
  revert ps. induction E as [|[tn a] E IH]; intros ps Hu Hs.
  - injection Hs as <-. reflexivity.
  - pose proof (Forall_inv Hu) as Ha. pose proof (Forall_inv_tail Hu) as Hu'. cbn [snd] in Ha.
    cbn [singles] in Hs.
    destruct tn as [|[x| |] [|]]; try discriminate. cbn [single] in Hs.
    destruct (singles E) as [ps'|] eqn:HE; [|discriminate].
    injection Hs as <-.
    cbn [writer_tokens]. rewrite <- !app_assoc.
    change ([TIdent x] ++ setter_tail le ++ writer_tokens le E ++ return_view_buffer)
      with (TIdent x :: setter_tail le ++ (writer_tokens le E ++ return_view_buffer)).
    rewrite (parse_stmts_entry le x a _ Ha).
    now rewrite (IH ps' Hu' eq_refl).
Qed.

Lemma token_colon_dec (t : token) : {t = TPunct ":"} + {t <> TPunct ":"}.
Proof.
  destruct t as [s|n|c]; try (right; discriminate).
  destruct (Ascii.ascii_dec c ":") as [->|Hc]; [now left|right].
  intros [= H]. contradiction.
Qed.

(** When some name is not read as one identifier, the reader or the
    writer is not of the expected form. *)
Lemma bad_entries (E : list (list token * Access)) :
  E <> [] -> uniform le E -> singles E = None ->
  parse_props (reader_tokens le E ++ reader_foot) = None
  \/ stuck (writer_tokens le E ++ return_view_buffer).
Proof.
  induction E as [|[tn a] E IH]; intros Hne Hu Hs; [easy|].
  pose proof (Forall_inv Hu) as Ha. pose proof (Forall_inv_tail Hu) as Hu'. cbn [snd] in Ha.
  destruct (reader_tokens_shape tn a E) as [rest Hr].
  cbn [writer_tokens]. rewrite <- !app_assoc.
  destruct tn as [|t tn].
  - left. rewrite Hr. reflexivity.
  - destruct t as [x|n|c]; [|left; rewrite Hr; reflexivity|left; rewrite Hr; reflexivity].
    destruct tn as [|t tn].
    + (* the name is an identifier: the fault is further on *)
      cbn [singles single] in Hs.
      destruct (singles E) as [ps'|] eqn:HE; [discriminate|].
      destruct E as [|e E]; [discriminate|].
      destruct (IH ltac:(easy) Hu' eq_refl) as [Hbad|[l Hbad]].
      * left. clear Hr. rewrite reader_tokens_cons. rewrite <- !app_assoc.
        change ([TIdent x] ++ getter_tokens le a ++ [TPunct ","]
                  ++ reader_tokens le (e :: E) ++ reader_foot)
          with (TIdent x :: getter_tokens le a
                  ++ TPunct "," :: (reader_tokens le (e :: E) ++ reader_foot)).
        rewrite (parse_props_entry le x a _ Ha).
        change (punct "," ",") with true. cbn iota. now rewrite Hbad.
      * right. exists l.
        change ([TIdent x] ++ setter_tail le ++ writer_tokens le (e :: E) ++ return_view_buffer)
          with (TIdent x :: setter_tail le
                  ++ (writer_tokens le (e :: E) ++ return_view_buffer)).
        rewrite (parse_stmts_entry le x a _ Ha).
        destruct (parse_stmts (writer_tokens le (e :: E) ++ return_view_buffer)) as [ss r].
        exact Hbad.
    + destruct (token_colon_dec t) as [->|Hnc].
      * right. unfold stuck.
        change ((TIdent x :: TPunct ":" :: tn) ++ setter_tail le
                  ++ writer_tokens le E ++ return_view_buffer)
          with (TIdent x :: TPunct ":"
                  :: (tn ++ setter_tail le ++ writer_tokens le E ++ return_view_buffer)).
        rewrite parse_stmts_colon. eexists. reflexivity.
      * left. rewrite Hr. cbn [app]. now apply parse_props_not_colon.
Qed.

Lemma reader_tail_None (ts : list token) :
  parse_props ts = None -> (2 < length ts)%nat -> reader_tail ts = None.
Proof.
  intros Hp Hl. destruct ts as [|[x|n|c] ts]; cbn [reader_tail].
  - now rewrite Hp.
  - now rewrite Hp.
  - now rewrite Hp.
  - destruct (punct c "}"); [|reflexivity].
    destruct ts as [|[| |c'] [|t ts]]; try reflexivity.
    cbn in Hl. lia.
Qed.

Lemma parse_object_eq (ts : list token) :
  parse_object (reader_head ++ ts) = reader_tail ts.
Proof.
  unfold parse_object. fold reader_head. rewrite expect_app.
  destruct ts as [|[x|n|c] ts]; reflexivity.
Qed.

Lemma parse_writer_eq (n : nat) (ts : list token) :
  parse_writer (writer_head n ++ ts)
  = let (ss, r) := parse_stmts ts in
    match expect return_view_buffer r with
    | Some [] => Some (n, ss)
    | _ => None
    end.
Proof.
  unfold parse_writer, writer_head. rewrite <- app_assoc, expect_app.
  cbn [app]. change (TPunct ")" :: TPunct ")" :: TPunct ";" :: ts)
    with ([TPunct ")"; TPunct ")"; TPunct ";"] ++ ts).
  now rewrite expect_app.
Qed.

Lemma length_reader_tokens (tn : list token) (a : Access) (E : list (list token * Access)) :
  (2 < length (reader_tokens le ((tn, a) :: E) ++ reader_foot))%nat.
Proof.
  destruct (reader_tokens_shape tn a E) as [rest ->].
  rewrite !length_app. cbn. lia.
Qed.

(** The bodies built from lexed entries: both are parsed to the same
    accesses when every name is one identifier, and one of them is
    refused otherwise. *)
Lemma parse_bodies (n : nat) (E : list (list token * Access)) :
  uniform le E ->
  match singles E with
  | Some ps =>
      parse_object (reader_head ++ reader_tokens le E ++ reader_foot) = Some ps
      /\ parse_writer (writer_head n ++ writer_tokens le E ++ return_view_buffer)
         = Some (n, ps)
  | None =>
      parse_object (reader_head ++ reader_tokens le E ++ reader_foot) = None
      \/ parse_writer (writer_head n ++ writer_tokens le E ++ return_view_buffer) = None
  end.
Proof.
  intros Hu. rewrite parse_object_eq, parse_writer_eq.
  destruct (singles E) as [ps|] eqn:Hs.
  - split.
    + destruct E as [|[tn a] E].
      * injection Hs as <-. reflexivity.
      * pose proof (reader_good ((tn, a) :: E) ps ltac:(discriminate) Hu Hs) as Hp.
        cbn [singles] in Hs. destruct tn as [|[x| |] [|]]; try discriminate.
        unfold reader_tail.
        destruct (reader_tokens_shape [TIdent x] a E) as [rest Hr].
        rewrite Hr in *. cbn [app] in *. rewrite Hp. reflexivity.
    + rewrite (writer_good E ps Hu Hs). reflexivity.
  - destruct E as [|[tn a] E]; [discriminate|].
    destruct (bad_entries ((tn, a) :: E) ltac:(discriminate) Hu Hs) as [Hbad|[l Hbad]].
    + left. apply reader_tail_None; [exact Hbad|apply length_reader_tokens].
    + right. destruct (parse_stmts _) as [ss r]. cbn [snd] in Hbad. subst r.
      reflexivity.
Qed.

End Compiling.

(** ** What [V1.build] returns *)

Section Building.

Import FunctionConstructor Template.

Variable le : bool.

Lemma lexed_nonempty (na : string * Access) (nas : list (string * Access))
    (E : list (list token * Access)) :
  lexed (na :: nas) = Some E -> E <> [].
Proof.
  destruct na as [name a]. cbn [lexed].
  destruct (tokenize name), (lexed nas); try discriminate. now intros [= <-].
Qed.

Lemma reader_entries (nas : list (string * Access)) :
  ojoin [TPunct ","]
        (map tokenize (map (fun na => V1.read_entry le (fst na) (V1field (snd na))) nas))
  = option_map (reader_tokens le) (lexed nas).
Proof.
  induction nas as [|[name a] nas IH]; [reflexivity|].
  destruct nas as [|nb nas].
  - cbn [map ojoin lexed fst snd]. rewrite lex_read_entry.
    destruct (tokenize name); reflexivity.
  - cbn [map ojoin] in *. cbn [fst snd]. rewrite lex_read_entry, IH.
    pose proof (lexed_nonempty nb nas) as Hne.
    change (lexed ((name, a) :: nb :: nas))
      with (match tokenize name, lexed (nb :: nas) with
            | Some tn, Some E => Some ((tn, a) :: E)
            | _, _ => None
            end).
    destruct (tokenize name) as [tn|]; [|reflexivity].
    destruct (lexed (nb :: nas)) as [E|]; [|reflexivity].
    destruct E as [|e E]; [now specialize (Hne [] eq_refl)|].
    cbn [option_map oapp]. rewrite reader_tokens_cons. now rewrite <- !app_assoc.
Qed.

Lemma writer_entries (nas : list (string * Access)) :
  ojoin []
        (map tokenize (map (fun na => V1.write_entry le (fst na) (V1field (snd na))) nas))
  = option_map (writer_tokens le) (lexed nas).
Proof.
  induction nas as [|[name a] nas IH]; [reflexivity|].
  assert (Hcons : forall x l, ojoin [] (x :: l) = oapp x (ojoin [] l)).
  { intros x [|y l]; [cbn; now rewrite oapp_nil_r|].
    cbn [ojoin]. now rewrite oapp_nil_l. }
  cbn [map]. rewrite Hcons, IH. cbn [fst snd lexed]. rewrite lex_write_entry.
  destruct (tokenize name) as [tn|]; [|reflexivity].
  destruct (lexed nas) as [E|]; [|reflexivity].
  cbn [option_map oapp writer_tokens]. now rewrite <- !app_assoc.
Qed.

Lemma tokenize_read_body (nas : list (string * Access)) :
  tokenize (V1.read_body (map (fun na => V1.read_entry le (fst na) (V1field (snd na))) nas))
  = option_map (fun ts => reader_head ++ ts ++ reader_foot)
               (option_map (reader_tokens le) (lexed nas)).
Proof.
  rewrite lex_read_body.
  rewrite (lex_concat _ [TPunct ","]) by reflexivity.
  rewrite reader_entries. destruct (lexed nas); reflexivity.
Qed.

Lemma tokenize_write_body (n : nat) (nas : list (string * Access)) :
  tokenize (V1.write_body n
              (map (fun na => V1.write_entry le (fst na) (V1field (snd na))) nas))
  = option_map (fun ts => writer_head n ++ ts ++ return_view_buffer)
               (option_map (writer_tokens le) (lexed nas)).
Proof.
  rewrite lex_write_body.
  rewrite (lex_concat _ []) by reflexivity.
  rewrite writer_entries. destruct (lexed nas); reflexivity.
Qed.

Lemma accesses_lexed (nas : list (string * Access)) :
  accesses nas = match lexed nas with Some E => singles E | None => None end.
Proof.
  induction nas as [|[name a] nas IH]; [reflexivity|].
  cbn [accesses lexed]. rewrite IH. unfold identifier_of.
  destruct (tokenize name) as [tn|]; [|reflexivity].
  destruct (lexed nas) as [E|].
  - cbn [singles]. destruct tn as [|[x| |] [|]]; reflexivity.
  - destruct tn as [|[x| |] [|]]; reflexivity.
Qed.

Lemma lexed_uniform (nas : list (string * Access)) (E : list (list token * Access)) :
  Forall (fun na => isLittleEndian (snd na) = le) nas ->
  lexed nas = Some E -> uniform le E.
Proof.
  revert E. induction nas as [|[name a] nas IH]; intros E Hu.
  - intros [= <-]. constructor.
  - cbn [lexed]. destruct (tokenize name) as [tn|]; [|discriminate].
    destruct (lexed nas) as [E'|]; [|discriminate].
    intros [= <-]. constructor; [exact (Forall_inv Hu)|].
    apply IH; [exact (Forall_inv_tail Hu)|reflexivity].
Qed.

Lemma map_entries_bound (render : string -> V1.Field -> string) (L : list Access)
    (fieldMap : list (string * nat)) :
  Forall (fun e => (snd e < length L)%nat) fieldMap ->
  V1.map_entries render (map V1field L) fieldMap
  = Normal (map (fun na => render (fst na) (V1field (snd na))) (bind_entries L fieldMap)).
Proof.
  induction fieldMap as [|[name index] fm IH]; intros H; [reflexivity|].
  pose proof (Forall_inv H) as Hi. cbn [snd] in Hi.
  cbn [V1.map_entries bind_entries]. rewrite nth_error_map.
  destruct (nth_error L index) as [a|] eqn:E.
  - cbn [option_map]. rewrite IH by exact (Forall_inv_tail H). reflexivity.
  - apply nth_error_None in E. lia.
Qed.

(** When every name of [fieldMap] is read as one identifier, [__proto__]
    being read at most once, [build] returns the reader and the writer
    of the accesses that [compile] gives. *)
Theorem V1_build_eq (n : nat) (L : list Access) (fieldMap : list (string * nat))
    (ps : list Access) :
  Forall (fun e => (snd e < length L)%nat) fieldMap ->
  Forall (fun a => isLittleEndian a = le) L ->
  compile (bind_entries L fieldMap) = Some ps ->
  V1.build (V1.mkBuilder n (map V1field L) fieldMap le)
  = Normal (V1.mkStruct n (run_reader ps) (run_writer n ps)).
Proof.
  intros Hidx Hle Hc. unfold V1.build.
  cbn [V1.this_size V1.this_fields V1.this_fieldMap V1.this_littleEndian].
  rewrite !map_entries_bound by exact Hidx.
  unfold new_Function_buffer, new_Function_data_buffer, parse_reader.
  unfold compile in Hc. rewrite accesses_lexed in Hc.
  rewrite tokenize_read_body, tokenize_write_body.
  assert (Hu : Forall (fun na => isLittleEndian (snd na) = le) (bind_entries L fieldMap)).
  { clear Hidx Hc. induction fieldMap as [|[name index] fm IH]; [constructor|].
    cbn [bind_entries]. destruct (nth_error L index) as [a|] eqn:E; [|constructor].
    constructor; [|exact IH]. cbn [snd].
    apply nth_error_In in E. rewrite Forall_forall in Hle. now apply Hle. }
  destruct (lexed (bind_entries L fieldMap)) as [E|] eqn:HE; [|discriminate].
  cbn [option_map].
  pose proof (parse_bodies le n E (lexed_uniform _ _ Hu HE)) as HP.
  destruct (singles E) as [ps'|]; [|discriminate].
  destruct HP as [-> ->].
  destruct (proto_once ps'); [|discriminate].
  now injection Hc as <-.
Qed.

(** [build] throws nothing but the SyntaxError of the [Function]
    constructor when every index of [fieldMap] designates a field, and
    the size of the struct it returns is the size of the builder. *)
Lemma V1_build_outcome (b : V1.BinaryStructBuilderV1) :
  (forall s, V1.build b = Normal s -> V1.struct_size s = V1.this_size b)
  /\ (Forall (fun e => (snd e < length (V1.this_fields b))%nat) (V1.this_fieldMap b) ->
      forall e, V1.build b = Throw e -> e = SyntaxError).
Proof.
  assert (Hr : forall body e, new_Function_buffer body = Throw e -> e = SyntaxError).
  { intros body e. unfold new_Function_buffer.
    destruct (tokenize body) as [ts|]; [|congruence].
    destruct (parse_reader ts); [discriminate|].
    destruct (parse_reader_wide ts); [discriminate|congruence]. }
  assert (Hw : forall body e, new_Function_data_buffer body = Throw e -> e = SyntaxError).
  { intros body e. unfold new_Function_data_buffer.
    destruct (tokenize body) as [ts|]; [|congruence].
    destruct (parse_writer ts) as [[n ss]|]; [discriminate|].
    destruct (parse_writer_wide ts) as [[n ss]|]; [discriminate|congruence]. }
  assert (Hm : forall render,
             Forall (fun e => (snd e < length (V1.this_fields b))%nat) (V1.this_fieldMap b) ->
             exists l, V1.map_entries render (V1.this_fields b) (V1.this_fieldMap b)
                       = Normal l).
  { intros render. generalize (V1.this_fieldMap b) as fm.
    induction fm as [|[name index] fm IH]; intros H; [now exists []|].
    pose proof (Forall_inv H) as Hi. cbn [snd] in Hi.
    destruct (IH (Forall_inv_tail H)) as [l Hl].
    cbn [V1.map_entries].
    destruct (nth_error (V1.this_fields b) index) as [f|] eqn:E;
      [|apply nth_error_None in E; lia].
    rewrite Hl. eexists. reflexivity. }
  unfold V1.build. split.
  - intros s.
    destruct (V1.map_entries _ _ _); [|discriminate].
    destruct (new_Function_buffer _); [|discriminate].
    destruct (V1.map_entries _ _ _); [|discriminate].
    destruct (new_Function_data_buffer _); [|discriminate].
    now intros [= <-].
  - intros Hv e.
    destruct (Hm (V1.read_entry (V1.this_littleEndian b)) Hv) as [reads ->].
    destruct (Hm (V1.write_entry (V1.this_littleEndian b)) Hv) as [writes ->].
    destruct (new_Function_buffer _) eqn:E1; [|intros [= <-]; now apply Hr in E1].
    destruct (new_Function_data_buffer _) eqn:E2; [discriminate|].
    intros [= <-]. now apply Hw in E2.
Qed.

End Building.

(** ** The builder of version 1 *)

Section Builder1.

Import FunctionConstructor Template.

Lemma V1_addField_eq (b : V1.BinaryStructBuilderV1) (name : string) (ty : FieldType) :
  V1.addField b name ty
  = V1.mkBuilder (V1.this_size b + width ty)
      (V1.this_fields b
         ++ [V1field (mkAccess name ty (V1.this_size b) (V1.this_littleEndian b))])
      (assoc_set (V1.this_fieldMap b) name (length (V1.this_fields b)))
      (V1.this_littleEndian b).
Proof.
  unfold V1.addField.
  destruct ty; cbn; rewrite length_app; cbn; rewrite Nat.add_sub; reflexivity.
Qed.

Lemma V1_reduce_eq (es : list (string * FieldType)) (b : V1.BinaryStructBuilderV1) :
  V1.reduce es b
  = V1.mkBuilder (V1.this_size b + total_width es)
      (V1.this_fields b
         ++ map V1field (layout (V1.this_littleEndian b) es (V1.this_size b)))
      (index_map es (length (V1.this_fields b)) (V1.this_fieldMap b))
      (V1.this_littleEndian b).
Proof.
  unfold V1.reduce. revert b. induction es as [|[n t] es IH]; intros b.
  - cbn. change (total_width []) with 0%nat.
    rewrite Nat.add_0_r, List.app_nil_r. now destruct b.
  - cbn [fold_left fst snd]. rewrite IH, V1_addField_eq, total_width_cons.
    cbn [V1.this_size V1.this_fields V1.this_fieldMap V1.this_littleEndian layout map index_map].
    rewrite length_app, <- app_assoc. cbn [length app].
    rewrite Nat.add_1_r. f_equal. lia.
Qed.

Lemma V1_reduce_new (es : list (string * FieldType)) (le : option bool) :
  V1.reduce es (V1.new le)
  = V1.mkBuilder (total_width es) (map V1field (layout (default_true le) es 0))
                 (index_map es 0 []) (default_true le).
Proof.
  rewrite V1_reduce_eq. reflexivity.
Qed.

Lemma In_assoc_set {V} (l : list (string * V)) (k : string) (v : V) (e : string * V) :
  In e (assoc_set l k v) -> e = (k, v) \/ In e l.
Proof.
  induction l as [|[k' v'] l IH]; cbn.
  - intros [<-|[]]. now left.
  - destruct (String.eqb k' k) eqn:E.
    + apply String.eqb_eq in E. subst k'. intros [<-|H]; [now left|right; now right].
    + intros [<-|H]; [right; now left|]. destruct (IH H); [now left|right; now right].
Qed.

Lemma assoc_set_In {V} (l : list (string * V)) (k : string) (v : V) :
  In (k, v) (assoc_set l k v).
Proof.
  induction l as [|[k' v'] l IH]; cbn; [now left|].
  destruct (String.eqb k' k) eqn:E.
  - apply String.eqb_eq in E. subst k'. now left.
  - now right.
Qed.

Lemma assoc_set_fresh {V} (l : list (string * V)) (k : string) (v : V) :
  ~ In k (map fst l) -> assoc_set l k v = l ++ [(k, v)].
Proof.
  induction l as [|[k' v'] l IH]; cbn; intros H; [reflexivity|].
  destruct (String.eqb k' k) eqn:E.
  - apply String.eqb_eq in E. subst k'. exfalso. apply H. now left.
  - rewrite IH; [reflexivity|]. intros Hin. apply H. now right.
Qed.

(** Every index of [fieldMap] designates a field. *)
Lemma index_map_valid (es : list (string * FieldType)) (k : nat)
    (fm : list (string * nat)) :
  Forall (fun e => (snd e < k)%nat) fm ->
  Forall (fun e => (snd e < k + length es)%nat) (index_map es k fm).
Proof.
  revert k fm. induction es as [|[n t] es IH]; intros k fm H.
  - cbn. rewrite Nat.add_0_r. exact H.
  - cbn [index_map length]. replace (k + S (length es))%nat with (S k + length es)%nat by lia.
    apply IH. apply Forall_forall. intros e He.
    apply In_assoc_set in He as [->|He]; [cbn; lia|].
    rewrite Forall_forall in H. specialize (H e He). lia.
Qed.

Lemma index_map_app (es1 es2 : list (string * FieldType)) (k : nat)
    (fm : list (string * nat)) :
  index_map (es1 ++ es2) k fm = index_map es2 (k + length es1) (index_map es1 k fm).
Proof.
  revert k fm. induction es1 as [|[n t] es1 IH]; intros k fm.
  - cbn. now rewrite Nat.add_0_r.
  - cbn [app index_map length]. rewrite IH. f_equal. lia.
Qed.

(** The name declared last is bound to the last field. *)
Lemma index_map_last (es : list (string * FieldType)) (n : string) (t : FieldType)
    (k : nat) (fm : list (string * nat)) :
  In (n, (k + length es)%nat) (index_map (es ++ [(n, t)]) k fm).
Proof.
  rewrite index_map_app. cbn [index_map]. apply assoc_set_In.
Qed.

(** With distinct names, [fieldMap] lists the names with their ranks. *)
Lemma index_map_NoDup (es : list (string * FieldType)) (k : nat)
    (fm : list (string * nat)) :
  NoDup (map fst fm ++ map fst es) ->
  index_map es k fm = fm ++ combine (map fst es) (seq k (length es)).
Proof.
  revert k fm. induction es as [|[n t] es IH]; intros k fm H.
  - cbn. now rewrite List.app_nil_r.
  - cbn [index_map map fst length seq combine].
    assert (Hn : ~ In n (map fst fm)).
    { intros Hin. apply NoDup_remove_2 in H. apply H. apply in_or_app. now left. }
    rewrite assoc_set_fresh by exact Hn.
    rewrite IH.
    + now rewrite <- app_assoc.
    + rewrite map_app. cbn [map fst]. rewrite <- app_assoc. exact H.
Qed.

Lemma bind_entries_In (L : list Access) (fm : list (string * nat)) (name : string)
    (a : Access) :
  In (name, a) (bind_entries L fm) -> In a L.
Proof.
  induction fm as [|[n i] fm IH]; cbn; [intros []|].
  destruct (nth_error L i) as [a'|] eqn:E; [|intros []].
  intros [[= <- <-]|H]; [now apply nth_error_In in E|now apply IH].
Qed.

Lemma bind_entries_nth (L : list Access) (fm : list (string * nat)) (name : string)
    (i : nat) (a : Access) :
  Forall (fun e => (snd e < length L)%nat) fm ->
  In (name, i) fm -> nth_error L i = Some a -> In (name, a) (bind_entries L fm).
Proof.
  induction fm as [|[n j] fm IH]; intros Hv; [intros []|].
  pose proof (Forall_inv Hv) as Hj. cbn [snd] in Hj.
  cbn [bind_entries].
  destruct (nth_error L j) as [a'|] eqn:E; [|apply nth_error_None in E; lia].
  intros [[= -> ->]|H] Ha.
  - left. congruence.
  - right. now apply IH; [exact (Forall_inv_tail Hv)| |].
Qed.

Lemma bind_entries_combine (P L : list Access) (names : list string) :
  length names = length L ->
  bind_entries (P ++ L) (combine names (seq (length P) (length L))) = combine names L.
Proof.
  revert P names. induction L as [|a L IH]; intros P [|n names] H; try discriminate;
    [reflexivity|].
  cbn [length seq combine bind_entries].
  rewrite nth_error_app2 by lia. rewrite Nat.sub_diag. cbn [nth_error].
  f_equal. specialize (IH (P ++ [a]) names).
  rewrite <- app_assoc, length_app in IH. cbn [app length] in IH.
  rewrite Nat.add_1_r in IH. apply IH. now injection H.
Qed.

Lemma compile_accesses (nas : list (string * Access)) (ps : list Access) :
  compile nas = Some ps -> accesses nas = Some ps.
Proof.
  unfold compile. destruct (accesses nas) as [ps'|]; [|discriminate].
  destruct (proto_once ps'); [easy|discriminate].
Qed.

Lemma accesses_In (nas : list (string * Access)) (ps : list Access) (p : Access) :
  accesses nas = Some ps -> In p ps ->
  exists name x a, In (name, a) nas /\ p = rekey x a.
Proof.
  revert ps. induction nas as [|[name a] nas IH]; intros ps.
  - intros [= <-] [].
  - cbn [accesses]. destruct (identifier_of name) as [x|]; [|discriminate].
    destruct (accesses nas) as [ps'|]; [|discriminate].
    intros [= <-] [<-|Hin].
    + exists name, x, a. split; [now left|reflexivity].
    + destruct (IH ps' eq_refl Hin) as (n' & x' & a' & H1 & H2).
      exists n', x', a'. split; [now right|exact H2].
Qed.

Lemma accesses_covers (nas : list (string * Access)) (ps : list Access) (name : string)
    (a : Access) :
  accesses nas = Some ps -> In (name, a) nas -> exists x, In (rekey x a) ps.
Proof.
  revert ps. induction nas as [|[n' a'] nas IH]; intros ps; [intros _ []|].
  cbn [accesses]. destruct (identifier_of n') as [x|]; [|discriminate].
  destruct (accesses nas) as [ps'|]; [|discriminate].
  intros [= <-] [[= -> ->]|Hin].
  - exists x. now left.
  - destruct (IH ps' eq_refl Hin) as [x' Hx']. exists x'. now right.
Qed.

Lemma identifier_of_name (name : string) :
  is_identifier_name name = true -> identifier_of name = Some name.
Proof.
  intros H. unfold identifier_of. now rewrite lex_identifier_name.
Qed.

Lemma accesses_layout (le : bool) (es : list (string * FieldType)) (start : nat) :
  Forall (fun e => is_identifier_name (fst e) = true) es ->
  accesses (combine (map fst es) (layout le es start)) = Some (layout le es start).
Proof.
  revert start. induction es as [|[n t] es IH]; intros start H; [reflexivity|].
  cbn [map fst layout combine accesses].
  rewrite identifier_of_name by exact (Forall_inv H).
  rewrite IH by exact (Forall_inv_tail H). reflexivity.
Qed.

Lemma proto_once_NoDup (ps : list Access) : NoDup (map key ps) -> proto_once ps = true.
Proof.
  intros Hnd. unfold proto_once. apply Nat.leb_le.
  induction ps as [|p ps IH]; [cbn; lia|].
  cbn [map] in Hnd. apply NoDup_cons_iff in Hnd as [Hnotin Hnd].
  cbn [filter]. destruct (String.eqb (key p) "__proto__") eqn:E; [|now apply IH].
  apply String.eqb_eq in E. cbn [length].
  assert (Hz : filter (fun q => String.eqb (key q) "__proto__") ps = []).
  { clear IH Hnd. induction ps as [|q ps IH]; [reflexivity|].
    cbn [filter]. destruct (String.eqb (key q) "__proto__") eqn:Eq.
    - apply String.eqb_eq in Eq. exfalso. apply Hnotin. left. congruence.
    - apply IH. intros H. apply Hnotin. now right. }
  rewrite Hz. cbn. lia.
Qed.

(** Distinct identifier names compile to the layout itself. *)
Lemma compile_layout (le : bool) (es : list (string * FieldType)) (start : nat) :
  NoDup (map fst es) ->
  Forall (fun e => is_identifier_name (fst e) = true) es ->
  compile (combine (map fst es) (layout le es start)) = Some (layout le es start).
Proof.
  intros Hnd H. unfold compile. rewrite accesses_layout by exact H.
  rewrite proto_once_NoDup; [reflexivity|]. now rewrite layout_keys.
Qed.

Lemma length_layout (le : bool) (es : list (string * FieldType)) (start : nat) :
  length (layout le es start) = length es.
Proof.
  revert start. induction es as [|[n t] es IH]; intros start; [reflexivity|].
  cbn. now rewrite IH.
Qed.

Lemma layout_uniform (le : bool) (es : list (string * FieldType)) (start : nat) :
  Forall (fun a => isLittleEndian a = le) (layout le es start).
Proof.
  revert start. induction es as [|[n t] es IH]; intros start; constructor;
    [reflexivity|apply IH].
Qed.

(** [build] after declarations with distinct identifier names: the
    struct reads and writes the layout of the declarations. *)
Theorem V1_build_layout (es : list (string * FieldType)) (le : option bool) :
  NoDup (map fst es) ->
  Forall (fun e => is_identifier_name (fst e) = true) es ->
  V1.build (V1.reduce es (V1.new le))
  = Normal (V1.mkStruct (total_width es)
              (run_reader (layout (default_true le) es 0))
              (run_writer (total_width es) (layout (default_true le) es 0))).
Proof.
  intros Hnd Hid. rewrite V1_reduce_new.
  pose proof (index_map_valid es 0 [] (Forall_nil _)) as Hv.
  rewrite <- (length_layout (default_true le) es 0) in Hv.
  apply (V1_build_eq (default_true le)); [exact Hv|apply layout_uniform|].
  rewrite index_map_NoDup by exact Hnd. cbn [app].
  pose proof (bind_entries_combine [] (layout (default_true le) es 0) (map fst es)) as Hb.
  rewrite length_map, !length_layout in Hb. cbn [app length] in Hb.
  rewrite Hb by reflexivity.
  now apply compile_layout.
Qed.

Lemma layout_last (le : bool) (es : list (string * FieldType)) (n : string)
    (t : FieldType) (start : nat) :
  nth_error (layout le (es ++ [(n, t)]) start) (length es)
  = Some (mkAccess n t (start + total_width es) le).
Proof.
  rewrite layout_app. rewrite nth_error_app2 by (rewrite length_layout; lia).
  rewrite length_layout, Nat.sub_diag. reflexivity.
Qed.

End Builder1.

(** ** Structs *)

Section Structs.

Import FunctionConstructor Template.

Lemma with_content_underlying (buffer : BufferArg) :
  with_content buffer (underlying buffer) = buffer.
Proof. now destruct buffer. Qed.

Lemma run_reader_frame (ps : list Access) (buffer : BufferArg) :
  snd (run_reader ps buffer) = underlying buffer.
Proof. apply literal_frame. Qed.

Lemma run_reader_again (ps : list Access) (buffer : BufferArg) :
  run_reader ps (with_content buffer (snd (run_reader ps buffer))) = run_reader ps buffer.
Proof. now rewrite run_reader_frame, with_content_underlying. Qed.

Lemma run_reader_short (ps : list Access) (buffer : BufferArg) (p : Access) :
  In p ps -> (reachable buffer < at_offset p + width (type p))%nat ->
  run_reader ps buffer = (Throw RangeError, underlying buffer).
Proof.
  intros Hin Hlt. apply literal_out_of_bounds.
  destruct (forallb (in_bounds (view_of buffer)) ps) eqn:E; [|reflexivity].
  rewrite forallb_forall in E. specialize (E p Hin).
  unfold in_bounds in E. apply Nat.leb_le in E. unfold reachable in Hlt. lia.
Qed.

Lemma run_writer_ext (n : nat) (ps : list Access) (d1 d2 : object)
    (target : option BufferArg) :
  (forall k, ToNumber (Get d1 k) = ToNumber (Get d2 k)) ->
  run_writer n ps d1 target = run_writer n ps d2 target.
Proof.
  intros H. unfold run_writer.
  destruct target as [[ab|view ab]|]; unfold bind;
    rewrite (for_of_setters_ext _ d1 d2) by exact H; reflexivity.
Qed.

(** Into a fresh buffer, a writer whose accesses lie within [n] bytes
    never throws. *)
Lemma run_writer_fresh (n : nat) (ps : list Access) (data : object) :
  (forall p, In p ps -> (at_offset p + width (type p) <= n)%nat) ->
  run_writer n ps data None
  = (Normal (write_all (mkDataView 0 n) data ps (new_ArrayBuffer n)),
     write_all (mkDataView 0 n) data ps (new_ArrayBuffer n)).
Proof.
  intros H. unfold run_writer, bind.
  rewrite for_of_setters_ok; [reflexivity|].
  apply forallb_forall. intros p Hp. apply Nat.leb_le. cbn. now apply H.
Qed.

Lemma layout_In (le : bool) (es : list (string * FieldType)) (start : nat)
    (name : string) (ty : FieldType) :
  In (name, ty) es ->
  exists a, In a (layout le es start) /\ key a = name /\ type a = ty.
Proof.
  revert start. induction es as [|[n t] es IH]; intros start; [intros []|].
  intros [[= -> ->]|H].
  - eexists. split; [now left|]. split; reflexivity.
  - destruct (IH (start + width t)%nat H) as (a & Ha & Hk & Ht).
    exists a. split; [now right|]. now split.
Qed.

(** Writing a record through a layout into a fresh buffer and reading
    the buffer back gives each exact value again. *)
Theorem layout_round_trip (le : bool) (es : list (string * FieldType)) (data : object) :
  NoDup (map fst es) -> ~ In "__proto__"%string (map fst es) ->
  exists buf o,
    run_writer (total_width es) (layout le es 0) data None = (Normal buf, buf)
    /\ run_reader (layout le es 0) (IsArrayBuffer buf) = (Normal o, buf)
    /\ forall name ty v,
         In (name, ty) es -> Get data name = Num v -> exact ty v -> Get o name = Num v.
Proof.
  intros Hnd Hproto.
  set (n := total_width es). set (L := layout le es 0).
  set (view := mkDataView 0 n).
  set (buf := write_all view data L (new_ArrayBuffer n)).
  assert (Hrange : forall p, In p L -> (at_offset p + width (type p) <= n)%nat).
  { intros p Hp. apply layout_range in Hp. unfold n. lia. }
  assert (Hlen : length buf = n).
  { unfold buf. rewrite write_all_length.
    - apply repeat_length.
    - intros a Ha. unfold new_ArrayBuffer. rewrite repeat_length.
      specialize (Hrange a Ha). cbn. lia. }
  exists buf, (read_all view buf L []). split; [|split].
  - now apply run_writer_fresh.
  - unfold run_reader. cbn [view_of underlying]. rewrite Hlen. fold view.
    apply literal_ok. apply forallb_forall. intros p Hp. apply Nat.leb_le. cbn.
    now apply Hrange.
  - intros name ty v Hin Hget Hex.
    destruct (layout_In le es 0 name ty Hin) as (a & Ha & <- & <-).
    rewrite read_all_get;
      [|unfold L; now rewrite layout_keys|exact Ha
       |intros E; apply Hproto; rewrite <- E; now apply (in_map fst _ (key a, type a))].
    f_equal. unfold buf, L.
    rewrite (write_all_slice le view data es 0 (new_ArrayBuffer n) a);
      [|unfold new_ArrayBuffer; rewrite repeat_length; cbn; unfold n; lia|exact Ha].
    rewrite Hget. now apply loaded_stored.
Qed.

(** *** Version 2 *)

Lemma V2_declare_eq (es : list (string * FieldType)) (le : option bool) (st0 : V2.Store) :
  V2.declare es le st0
  = V2.reduce es (fst (V2.new le st0)) (snd (V2.new le st0)).
Proof. reflexivity. Qed.

Lemma V2_declare_builder (es : list (string * FieldType)) (le : option bool)
    (st0 : V2.Store) :
  fst (V2.declare es le st0)
  = V2.mkBuilder (total_width es) (length st0) (default_true le).
Proof.
  rewrite V2_declare_eq, V2_reduce_builder. reflexivity.
Qed.

(** The array of the builder holds the fields of the layout of all the
    declarations made so far, those made after [build] included. *)
Lemma V2_declare_fields (es more : list (string * FieldType)) (le : option bool)
    (st0 : V2.Store) :
  let b := fst (V2.declare es le st0) in
  let st := snd (V2.declare es le st0) in
  V2.deref (snd (V2.reduce more b st)) (V2.this_fields b)
  = map field_of (layout (default_true le) (es ++ more) 0).
Proof.
  cbn zeta. rewrite V2_declare_builder.
  destruct (V2_new_fields le st0) as [Hnil Hlt].
  pose proof (V2_reduce_fields es (fst (V2.new le st0)) (snd (V2.new le st0)) Hlt) as H1.
  rewrite Hnil in H1. cbn [app] in H1.
  rewrite <- V2_declare_eq in H1.
  change (V2.this_fields (fst (V2.new le st0))) with (length st0) in H1.
  change (V2.this_size (fst (V2.new le st0))) with 0%nat in H1.
  change (V2.this_littleEndian (fst (V2.new le st0))) with (default_true le) in H1.
  pose proof (V2_reduce_fields more
                (V2.mkBuilder (total_width es) (length st0) (default_true le))
                (snd (V2.declare es le st0))) as H2.
  cbn [V2.this_fields V2.this_size V2.this_littleEndian] in *.
  rewrite H2.
  - rewrite H1. rewrite layout_app, map_app. reflexivity.
  - rewrite V2_declare_eq, V2_reduce_length. exact Hlt.
Qed.

Lemma V2_declare_fields_now (es : list (string * FieldType)) (le : option bool)
    (st0 : V2.Store) :
  V2.deref (snd (V2.declare es le st0)) (V2.this_fields (fst (V2.declare es le st0)))
  = map field_of (layout (default_true le) es 0).
Proof.
  pose proof (V2_declare_fields es [] le st0) as H. cbn in H.
  now rewrite List.app_nil_r in H.
Qed.

Lemma V2_size (es : list (string * FieldType)) (le : option bool) (st0 : V2.Store) :
  V2.struct_size (V2.build (fst (V2.declare es le st0))) = total_width es.
Proof. now rewrite V2_declare_builder. Qed.

End Structs.

(** ** Structs built from declarations *)

Section Declared.

Import FunctionConstructor Template.

Lemma distinct_NoDup (names : list string) : distinct names = true -> NoDup names.
Proof.
  induction names as [|n names IH]; intros H; constructor.
  - cbn in H. apply andb_true_iff in H as [H _]. apply negb_true_iff in H.
    intros Hin. assert (existsb (String.eqb n) names = true); [|congruence].
    apply existsb_exists. exists n. split; [exact Hin|apply String.eqb_refl].
  - cbn in H. apply andb_true_iff in H as [_ H]. now apply IH.
Qed.

Lemma all_identifiers (es : list (string * FieldType)) :
  forallb (fun e => is_identifier_name (fst e)) es = true ->
  Forall (fun e => is_identifier_name (fst e) = true) es.
Proof.
  intros H. apply Forall_forall. intros e He.
  rewrite forallb_forall in H. now apply H.
Qed.

(** [build] after a chain of declarations on a new builder, when every
    name bound in [fieldMap] is read as one identifier. *)
Lemma V1_build_declare (es : list (string * FieldType)) (le : option bool)
    (ps : list Access) :
  compile (bind_entries (layout (default_true le) es 0) (index_map es 0 [])) = Some ps ->
  V1.build (V1.declare es le)
  = Normal (V1.mkStruct (total_width es) (run_reader ps) (run_writer (total_width es) ps)).
Proof.
  intros Hc. unfold V1.declare. rewrite V1_reduce_new.
  pose proof (index_map_valid es 0 [] (Forall_nil _)) as Hv.
  rewrite <- (length_layout (default_true le) es 0) in Hv.
  now apply (V1_build_eq (default_true le)); [exact Hv|apply layout_uniform|].
Qed.

(** The struct that version 1 builds for the benchmark. *)
Lemma ComplexStruct_built :
  V1.build (V1.declare ComplexStruct None)
  = Normal (V1.mkStruct 20 (run_reader (layout true ComplexStruct 0))
                        (run_writer 20 (layout true ComplexStruct 0))).
Proof.
  apply (V1_build_layout ComplexStruct None).
  - apply distinct_NoDup. vm_compute. reflexivity.
  - apply all_identifiers. vm_compute. reflexivity.
Qed.

Lemma offsets_prefix (es : list (string * FieldType)) (start : nat) :
  offsets es start
  = map (fun i => (start + total_width (firstn i es))%nat) (seq 0 (length es)).
Proof.
  revert start. induction es as [|[n t] es IH]; intros start; [reflexivity|].
  cbn [offsets length seq map firstn]. f_equal.
  - change (total_width []) with 0%nat. lia.
  - rewrite IH, <- seq_shift, map_map. apply map_ext. intros i.
    cbn [firstn]. rewrite total_width_cons. lia.
Qed.

Lemma assoc_set_keys {V} (l : list (string * V)) (k : string) (v : V) :
  In k (map fst l) -> map fst (assoc_set l k v) = map fst l.
Proof.
  induction l as [|[k' v'] l IH]; [intros []|].
  cbn [map fst assoc_set]. destruct (String.eqb k' k) eqn:E; [reflexivity|].
  intros [->|Hin]; [now rewrite String.eqb_refl in E|].
  cbn [map fst]. now rewrite IH.
Qed.

End Declared.

Section Rounding.

Import FunctionConstructor Template.

Lemma digits_double (m : positive) : digits (xO m) = digits m + 1.
Proof.
  unfold digits. change (Zpos (xO m)) with (2 * Zpos m).
  rewrite Z.log2_double by lia. lia.
Qed.

Lemma strip_spec (m : positive) (e : Z) :
  Z.odd (Zpos (fst (strip m e))) = true
  /\ e <= snd (strip m e)
  /\ Zpos m = Zpos (fst (strip m e)) * 2 ^ (snd (strip m e) - e)
  /\ digits m = digits (fst (strip m e)) + (snd (strip m e) - e).
Proof.
  destruct (strip_value m e) as [Hle Hv].
  split; [|split; [exact Hle|split; [exact Hv|]]].
  - clear. revert e. induction m as [m IH|m IH|]; intros e; cbn [strip fst snd];
      [reflexivity|apply IH|reflexivity].
  - clear. revert e. induction m as [m IH|m IH|]; intros e; cbn [strip fst snd]; [lia| |lia].
    rewrite digits_double, (IH (e + 1)). lia.
Qed.

Lemma dyadic_spec (neg : bool) (z e : Z) :
  0 < z ->
  exists m' e',
    dyadic neg z e = Finite neg m' e'
    /\ Z.odd (Zpos m') = true /\ e <= e'
    /\ z = Zpos m' * 2 ^ (e' - e)
    /\ Z.log2 z + 1 = digits m' + (e' - e).
Proof.
  intros Hz. destruct z as [|p|p]; try lia.
  destruct (strip_spec p e) as (Ho & Hle & Hv & Hd).
  unfold dyadic. destruct (strip p e) as [m' e'] eqn:E. cbn [fst snd] in *.
  exists m', e'. repeat split; try assumption.
Qed.

(** Every integer is reduced modulo [2^bits] by the conversion. *)
Lemma ToUint_wrap (bits z : Z) : ToUint bits (Number_of_Z z) = z mod 2 ^ bits.
Proof.
  destruct z as [|p|p]; [symmetry; apply Zmod_0_l| |].
  - unfold Number_of_Z, dyadic.
    destruct (strip_value p 0) as [Hle Hv].
    destruct (strip p 0) as [m e] eqn:Es. cbn [fst snd] in *.
    unfold ToUint, truncate.
    destruct (0 <=? e) eqn:He; [|apply Z.leb_gt in He; lia].
    rewrite Z.sub_0_r in Hv. now rewrite <- Hv.
  - unfold Number_of_Z, dyadic.
    destruct (strip_value p 0) as [Hle Hv].
    destruct (strip p 0) as [m e] eqn:Es. cbn [fst snd] in *.
    unfold ToUint, truncate.
    destruct (0 <=? e) eqn:He; [|apply Z.leb_gt in He; lia].
    rewrite Z.sub_0_r in Hv. now rewrite <- Hv.
Qed.

Lemma digits_le (m : positive) (n : Z) : Zpos m < 2 ^ n -> digits m <= n.
Proof.
  intros H. unfold digits.
  destruct (Z.le_gt_cases n 0) as [Hn|Hn].
  - assert (2 ^ n <= 2 ^ 0) by (apply Z.pow_le_mono_r; lia). cbn in *. lia.
  - apply Z.log2_lt_pow2 in H; lia.
Qed.

Lemma odd_pow2 (m : positive) (j : Z) :
  Z.odd (Zpos m) = true -> 0 <= j -> Zpos m * 2 ^ j = 2 ^ 24 -> m = 1%positive.
Proof.
  intros Ho Hj H.
  assert (Hd : digits m + j = 25).
  { pose proof (Z.log2_mul_pow2 (Zpos m) j ltac:(lia) Hj) as HL.
    rewrite H in HL. rewrite Z.log2_pow2 in HL by lia. unfold digits. lia. }
  destruct (digits_spec m) as [[Hlo Hhi] H1].
  assert (Hj24 : j <= 24) by lia.
  assert (Hm : Zpos m = 2 ^ (24 - j)).
  { assert (2 ^ 24 = 2 ^ (24 - j) * 2 ^ j) as E
      by (rewrite <- Z.pow_add_r by lia; f_equal; lia).
    rewrite E in H. apply Z.mul_reg_r in H; [exact H|].
    assert (0 < 2 ^ j) by (apply Z.pow_pos_nonneg; lia). lia. }
  destruct (Z.eq_dec j 24) as [->|Hne].
  - cbn in Hm. congruence.
  - rewrite Hm in Ho. rewrite Z.odd_pow in Ho by lia. discriminate.
Qed.

(** The conversion to float32 gives a float32 value. *)
Lemma round_float32_is_float32 (neg : bool) (m : positive) (e : Z) :
  Z.odd (Zpos m) = true -> is_float32 (round_float32 neg m e).
Proof.
  intros Hodd. unfold round_float32.
  destruct (digits_spec m) as [[Hlo Hhi] Hd1].
  set (q := Z.max (e + digits m - 24) (-149)).
  destruct (q <=? e) eqn:Hq.
  - apply Z.leb_le in Hq. unfold overflows.
    destruct (128 <? e + digits m) eqn:Ho; [exact I|].
    apply Z.ltb_ge in Ho. cbn. repeat split; [exact Hodd|lia|lia|lia].
  - apply Z.leb_gt in Hq. cbn zeta.
    set (k := q - e). set (mq := Zpos m / 2 ^ k).
    set (up := _ || _).
    assert (Hk : 0 < k) by (unfold k; lia).
    assert (H2k : 0 < 2 ^ k) by (apply Z.pow_pos_nonneg; lia).
    assert (Hmq : 0 <= mq < 2 ^ 24).
    { unfold mq. split; [apply Z.div_pos; lia|].
      apply Z.div_lt_upper_bound; [exact H2k|].
      apply Z.lt_le_trans with (2 ^ digits m); [exact Hhi|].
      rewrite <- Z.pow_add_r by lia. apply Z.pow_le_mono_r; unfold k; lia. }
    destruct (if up then mq + 1 else mq) as [|mr|mr] eqn:Emr; [exact I| |exact I].
    assert (Hmr : Zpos mr <= 2 ^ 24) by (destruct up; lia).
    destruct (strip_spec mr q) as (Ho' & Hle & Hv & Hd).
    destruct (strip mr q) as [m' e'] eqn:Es. cbn [fst snd] in *.
    unfold overflows. destruct (128 <? e' + digits m') eqn:Hov; [exact I|].
    apply Z.ltb_ge in Hov. cbn. repeat split; [exact Ho'| |unfold q in *; lia|lia].
    destruct (Z.eq_dec (Zpos mr) (2 ^ 24)) as [E|E].
    + rewrite E in Hv. symmetry in Hv. apply odd_pow2 in Hv; [|exact Ho'|lia].
      subst m'. cbn. lia.
    + assert (digits mr <= 24) by (apply digits_le; lia). lia.
Qed.

Lemma ToFloat32_is_float32 (v : number) : is_double v -> is_float32 (ToFloat32 v).
Proof.
  destruct v as [|neg|neg|neg m e]; try easy.
  intros (Ho & _). now apply round_float32_is_float32.
Qed.

(** What [getFloat32] returns is a float32 value, whatever the word. *)
Lemma float32_of_bits_is_float32 (z : Z) : is_float32 (float32_of_bits z).
Proof.
  unfold float32_of_bits.
  set (neg := Z.testbit z 31).
  set (ex := (z / 2 ^ 23) mod 2 ^ 8). set (fr := z mod 2 ^ 23).
  assert (Hex : 0 <= ex < 2 ^ 8) by (apply Z.mod_pos_bound; lia).
  assert (Hfr : 0 <= fr < 2 ^ 23) by (apply Z.mod_pos_bound; lia).
  destruct (ex =? 255) eqn:E255; [destruct (fr =? 0); exact I|].
  apply Z.eqb_neq in E255.
  destruct (ex =? 0) eqn:E0.
  - destruct (Z.eq_dec fr 0) as [->|Hnz]; [exact I|].
    destruct (dyadic_spec neg fr (-149) ltac:(lia)) as (m' & e' & -> & Ho & Hle & Hv & Hd).
    assert (Z.log2 fr < 23) by (apply Z.log2_lt_pow2; lia).
    destruct (digits_spec m') as [_ H1].
    cbn. repeat split; [exact Ho|lia|lia|lia].
  - apply Z.eqb_neq in E0.
    destruct (dyadic_spec neg (2 ^ 23 + fr) (ex - 150) ltac:(lia))
      as (m' & e' & -> & Ho & Hle & Hv & Hd).
    assert (Z.log2 (2 ^ 23 + fr) = 23).
    { apply Z.log2_unique; [lia|]. change (2 ^ Z.succ 23) with (2 * 2 ^ 23). lia. }
    destruct (digits_spec m') as [_ H1].
    change (2 ^ 8) with 256 in Hex.
    cbn. repeat split; [exact Ho|lia|lia|lia].
Qed.

Lemma word_fields (z : Z) :
  0 <= z < 2 ^ 32 ->
  z = sign_bit (Z.testbit z 31) + (z / 2 ^ 23) mod 2 ^ 8 * 2 ^ 23 + z mod 2 ^ 23.
Proof.
  intros Hz.
  assert (Hb : Z.b2z (Z.testbit z 31) = (z / 2 ^ 31) mod 2) by (apply Z.testbit_spec'; lia).
  unfold sign_bit.
  change (2 ^ 8) with 256 in *. change (2 ^ 23) with 8388608 in *.
  change (2 ^ 31) with 2147483648 in *. change (2 ^ 32) with 4294967296 in *.
  destruct (Z.testbit z 31); cbn [Z.b2z] in Hb; Z.div_mod_to_equations; lia.
Qed.

(** A word that is not one of a NaN is the word of the value it is read as. *)
Lemma float32_bits_of_bits (z : Z) :
  0 <= z < 2 ^ 32 -> float32_of_bits z <> NaN -> float32_bits (float32_of_bits z) = z.
Proof.
  intros Hz. pose proof (word_fields z Hz) as Hw. revert Hw.
  unfold float32_of_bits.
  set (neg := Z.testbit z 31).
  set (ex := (z / 2 ^ 23) mod 2 ^ 8). set (fr := z mod 2 ^ 23).
  assert (Hex : 0 <= ex < 2 ^ 8) by (apply Z.mod_pos_bound; lia).
  assert (Hfr : 0 <= fr < 2 ^ 23) by (apply Z.mod_pos_bound; lia).
  intros Hw.
  destruct (ex =? 255) eqn:E255.
  - apply Z.eqb_eq in E255. destruct (fr =? 0) eqn:F0; [|congruence].
    apply Z.eqb_eq in F0. intros _. cbn [float32_bits]. rewrite Hw, E255, F0. lia.
  - apply Z.eqb_neq in E255. intros _.
    destruct (ex =? 0) eqn:E0.
    + apply Z.eqb_eq in E0.
      destruct (Z.eq_dec fr 0) as [F0|Hnz].
      * rewrite F0. cbn [dyadic float32_bits]. rewrite Hw, E0, F0. lia.
      * destruct (dyadic_spec neg fr (-149) ltac:(lia)) as (m' & e' & -> & Ho & Hle & Hv & Hd).
        assert (Z.log2 fr < 23) by (apply Z.log2_lt_pow2; lia).
        unfold float32_bits.
        destruct (-126 <=? e' + digits m' - 1) eqn:Hn; [apply Z.leb_le in Hn; lia|].
        replace (e' + 149) with (e' - -149) by lia. rewrite <- Hv.
        lia.
    + apply Z.eqb_neq in E0.
      destruct (dyadic_spec neg (2 ^ 23 + fr) (ex - 150) ltac:(lia))
        as (m' & e' & -> & Ho & Hle & Hv & Hd).
      assert (HL : Z.log2 (2 ^ 23 + fr) = 23).
      { apply Z.log2_unique; [lia|]. change (2 ^ Z.succ 23) with (2 * 2 ^ 23). lia. }
      unfold float32_bits.
      destruct (-126 <=? e' + digits m' - 1) eqn:Hn; [|apply Z.leb_gt in Hn; lia].
      replace (24 - digits m') with (e' - (ex - 150)) by lia. rewrite <- Hv.
      replace (e' + digits m' - 1 + 127) with ex by lia. lia.
Qed.

End Rounding.

Section Splicing.

Import FunctionConstructor Template.

Lemma nth_error_slice_one (ab : ArrayBuffer) (i : nat) :
  nth_error ab i = nth_error (slice ab i 1) 0.
Proof. rewrite nth_error_slice. cbn. now rewrite Nat.add_0_r. Qed.

Lemma slice_nth_error (ab : ArrayBuffer) (pos w i : nat) :
  (i < w)%nat -> nth_error ab (pos + i) = nth_error (slice ab pos w) i.
Proof.
  intros H. rewrite nth_error_slice.
  destruct (i <? w)%nat eqn:E; [reflexivity|apply Nat.ltb_ge in E; lia].
Qed.

Lemma length_slice (ab : ArrayBuffer) (pos w : nat) :
  (pos + w <= length ab)%nat -> length (slice ab pos w) = w.
Proof.
  intros H. unfold slice. rewrite length_firstn, length_skipn. lia.
Qed.

(** The bytes of a spliced list, read inside the splice. *)
Lemma slice_splice_inside (ab : ArrayBuffer) (pos : nat) (bs : list byte) (pos' w : nat) :
  (pos + length bs <= length ab)%nat -> (pos' + w <= length bs)%nat ->
  slice (splice ab pos bs) (pos + pos') w = slice bs pos' w.
Proof.
  intros H1 H2. apply nth_error_ext. intros i.
  rewrite !nth_error_slice.
  destruct (i <? w)%nat eqn:E; [|reflexivity]. apply Nat.ltb_lt in E.
  rewrite nth_error_splice by exact H1.
  destruct ((pos <=? pos + pos' + i) && (pos + pos' + i <? pos + length bs))%nat eqn:B.
  - f_equal. lia.
  - apply andb_false_iff in B as [B|B]; [apply Nat.leb_gt in B|apply Nat.ltb_ge in B]; lia.
Qed.

Lemma slice_all (bs : list byte) : slice bs 0 (length bs) = bs.
Proof. unfold slice. cbn. apply firstn_all. Qed.

Lemma splice_slice (ab : ArrayBuffer) (pos w : nat) :
  (pos + w <= length ab)%nat -> splice ab pos (slice ab pos w) = ab.
Proof.
  intros H. apply nth_error_ext. intros i.
  rewrite nth_error_splice by (rewrite length_slice by exact H; exact H).
  rewrite length_slice by exact H.
  destruct ((pos <=? i) && (i <? pos + w))%nat eqn:B; [|reflexivity].
  apply andb_true_iff in B as [B1 B2]. apply Nat.leb_le in B1. apply Nat.ltb_lt in B2.
  rewrite <- slice_nth_error by lia. f_equal. lia.
Qed.

Lemma splice_splice (ab : ArrayBuffer) (pos : nat) (bs cs : list byte) :
  (pos + length bs <= length ab)%nat -> length cs = length bs ->
  splice (splice ab pos bs) pos cs = splice ab pos cs.
Proof.
  intros H Hl. apply nth_error_ext. intros i.
  rewrite nth_error_splice by (rewrite length_splice by exact H; lia).
  rewrite (nth_error_splice ab pos cs) by lia.
  destruct ((pos <=? i) && (i <? pos + length cs))%nat eqn:B; [reflexivity|].
  rewrite nth_error_splice by exact H. rewrite <- Hl, B. reflexivity.
Qed.

End Splicing.

Section Loops.

Import FunctionConstructor Template.

Variable view : DataView.

(** The loop of stores stops at the first access that does not fit the
    view; the stores made before it remain. *)
Lemma for_of_setters_stop (data : object) (pre post : list Access) (a : Access)
    (ab : ArrayBuffer) :
  forallb (in_bounds view) pre = true -> in_bounds view a = false ->
  for_of (pre ++ a :: post) (fun s => call_setter view s (Get data (key s))) ab
  = (Throw RangeError, write_all view data pre ab).
Proof.
  revert ab. induction pre as [|p pre IH]; intros ab Hpre Ha.
  - cbn [app for_of]. unfold bind. rewrite call_setter_eq, Ha. reflexivity.
  - cbn [forallb] in Hpre. apply andb_true_iff in Hpre as [Hp Hpre].
    cbn [app for_of]. unfold bind at 1. rewrite call_setter_eq, Hp.
    rewrite write_all_cons. now apply IH.
Qed.

Lemma for_of_setters_throw (data : object) (stmts : list Access) (ab : ArrayBuffer) :
  forallb (in_bounds view) stmts = false ->
  fst (for_of stmts (fun s => call_setter view s (Get data (key s))) ab) = Throw RangeError.
Proof.
  revert ab. induction stmts as [|s stmts IH]; intros ab H; [discriminate|].
  cbn [forallb] in H. cbn [for_of]. unfold bind at 1. rewrite call_setter_eq.
  destruct (in_bounds view s); [|reflexivity].
  cbn [andb] in H. now apply IH.
Qed.

Lemma read_all_ext (view' : DataView) (ab ab' : ArrayBuffer) (props : list Access)
    (o : object) :
  (forall a, In a props ->
     slice ab (byteOffset view + at_offset a) (width (type a))
     = slice ab' (byteOffset view' + at_offset a) (width (type a))) ->
  read_all view ab props o = read_all view' ab' props o.
Proof.
  revert o. induction props as [|p props IH]; intros o H; [reflexivity|].
  rewrite !read_all_cons. rewrite (H p) by now left.
  apply IH. intros a Ha. apply H. now right.
Qed.

End Loops.

Section Coverage.

Import FunctionConstructor Template.

Variable littleEndian : bool.

Lemma firstn_snoc_nth {A} (l : list A) (i : nat) (x : A) :
  nth_error l i = Some x -> firstn (S i) l = firstn i l ++ [x].
Proof.
  revert i. induction l as [|y l IH]; intros [|i] H; try discriminate.
  - cbn in H. injection H as ->. reflexivity.
  - cbn [firstn app]. f_equal. now apply IH.
Qed.

Lemma total_width_firstn_S (es : list (string * FieldType)) (i : nat) (n : string)
    (t : FieldType) :
  nth_error es i = Some (n, t) ->
  total_width (firstn (S i) es) = (total_width (firstn i es) + width t)%nat.
Proof.
  intros H. rewrite (firstn_snoc_nth _ _ _ H), total_width_app.
  rewrite total_width_cons. change (total_width []) with 0%nat. lia.
Qed.

Lemma total_width_firstn_le (es : list (string * FieldType)) (i : nat) :
  (total_width (firstn i es) <= total_width es)%nat.
Proof.
  rewrite <- (firstn_skipn i es) at 2. rewrite total_width_app. lia.
Qed.

Lemma total_width_firstn_mono (es : list (string * FieldType)) (i j : nat) :
  (i <= j)%nat -> (total_width (firstn i es) <= total_width (firstn j es))%nat.
Proof.
  intros H. replace i with (Nat.min i j) by lia.
  rewrite <- firstn_firstn. apply total_width_firstn_le.
Qed.

(** The access of the field declared at position [i]. *)
Lemma layout_nth (es : list (string * FieldType)) (start i : nat) :
  nth_error (layout littleEndian es start) i
  = option_map
      (fun e => mkAccess (fst e) (snd e) (start + total_width (firstn i es)) littleEndian)
      (nth_error es i).
Proof.
  revert start i. induction es as [|[n t] es IH]; intros start [|i]; try reflexivity.
  - cbn. unfold total_width. cbn. now rewrite Nat.add_0_r.
  - cbn [layout nth_error firstn]. rewrite IH, total_width_cons.
    destruct (nth_error es i); [|reflexivity]. cbn. f_equal. f_equal. lia.
Qed.

Lemma width_pos (t : FieldType) : (0 < width t)%nat.
Proof. destruct t; cbn; lia. Qed.

(** Every byte of the struct belongs to a field. *)
Lemma layout_covers (es : list (string * FieldType)) (start j : nat) :
  (j < total_width es)%nat ->
  exists a, In a (layout littleEndian es start)
            /\ (at_offset a <= start + j < at_offset a + width (type a))%nat.
Proof.
  revert start j. induction es as [|[n t] es IH]; intros start j H.
  - unfold total_width in H. cbn in H. lia.
  - rewrite total_width_cons in H.
    destruct (Nat.lt_ge_cases j (width t)) as [Hj|Hj].
    + eexists. split; [now left|]. cbn. lia.
    + destruct (IH (start + width t)%nat (j - width t)%nat ltac:(lia)) as (a & Ha & Hr).
      exists a. split; [now right|]. lia.
Qed.

Variable data : object.

(** Writing through a view is writing into a fresh buffer and copying
    the bytes to the place of the view. *)
Lemma write_all_splice (es : list (string * FieldType)) (view : DataView)
    (ab : ArrayBuffer) :
  let n := total_width es in
  let L := layout littleEndian es 0 in
  (byteOffset view + n <= length ab)%nat ->
  write_all view data L ab
  = splice ab (byteOffset view) (write_all (mkDataView 0 n) data L (new_ArrayBuffer n)).
Proof.
  intros n L Hfit.
  set (image := write_all (mkDataView 0 n) data L (new_ArrayBuffer n)).
  assert (Hrange : forall a, In a L -> (at_offset a + width (type a) <= n)%nat).
  { intros a Ha. apply layout_range in Ha. unfold n. lia. }
  assert (Hlen : length image = n).
  { unfold image. rewrite write_all_length; [apply repeat_length|].
    intros a Ha. unfold new_ArrayBuffer. rewrite repeat_length.
    specialize (Hrange a Ha). cbn. lia. }
  apply nth_error_ext. intros i.
  rewrite nth_error_splice by lia. rewrite Hlen.
  destruct ((byteOffset view <=? i) && (i <? byteOffset view + n))%nat eqn:B.
  - apply andb_true_iff in B as [B1 B2]. apply Nat.leb_le in B1. apply Nat.ltb_lt in B2.
    destruct (layout_covers es 0 (i - byteOffset view) ltac:(fold n; lia)) as (a & Ha & Hr).
    fold L in Ha. cbn [Nat.add] in Hr.
    set (j := (i - byteOffset view - at_offset a)%nat).
    transitivity (nth_error (stored a (Get data (key a))) j).
    + replace i with (byteOffset view + at_offset a + j)%nat by (unfold j; lia).
      rewrite (slice_nth_error _ _ (width (type a))) by (unfold j; lia).
      unfold L. rewrite (write_all_slice littleEndian view data es 0 ab a);
        [reflexivity|fold n; lia|exact Ha].
    + replace (i - byteOffset view)%nat
        with (byteOffset (mkDataView 0 n) + at_offset a + j)%nat by (unfold j; cbn; lia).
      rewrite (slice_nth_error _ _ (width (type a))) by (unfold j; lia).
      unfold image, L.
      rewrite (write_all_slice littleEndian (mkDataView 0 n) data es 0 (new_ArrayBuffer n) a);
        [reflexivity| |exact Ha].
      unfold new_ArrayBuffer. rewrite repeat_length. cbn. fold n. lia.
  - rewrite (nth_error_slice_one (write_all _ _ _ _)), (nth_error_slice_one ab).
    f_equal. apply write_all_frame. intros a Ha. specialize (Hrange a Ha).
    split; [lia|].
    apply andb_false_iff in B as [B|B]; [apply Nat.leb_gt in B|apply Nat.ltb_ge in B]; lia.
Qed.

Lemma length_image (es : list (string * FieldType)) :
  length (write_all (mkDataView 0 (total_width es)) data (layout littleEndian es 0)
            (new_ArrayBuffer (total_width es))) = total_width es.
Proof.
  rewrite write_all_length; [apply repeat_length|].
  intros a Ha. unfold new_ArrayBuffer. rewrite repeat_length.
  apply layout_range in Ha. cbn. lia.
Qed.

End Coverage.

Section Identifiers.

Import FunctionConstructor Template.

Lemma assoc_set_keys_In {V} (l : list (string * V)) (k k' : string) (v : V) :
  In k' (map fst (assoc_set l k v)) <-> k' = k \/ In k' (map fst l).
Proof.
  induction l as [|[k0 v0] l IH]; cbn.
  - intuition.
  - destruct (String.eqb k0 k) eqn:E.
    + apply String.eqb_eq in E. subst k0. cbn. intuition.
    + cbn. rewrite IH. intuition.
Qed.

Lemma assoc_set_NoDup {V} (l : list (string * V)) (k : string) (v : V) :
  NoDup (map fst l) -> NoDup (map fst (assoc_set l k v)).
Proof.
  induction l as [|[k0 v0] l IH]; intros H; cbn.
  - repeat constructor. intros [].
  - destruct (String.eqb k0 k) eqn:E; [exact H|].
    apply String.eqb_neq in E. cbn in *. inversion H as [|? ? Hn Hnd]; subst.
    constructor; [|now apply IH].
    rewrite assoc_set_keys_In. intros [->|Hin]; [congruence|contradiction].
Qed.

Lemma assoc_set_In_inv {V} (l : list (string * V)) (k : string) (v : V) (k' : string)
    (v' : V) :
  NoDup (map fst l) -> In (k', v') (assoc_set l k v) ->
  (k' = k /\ v' = v) \/ (k' <> k /\ In (k', v') l).
Proof.
  induction l as [|[k0 v0] l IH]; intros Hnd Hin; cbn in Hin.
  - destruct Hin as [[= <- <-]|[]]. now left.
  - cbn in Hnd. inversion Hnd as [|? ? Hn Hnd']; subst.
    destruct (String.eqb k0 k) eqn:E.
    + apply String.eqb_eq in E. subst k0.
      destruct Hin as [[= <- <-]|Hin]; [now left|].
      right. split; [|now right].
      intros ->. apply Hn. now apply (in_map fst _ (k, v')).
    + apply String.eqb_neq in E.
      destruct Hin as [[= <- <-]|Hin].
      * right. split; [exact E|now left].
      * destruct (IH Hnd' Hin) as [H|[H1 H2]]; [now left|].
        right. split; [exact H1|now right].
Qed.

Lemma index_map_snoc (es : list (string * FieldType)) (n : string) (t : FieldType) :
  index_map (es ++ [(n, t)]) 0 [] = assoc_set (index_map es 0 []) n (length es).
Proof. rewrite index_map_app. reflexivity. Qed.

(** What [fieldMap] holds after a chain of declarations: the names
    declared, each once, with the position of its last declaration. *)
Lemma index_map_last_declaration (es : list (string * FieldType)) :
  NoDup (map fst (index_map es 0 []))
  /\ (forall name, In name (map fst (index_map es 0 [])) <-> In name (map fst es))
  /\ forall name i,
       In (name, i) (index_map es 0 []) ->
       (exists ty, nth_error es i = Some (name, ty))
       /\ forall j ty, (i < j)%nat -> nth_error es j <> Some (name, ty).
Proof.
  induction es as [|[n t] es IH] using rev_ind.
  - cbn. split; [constructor|]. split; [tauto|]. intros name i [].
  - destruct IH as (Hnd & Hkeys & Hlast). rewrite index_map_snoc.
    split; [now apply assoc_set_NoDup|]. split.
    + intros name. rewrite assoc_set_keys_In, Hkeys, map_app, in_app_iff. cbn. intuition.
    + intros name i Hin.
      apply (assoc_set_In_inv _ _ _ _ _ Hnd) in Hin as [[-> ->]|[Hne Hin]].
      * split.
        -- exists t. rewrite nth_error_app2 by lia. now rewrite Nat.sub_diag.
        -- intros j ty Hj. assert (nth_error (es ++ [(n, t)]) j = None); [|congruence].
           apply nth_error_None. rewrite length_app. cbn. lia.
      * destruct (Hlast name i Hin) as ((ty & Hn) & Hafter). split.
        -- exists ty. rewrite nth_error_app1; [exact Hn|].
           apply nth_error_Some. congruence.
        -- intros j ty' Hj.
           destruct (Nat.lt_ge_cases j (length es)) as [Hlt|Hge].
           ++ rewrite nth_error_app1 by exact Hlt. now apply Hafter.
           ++ rewrite nth_error_app2 by exact Hge.
              destruct (j - length es)%nat as [|k]; cbn; [congruence|].
              now destruct k.
Qed.

Lemma bind_entries_keys (L : list Access) (fm : list (string * nat)) :
  Forall (fun e => (snd e < length L)%nat) fm ->
  map fst (bind_entries L fm) = map fst fm.
Proof.
  induction fm as [|[name i] fm IH]; intros H; [reflexivity|].
  cbn [bind_entries]. pose proof (Forall_inv H) as Hi. cbn in Hi.
  destruct (nth_error L i) eqn:E; [|apply nth_error_None in E; lia].
  cbn [map fst]. f_equal. apply IH. exact (Forall_inv_tail H).
Qed.

Lemma accesses_identifiers (bound : list (string * Access)) :
  Forall (fun na => is_identifier_name (fst na) = true) bound ->
  accesses bound = Some (map (fun na => rekey (fst na) (snd na)) bound).
Proof.
  induction bound as [|[name a] bound IH]; intros H; [reflexivity|].
  cbn [accesses]. rewrite (identifier_of_name name) by exact (Forall_inv H).
  rewrite IH by exact (Forall_inv_tail H). reflexivity.
Qed.

Lemma index_map_bound (es : list (string * FieldType)) (le : bool) :
  Forall (fun e => (snd e < length (layout le es 0))%nat) (index_map es 0 []).
Proof.
  rewrite length_layout. apply (index_map_valid es 0 []). constructor.
Qed.

(** [build] after declarations under identifier names, repeated or
    not: the struct reads and writes the accesses bound in [fieldMap]. *)
Lemma V1_build_identifiers (es : list (string * FieldType)) (le : option bool) :
  Forall (fun e => is_identifier_name (fst e) = true) es ->
  V1.build (V1.declare es le)
  = Normal (V1.mkStruct (total_width es)
              (run_reader (bound_accesses (default_true le) es))
              (run_writer (total_width es) (bound_accesses (default_true le) es)))
  /\ NoDup (map key (bound_accesses (default_true le) es)).
Proof.
  intros Hid. unfold bound_accesses.
  set (L := layout (default_true le) es 0).
  set (fm := index_map es 0 []).
  pose proof (index_map_bound es (default_true le)) as Hb. fold L fm in Hb.
  destruct (index_map_last_declaration es) as (Hnd & Hkeys & _). fold fm in Hnd, Hkeys.
  assert (Hids : Forall (fun na => is_identifier_name (fst na) = true) (bind_entries L fm)).
  { apply Forall_forall. intros [name a] Hin.
    assert (Hk : In name (map fst es)).
    { apply Hkeys. rewrite <- (bind_entries_keys L fm Hb).
      now apply (in_map fst _ (name, a)). }
    apply in_map_iff in Hk as ([n t] & <- & Hk).
    rewrite Forall_forall in Hid. apply (Hid _ Hk). }
  assert (Hk : NoDup (map key (map (fun na => rekey (fst na) (snd na)) (bind_entries L fm)))).
  { rewrite map_map. cbn [key rekey].
    change (fun x : string * Access => fst x) with (@fst string Access).
    now rewrite bind_entries_keys. }
  split; [|exact Hk].
  apply V1_build_declare. fold L fm.
  unfold compile. rewrite (accesses_identifiers _ Hids).
  now rewrite proto_once_NoDup.
Qed.

Lemma bound_accesses_In (le : bool) (es : list (string * FieldType)) (p : Access) :
  In p (bound_accesses le es) ->
  exists k t,
    nth_error es k = Some (key p, t)
    /\ p = mkAccess (key p) t (total_width (firstn k es)) le
    /\ forall j t', (k < j)%nat -> nth_error es j <> Some (key p, t').
Proof.
  unfold bound_accesses. intros Hin.
  apply in_map_iff in Hin as ([x a] & <- & Hin). cbn [fst snd key rekey].
  assert (Hk : exists k, In (x, k) (index_map es 0 [])
                         /\ nth_error (layout le es 0) k = Some a).
  { revert Hin. generalize (index_map es 0 []) as fm.
    induction fm as [|[y i] fm IH]; [intros []|].
    cbn [bind_entries]. destruct (nth_error (layout le es 0) i) as [b|] eqn:Eb; [|intros []].
    intros [[= -> ->]|Hin].
    - exists i. split; [now left|exact Eb].
    - destruct (IH Hin) as (k & Hk & Hn). exists k. split; [now right|exact Hn]. }
  destruct Hk as (k & Hk & Hn).
  destruct (index_map_last_declaration es) as (_ & _ & Hlast).
  destruct (Hlast x k Hk) as ((t & Ht) & Hafter).
  exists k, t. split; [exact Ht|]. split; [|exact Hafter].
  rewrite layout_nth, Ht in Hn. cbn in Hn. injection Hn as <-. reflexivity.
Qed.

Lemma bound_accesses_range (le : bool) (es : list (string * FieldType)) (p : Access) :
  In p (bound_accesses le es) -> (at_offset p + width (type p) <= total_width es)%nat.
Proof.
  intros Hin. destruct (bound_accesses_In le es p Hin) as (k & t & Hn & -> & _).
  cbn [at_offset type]. rewrite <- (total_width_firstn_S es k _ t Hn).
  apply total_width_firstn_le.
Qed.

Lemma bound_accesses_last (le : bool) (es : list (string * FieldType)) :
  es <> [] ->
  exists p, In p (bound_accesses le es)
            /\ (at_offset p + width (type p) = total_width es)%nat.
Proof.
  intros Hne. destruct (exists_last Hne) as (es' & [n t] & ->).
  exists (mkAccess n t (total_width es') le). split.
  - unfold bound_accesses.
    apply (in_map (fun na => rekey (fst na) (snd na)) _ (n, mkAccess n t (total_width es') le)).
    apply (bind_entries_nth _ _ n (length es')).
    + apply index_map_bound.
    + apply (index_map_last es' n t 0 []).
    + apply (layout_last le es' n t 0).
  - cbn. rewrite total_width_app, total_width_cons. change (total_width []) with 0%nat. lia.
Qed.

End Identifiers.

Section Writers.

Import FunctionConstructor Template.

Lemma V2_read_later (es more : list (string * FieldType)) (le : option bool)
    (st0 : V2.Store) (buffer : BufferArg) :
  let b := fst (V2.declare es le st0) in
  let st := snd (V2.declare es le st0) in
  V2.struct_read (V2.build b) (snd (V2.reduce more b st)) buffer
  = run_reader (layout (default_true le) (es ++ more) 0) buffer.
Proof.
  cbn zeta. apply V2_struct_read_eq. apply (V2_declare_fields es more le st0).
Qed.

Lemma V2_write_later (es more : list (string * FieldType)) (le : option bool)
    (st0 : V2.Store) (data : object) (target : option BufferArg) :
  let b := fst (V2.declare es le st0) in
  let st := snd (V2.declare es le st0) in
  V2.struct_write (V2.build b) (snd (V2.reduce more b st)) data target
  = run_writer (total_width es) (layout (default_true le) (es ++ more) 0) data target.
Proof.
  cbn zeta.
  rewrite (V2_struct_write_eq _ _ _ data target (V2_declare_fields es more le st0)).
  now rewrite V2_declare_builder.
Qed.

Lemma V2_read_now (es : list (string * FieldType)) (le : option bool)
    (st0 : V2.Store) (buffer : BufferArg) :
  V2.struct_read (V2.build (fst (V2.declare es le st0))) (snd (V2.declare es le st0)) buffer
  = run_reader (layout (default_true le) es 0) buffer.
Proof. apply V2_struct_read_eq, V2_declare_fields_now. Qed.

Lemma V2_write_now (es : list (string * FieldType)) (le : option bool)
    (st0 : V2.Store) (data : object) (target : option BufferArg) :
  V2.struct_write (V2.build (fst (V2.declare es le st0))) (snd (V2.declare es le st0))
                  data target
  = run_writer (total_width es) (layout (default_true le) es 0) data target.
Proof.
  rewrite (V2_struct_write_eq _ _ _ data target (V2_declare_fields_now es le st0)).
  now rewrite V2_declare_builder.
Qed.

Lemma run_writer_Some (n : nat) (ps : list Access) (data : object) (target : BufferArg) :
  run_writer n ps data (Some target)
  = (for_of ps (fun s => call_setter (view_of target) s (Get data (key s))) ;; view_buffer)
      (underlying target).
Proof. now destruct target. Qed.

(** Into a target that all the accesses fit, a writer never throws. *)
Lemma run_writer_target (n : nat) (ps : list Access) (data : object) (target : BufferArg) :
  (forall p, In p ps -> (at_offset p + width (type p) <= reachable target)%nat) ->
  run_writer n ps data (Some target)
  = (Normal (write_all (view_of target) data ps (underlying target)),
     write_all (view_of target) data ps (underlying target)).
Proof.
  intros H. rewrite run_writer_Some. unfold bind.
  rewrite for_of_setters_ok; [reflexivity|].
  apply forallb_forall. intros p Hp. apply Nat.leb_le. now apply H.
Qed.

Lemma view_fits_spec (b : BufferArg) :
  view_fits b = true ->
  (byteOffset (view_of b) + reachable b <= length (underlying b))%nat.
Proof. intros H. apply Nat.leb_le in H. exact H. Qed.

Lemma with_content_view (b : BufferArg) (ab : ArrayBuffer) :
  length ab = length (underlying b) ->
  view_of (with_content b ab) = view_of b /\ underlying (with_content b ab) = ab.
Proof. destruct b; cbn; intros H; rewrite ?H; split; reflexivity. Qed.

(** The image of a record: what a layout writes into a fresh buffer. *)
Lemma run_writer_places (le : bool) (es : list (string * FieldType)) (data : object)
    (target : BufferArg) :
  view_fits target = true -> (total_width es <= reachable target)%nat ->
  let n := total_width es in
  let L := layout le es 0 in
  let image := write_all (mkDataView 0 n) data L (new_ArrayBuffer n) in
  let placed := splice (underlying target) (byteOffset (view_of target)) image in
  length image = n
  /\ run_writer n L data None = (Normal image, image)
  /\ run_writer n L data (Some target) = (Normal placed, placed).
Proof.
  intros Hfit Hlen n L image placed. apply view_fits_spec in Hfit.
  assert (Hrange : forall p, In p L -> (at_offset p + width (type p) <= n)%nat).
  { intros p Hp. apply layout_range in Hp. unfold n. lia. }
  split; [apply length_image|]. split; [now apply run_writer_fresh|].
  rewrite run_writer_target by (intros p Hp; specialize (Hrange p Hp); unfold n in *; lia).
  unfold placed, image, L, n. rewrite <- write_all_splice; [reflexivity|lia].
Qed.

End Writers.

Section Targets.

Import FunctionConstructor Template.

(** X8.  A target is written as a fresh buffer is, at the place of its view:
    the bytes that [write] leaves in the target are the bytes of the
    buffer that [write] without a target returns, copied to the offset
    of the view. *)
Theorem write_places_the_encoding (entries : list (string * FieldType))
    (le : option bool) (st0 : V2.Store) (data : object) (target : BufferArg) :
  view_fits target = true -> (total_width entries <= reachable target)%nat ->
  exists image,
    let placed := splice (underlying target) (byteOffset (view_of target)) image in
    length image = total_width entries
    /\ (let s := V2.build (fst (V2.declare entries le st0)) in
        let st := snd (V2.declare entries le st0) in
        V2.struct_write s st data None = (Normal image, image)
        /\ V2.struct_write s st data (Some target) = (Normal placed, placed))
    /\ (NoDup (map fst entries) ->
        Forall (fun e => is_identifier_name (fst e) = true) entries ->
        exists s,
          V1.build (V1.declare entries le) = Normal s
          /\ V1.struct_write s data None = (Normal image, image)
          /\ V1.struct_write s data (Some target) = (Normal placed, placed)).
Proof.
  intros Hfit Hlen.
  destruct (run_writer_places (default_true le) entries data target Hfit Hlen)
    as (Hl & Hnone & Hsome).
  eexists. cbn zeta. split; [exact Hl|]. split.
  - rewrite !V2_write_now. split; assumption.
  - intros Hnd Hid. eexists. split; [apply (V1_build_layout entries le Hnd Hid)|].
    cbn [V1.struct_write]. split; assumption.
Qed.

(** The struct of the benchmark, through a view at offset 4 of 32 bytes. *)
Lemma write_places_the_encoding_witness :
  (view_fits (IsDataView (mkDataView 4 20) (new_ArrayBuffer 32)) = true
   /\ (total_width ComplexStruct
       <= reachable (IsDataView (mkDataView 4 20) (new_ArrayBuffer 32)))%nat)
  /\ exists image,
       length image = total_width ComplexStruct
       /\ V2.struct_write (V2.build (fst (V2.declare ComplexStruct None [])))
            (snd (V2.declare ComplexStruct None [])) data
            (Some (IsDataView (mkDataView 4 20) (new_ArrayBuffer 32)))
          = (Normal (splice (new_ArrayBuffer 32) 4 image),
             splice (new_ArrayBuffer 32) 4 image).
Proof.
  assert (H1 : view_fits (IsDataView (mkDataView 4 20) (new_ArrayBuffer 32)) = true)
    by (vm_compute; reflexivity).
  assert (H2 : (total_width ComplexStruct
                <= reachable (IsDataView (mkDataView 4 20) (new_ArrayBuffer 32)))%nat)
    by (vm_compute; lia).
  split; [split; assumption|].
  destruct (write_places_the_encoding ComplexStruct None [] data _ H1 H2)
    as (image & Hl & (_ & Hw) & _).
  exists image. split; [exact Hl|exact Hw].
Defined.

Lemma run_writer_twice (le : bool) (es : list (string * FieldType)) (d1 d2 : object)
    (target : BufferArg) :
  view_fits target = true -> (total_width es <= reachable target)%nat ->
  exists ab1 ab2,
    run_writer (total_width es) (layout le es 0) d1 (Some target) = (Normal ab1, ab1)
    /\ run_writer (total_width es) (layout le es 0) d2 (Some (with_content target ab1))
       = (Normal ab2, ab2)
    /\ run_writer (total_width es) (layout le es 0) d2 (Some target) = (Normal ab2, ab2).
Proof.
  intros Hfit Hlen.
  destruct (run_writer_places le es d1 target Hfit Hlen) as (Hl1 & _ & Hw1).
  destruct (run_writer_places le es d2 target Hfit Hlen) as (Hl2 & _ & Hw2).
  cbn zeta in *. pose proof (view_fits_spec _ Hfit) as Hspec.
  set (i1 := write_all _ d1 _ _) in *. set (i2 := write_all _ d2 _ _) in *.
  set (ab1 := splice (underlying target) (byteOffset (view_of target)) i1) in *.
  assert (Hlab : length ab1 = length (underlying target))
    by (unfold ab1; apply length_splice; lia).
  destruct (with_content_view target ab1 Hlab) as [Hv Hu].
  exists ab1, (splice (underlying target) (byteOffset (view_of target)) i2).
  split; [exact Hw1|]. split; [|exact Hw2].
  assert (Hfit' : view_fits (with_content target ab1) = true).
  { unfold view_fits. rewrite Hv, Hu, Hlab. exact Hfit. }
  assert (Hlen' : (total_width es <= reachable (with_content target ab1))%nat).
  { unfold reachable. rewrite Hv. exact Hlen. }
  destruct (run_writer_places le es d2 _ Hfit' Hlen') as (_ & _ & Hw).
  cbn zeta in Hw. fold i2 in Hw. rewrite Hw, Hv, Hu. unfold ab1.
  rewrite splice_splice by lia. reflexivity.
Qed.

(** X10.  A second [write] into the same target erases the first: the target
    is left as by the second [write] alone.  In particular writing the
    same record twice is writing it once. *)
Theorem write_overwrites (entries : list (string * FieldType)) (le : option bool)
    (st0 : V2.Store) (data1 data2 : object) (target : BufferArg) :
  view_fits target = true -> (total_width entries <= reachable target)%nat ->
  (let s := V2.build (fst (V2.declare entries le st0)) in
   let st := snd (V2.declare entries le st0) in
   exists ab1 ab2,
     V2.struct_write s st data1 (Some target) = (Normal ab1, ab1)
     /\ V2.struct_write s st data2 (Some (with_content target ab1)) = (Normal ab2, ab2)
     /\ V2.struct_write s st data2 (Some target) = (Normal ab2, ab2))
  /\ (NoDup (map fst entries) ->
      Forall (fun e => is_identifier_name (fst e) = true) entries ->
      exists s ab1 ab2,
        V1.build (V1.declare entries le) = Normal s
        /\ V1.struct_write s data1 (Some target) = (Normal ab1, ab1)
        /\ V1.struct_write s data2 (Some (with_content target ab1)) = (Normal ab2, ab2)
        /\ V1.struct_write s data2 (Some target) = (Normal ab2, ab2)).
Proof.
  intros Hfit Hlen.
  destruct (run_writer_twice (default_true le) entries data1 data2 target Hfit Hlen)
    as (ab1 & ab2 & H1 & H2 & H3).
  split.
  - cbn zeta. exists ab1, ab2. rewrite !V2_write_now. now repeat split.
  - intros Hnd Hid. eexists. exists ab1, ab2.
    split; [apply (V1_build_layout entries le Hnd Hid)|].
    cbn [V1.struct_write]. now repeat split.
Qed.

(** The record of the benchmark written over the one without [type]. *)
Lemma write_overwrites_witness :
  (view_fits (IsArrayBuffer (new_ArrayBuffer 24)) = true
   /\ (total_width ComplexStruct <= reachable (IsArrayBuffer (new_ArrayBuffer 24)))%nat)
  /\ exists ab1 ab2,
       V2.struct_write (V2.build (fst (V2.declare ComplexStruct None [])))
         (snd (V2.declare ComplexStruct None [])) data_without_type
         (Some (IsArrayBuffer (new_ArrayBuffer 24))) = (Normal ab1, ab1)
       /\ V2.struct_write (V2.build (fst (V2.declare ComplexStruct None [])))
            (snd (V2.declare ComplexStruct None [])) data
            (Some (with_content (IsArrayBuffer (new_ArrayBuffer 24)) ab1))
          = (Normal ab2, ab2)
       /\ V2.struct_write (V2.build (fst (V2.declare ComplexStruct None [])))
            (snd (V2.declare ComplexStruct None [])) data
            (Some (IsArrayBuffer (new_ArrayBuffer 24))) = (Normal ab2, ab2).
Proof.
  assert (H1 : view_fits (IsArrayBuffer (new_ArrayBuffer 24)) = true)
    by (vm_compute; reflexivity).
  assert (H2 : (total_width ComplexStruct
                <= reachable (IsArrayBuffer (new_ArrayBuffer 24)))%nat)
    by (vm_compute; lia).
  split; [split; assumption|].
  exact (proj1 (write_overwrites ComplexStruct None [] data_without_type data _ H1 H2)).
Defined.

Lemma run_writer_rest (n : nat) (ps : list Access) (data : object) (target : BufferArg) :
  view_fits target = true -> (n <= reachable target)%nat ->
  (forall p, In p ps -> (at_offset p + width (type p) <= n)%nat) ->
  exists ab',
    run_writer n ps data (Some target) = (Normal ab', ab')
    /\ length ab' = length (underlying target)
    /\ forall pos w,
         (pos + w <= byteOffset (view_of target)
          \/ byteOffset (view_of target) + n <= pos)%nat ->
         slice ab' pos w = slice (underlying target) pos w.
Proof.
  intros Hfit Hlen Hrange. apply view_fits_spec in Hfit.
  eexists. split; [|split].
  - apply run_writer_target. intros p Hp. specialize (Hrange p Hp). lia.
  - apply write_all_length. intros a Ha. specialize (Hrange a Ha). lia.
  - intros pos w Hout. apply write_all_frame. intros a Ha. specialize (Hrange a Ha). lia.
Qed.

(** X9.  [write] touches the bytes of the struct only: a target that is long
    enough keeps its length and every byte outside the [size] bytes at
    the offset of the view.  This holds for version 2 whatever the names
    are, and for version 1 when they are identifier names. *)
Theorem write_leaves_the_rest (entries : list (string * FieldType)) (le : option bool)
    (st0 : V2.Store) (data : object) (target : BufferArg) :
  view_fits target = true ->
  (Forall (fun e => is_identifier_name (fst e) = true) entries ->
   exists s,
     V1.build (V1.declare entries le) = Normal s
     /\ ((V1.struct_size s <= reachable target)%nat ->
         exists ab',
           V1.struct_write s data (Some target) = (Normal ab', ab')
           /\ length ab' = length (underlying target)
           /\ forall i,
                (i < byteOffset (view_of target)
                 \/ byteOffset (view_of target) + V1.struct_size s <= i)%nat ->
                nth_error ab' i = nth_error (underlying target) i))
  /\ (let s := V2.build (fst (V2.declare entries le st0)) in
      let st := snd (V2.declare entries le st0) in
      (V2.struct_size s <= reachable target)%nat ->
      exists ab',
        V2.struct_write s st data (Some target) = (Normal ab', ab')
        /\ length ab' = length (underlying target)
        /\ forall i,
             (i < byteOffset (view_of target)
              \/ byteOffset (view_of target) + V2.struct_size s <= i)%nat ->
             nth_error ab' i = nth_error (underlying target) i).
Proof.
  intros Hfit. split.
  - intros Hid. destruct (V1_build_identifiers entries le Hid) as [Hb _].
    eexists. split; [exact Hb|].
    cbn [V1.struct_size V1.struct_write]. intros Hlen.
    destruct (run_writer_rest _ _ data target Hfit Hlen
                (bound_accesses_range (default_true le) entries))
      as (ab' & Hw & Hl & Hf).
    exists ab'. split; [exact Hw|]. split; [exact Hl|].
    intros i Hi. rewrite (nth_error_slice_one ab'), (nth_error_slice_one (underlying target)).
    f_equal. apply Hf. lia.
  - cbn zeta. rewrite V2_size. intros Hlen.
    assert (Hrange : forall p, In p (layout (default_true le) entries 0) ->
                               (at_offset p + width (type p) <= total_width entries)%nat).
    { intros p Hp. apply layout_range in Hp. lia. }
    destruct (run_writer_rest _ _ data target Hfit Hlen Hrange) as (ab' & Hw & Hl & Hf).
    exists ab'. rewrite V2_write_now. split; [exact Hw|]. split; [exact Hl|].
    intros i Hi. rewrite (nth_error_slice_one ab'), (nth_error_slice_one (underlying target)).
    f_equal. apply Hf. lia.
Qed.

(** The struct of the benchmark, through a view at offset 4 of 32 bytes, in version 1. *)
Lemma write_leaves_the_rest_witness :
  (view_fits (IsDataView (mkDataView 4 20) (new_ArrayBuffer 32)) = true
   /\ Forall (fun e => is_identifier_name (fst e) = true) ComplexStruct)
  /\ exists s ab',
       V1.build (V1.declare ComplexStruct None) = Normal s
       /\ (V1.struct_size s <= reachable (IsDataView (mkDataView 4 20) (new_ArrayBuffer 32)))%nat
       /\ V1.struct_write s data (Some (IsDataView (mkDataView 4 20) (new_ArrayBuffer 32)))
          = (Normal ab', ab')
       /\ length ab' = 32%nat.
Proof.
  assert (H1 : view_fits (IsDataView (mkDataView 4 20) (new_ArrayBuffer 32)) = true)
    by (vm_compute; reflexivity).
  assert (Hid : Forall (fun e => is_identifier_name (fst e) = true) ComplexStruct)
    by (apply all_identifiers; vm_compute; reflexivity).
  split; [split; assumption|].
  destruct (proj1 (write_leaves_the_rest ComplexStruct None [] data _ H1) Hid)
    as (s & Hb & Hrest).
  assert (H2 : (V1.struct_size s
                <= reachable (IsDataView (mkDataView 4 20) (new_ArrayBuffer 32)))%nat).
  { rewrite ComplexStruct_built in Hb. injection Hb as <-.
    cbn [V1.struct_size]. vm_compute. lia. }
  destruct (Hrest H2) as (ab' & Hw & Hl & _).
  exists s, ab'. split; [exact Hb|].
  split; [exact H2|]. split; [exact Hw|exact Hl].
Defined.

(** The first declaration that does not fit in [len] bytes. *)
Lemma first_overflow (es : list (string * FieldType)) (len : nat) :
  (len < total_width es)%nat ->
  exists k n t,
    nth_error es k = Some (n, t)
    /\ (total_width (firstn k es) <= len < total_width (firstn k es) + width t)%nat.
Proof.
  revert len. induction es as [|[n t] es IH]; intros len H.
  - change (total_width []) with 0%nat in H. lia.
  - rewrite total_width_cons in H.
    destruct (Nat.lt_ge_cases len (width t)) as [Hl|Hl].
    + exists 0%nat, n, t. split; [reflexivity|]. cbn [firstn].
      change (total_width []) with 0%nat. lia.
    + destruct (IH (len - width t)%nat ltac:(lia)) as (k & n' & t' & Hn & Hr).
      exists (S k), n', t'. split; [exact Hn|]. cbn [firstn]. rewrite total_width_cons. lia.
Qed.

Lemma run_writer_short (le : bool) (es : list (string * FieldType)) (n : nat)
    (data : object) (target : BufferArg) :
  (reachable target < total_width es)%nat ->
  exists k ab',
    (k < length es)%nat
    /\ (total_width (firstn k es) <= reachable target < total_width (firstn (S k) es))%nat
    /\ run_writer n (layout le es 0) data (Some target) = (Throw RangeError, ab')
    /\ run_writer (total_width (firstn k es)) (layout le (firstn k es) 0) data (Some target)
       = (Normal ab', ab').
Proof.
  intros Hlt. destruct (first_overflow es _ Hlt) as (k & nm & t & Hn & Hr).
  exists k. eexists.
  split; [apply nth_error_Some; congruence|].
  split; [rewrite (total_width_firstn_S _ _ _ _ Hn); lia|].
  assert (Hes : es = firstn k es ++ (nm, t) :: skipn (S k) es)
    by (symmetry; now apply firstn_skipn_middle).
  assert (Hpre : forallb (in_bounds (view_of target)) (layout le (firstn k es) 0) = true).
  { apply layout_in_bounds. unfold reachable in Hr. lia. }
  split.
  - rewrite run_writer_Some. rewrite Hes at 1. rewrite layout_app. cbn [layout].
    unfold bind. rewrite for_of_setters_stop; [reflexivity|exact Hpre|].
    unfold in_bounds. cbn. apply Nat.leb_gt. unfold reachable in Hr. lia.
  - apply run_writer_target. intros p Hp. apply layout_range in Hp. lia.
Qed.

(** X11.  A target shorter than the struct makes [write] throw a RangeError,
    in version 2 whatever the names are and in version 1 when they are
    identifier names, but not before the fields that fit have been
    written: [write] of version 2 leaves the target as the struct of the
    declarations up to the first field that does not fit leaves it. *)
Theorem write_short_target (entries : list (string * FieldType)) (le : option bool)
    (st0 : V2.Store) (data : object) (target : BufferArg) :
  (Forall (fun e => is_identifier_name (fst e) = true) entries ->
   exists s,
     V1.build (V1.declare entries le) = Normal s
     /\ ((reachable target < V1.struct_size s)%nat ->
         fst (V1.struct_write s data (Some target)) = Throw RangeError))
  /\ ((reachable target < total_width entries)%nat ->
      exists k ab',
        (k < length entries)%nat
        /\ (total_width (firstn k entries) <= reachable target
            < total_width (firstn (S k) entries))%nat
        /\ V2.struct_write (V2.build (fst (V2.declare entries le st0)))
             (snd (V2.declare entries le st0)) data (Some target)
           = (Throw RangeError, ab')
        /\ V2.struct_write (V2.build (fst (V2.declare (firstn k entries) le st0)))
             (snd (V2.declare (firstn k entries) le st0)) data (Some target)
           = (Normal ab', ab')).
Proof.
  split.
  - intros Hid. destruct (V1_build_identifiers entries le Hid) as [Hb _].
    eexists. split; [exact Hb|].
    cbn [V1.struct_size V1.struct_write]. intros Hlt.
    set (ps := bound_accesses (default_true le) entries).
    assert (Hne : entries <> []).
    { intros ->. change (total_width []) with 0%nat in Hlt. lia. }
    destruct (bound_accesses_last (default_true le) entries Hne) as (p & Hp & Hend).
    fold ps in Hp.
    rewrite run_writer_Some. unfold bind.
    pose proof (for_of_setters_throw (view_of target) data ps (underlying target)) as Ht.
    destruct (for_of ps _ (underlying target)) as [[[]|e] ab'] eqn:E.
    + cbn [fst] in Ht. assert (@Normal unit tt = Throw RangeError); [|discriminate].
      apply Ht. destruct (forallb (in_bounds (view_of target)) ps) eqn:F; [|reflexivity].
      rewrite forallb_forall in F. specialize (F p Hp). unfold in_bounds in F.
      apply Nat.leb_le in F. unfold reachable in Hlt. lia.
    + cbn [fst] in *. f_equal.
      assert (@Throw unit e = Throw RangeError); [|congruence].
      apply Ht. destruct (forallb (in_bounds (view_of target)) ps) eqn:F; [|reflexivity].
      rewrite forallb_forall in F. specialize (F p Hp). unfold in_bounds in F.
      apply Nat.leb_le in F. unfold reachable in Hlt. lia.
  - intros Hlt.
    destruct (run_writer_short (default_true le) entries (total_width entries) data target Hlt)
      as (k & ab' & Hk & Hr & Hw & Hwk).
    exists k, ab'. rewrite !V2_write_now. now repeat split.
Qed.

(** Nineteen bytes are too few for the record of the benchmark. *)
Lemma write_short_target_witness :
  (Forall (fun e => is_identifier_name (fst e) = true) ComplexStruct
   /\ (reachable (IsArrayBuffer (new_ArrayBuffer 19)) < total_width ComplexStruct)%nat)
  /\ (exists s,
        V1.build (V1.declare ComplexStruct None) = Normal s
        /\ fst (V1.struct_write s data (Some (IsArrayBuffer (new_ArrayBuffer 19))))
           = Throw RangeError)
  /\ exists k ab',
       V2.struct_write (V2.build (fst (V2.declare ComplexStruct None [])))
         (snd (V2.declare ComplexStruct None [])) data
         (Some (IsArrayBuffer (new_ArrayBuffer 19)))
       = (Throw RangeError, ab')
       /\ V2.struct_write (V2.build (fst (V2.declare (firstn k ComplexStruct) None [])))
            (snd (V2.declare (firstn k ComplexStruct) None [])) data
            (Some (IsArrayBuffer (new_ArrayBuffer 19)))
          = (Normal ab', ab').
Proof.
  assert (Hid : Forall (fun e => is_identifier_name (fst e) = true) ComplexStruct)
    by (apply all_identifiers; vm_compute; reflexivity).
  assert (H : (reachable (IsArrayBuffer (new_ArrayBuffer 19)) < total_width ComplexStruct)%nat)
    by (vm_compute; lia).
  split; [split; assumption|]. split.
  - destruct (proj1 (write_short_target ComplexStruct None [] data
                       (IsArrayBuffer (new_ArrayBuffer 19))) Hid) as (s & Hb & Hthrow).
    exists s. split; [exact Hb|]. apply Hthrow.
    rewrite ComplexStruct_built in Hb. injection Hb as <-.
    cbn [V1.struct_size]. exact H.
  - destruct (proj2 (write_short_target ComplexStruct None [] data _) H)
      as (k & ab' & _ & _ & Hw & Hwk).
    exists k, ab'. split; assumption.
Defined.

End Targets.

Section RawBytes.

Import FunctionConstructor Template.

Lemma RawBytesToNumeric_range (bs : list byte) :
  0 <= RawBytesToNumeric bs < 256 ^ Z.of_nat (length bs).
Proof.
  induction bs as [|b bs IH]; [cbn; lia|].
  cbn [RawBytesToNumeric length]. rewrite Nat2Z.inj_succ, Z.pow_succ_r by lia.
  pose proof (Z_of_byte_range b). lia.
Qed.

Lemma byte_of_Z_of_byte (b : byte) : byte_of_Z (Z_of_byte b) = b.
Proof.
  unfold byte_of_Z, Z_of_byte.
  rewrite Z.mod_small by apply (Z_of_byte_range b).
  now rewrite N2Z.id, Byte.of_to_N.
Qed.

Lemma byte_of_Z_mod (z : Z) : byte_of_Z (z mod 256) = byte_of_Z z.
Proof. unfold byte_of_Z. now rewrite Z.mod_mod by lia. Qed.

Lemma NumericToRawBytes_inv (bs : list byte) :
  NumericToRawBytes (length bs) (RawBytesToNumeric bs) = bs.
Proof.
  induction bs as [|b bs IH]; [reflexivity|].
  cbn [length RawBytesToNumeric NumericToRawBytes].
  pose proof (Z_of_byte_range b) as Hb. f_equal.
  - rewrite <- byte_of_Z_mod.
    replace ((Z_of_byte b + 256 * RawBytesToNumeric bs) mod 256) with (Z_of_byte b)
      by (Z.div_mod_to_equations; lia).
    apply byte_of_Z_of_byte.
  - replace ((Z_of_byte b + 256 * RawBytesToNumeric bs) / 256) with (RawBytesToNumeric bs)
      by (Z.div_mod_to_equations; lia).
    exact IH.
Qed.

Lemma length_endian (ty : FieldType) (le : bool) (raw : list byte) :
  length (endian ty le raw) = length raw.
Proof. destruct ty, le; cbn; now rewrite ?length_rev. Qed.

Lemma pow_256_width (ty : FieldType) :
  256 ^ Z.of_nat (width ty) = 2 ^ (8 * Z.of_nat (width ty)).
Proof. destruct ty; reflexivity. Qed.

(** What an accessor reads is exact for its type, whatever the bytes. *)
Lemma exact_loaded (a : Access) (raw : list byte) :
  (length raw <= width (type a))%nat -> exact (type a) (loaded a raw).
Proof.
  intros Hl. unfold loaded.
  set (bs := endian (type a) (isLittleEndian a) raw).
  assert (Hr : 0 <= RawBytesToNumeric bs < 256 ^ Z.of_nat (width (type a))).
  { pose proof (RawBytesToNumeric_range bs) as H.
    assert (Hlb : length bs = length raw) by apply length_endian.
    rewrite Hlb in H. split; [lia|].
    apply Z.lt_le_trans with (256 ^ Z.of_nat (length raw)); [lia|].
    apply Z.pow_le_mono_r; lia. }
  destruct (type a); cbn [exact field_value width] in *;
    try (eexists; split; [|reflexivity]; exact Hr).
  apply float32_of_bits_is_float32.
Qed.

(** The bytes that an accessor read are the bytes that it writes for the
    value it read, unless the value is a NaN. *)
Lemma stored_loaded (a : Access) (raw : list byte) :
  length raw = width (type a) ->
  (type a = float32 -> loaded a raw <> NaN) ->
  stored a (Num (loaded a raw)) = raw.
Proof.
  intros Hl Hnan. unfold stored, loaded in *.
  set (bs := endian (type a) (isLittleEndian a) raw) in *.
  assert (Hlb : length bs = width (type a)) by (unfold bs; now rewrite length_endian).
  pose proof (RawBytesToNumeric_range bs) as Hr. rewrite Hlb in Hr.
  assert (Hbits : field_bits (type a) (Num (field_value (type a) (RawBytesToNumeric bs)))
                  = RawBytesToNumeric bs).
  { destruct (type a) eqn:Et; cbn [field_bits field_value ToNumber width] in *;
      try (apply ToUint_Number_of_Z; exact Hr).
    rewrite ToFloat32_exact by apply float32_of_bits_is_float32.
    apply float32_bits_of_bits; [exact Hr|now apply Hnan]. }
  rewrite Hbits, <- Hlb, NumericToRawBytes_inv. apply endian_involutive.
Qed.

Lemma loaded_stored_any (a : Access) (v : value) :
  loaded a (stored a v)
  = field_value (type a) (field_bits (type a) v mod 256 ^ Z.of_nat (width (type a))).
Proof.
  unfold loaded, stored. now rewrite endian_involutive, RawBytes_roundtrip.
Qed.

End RawBytes.

Section Keys.

Import FunctionConstructor Template.

Lemma assoc_set_keys_fresh {V} (l : list (string * V)) (k : string) (v : V) :
  ~ In k (map fst l) -> map fst (assoc_set l k v) = map fst l ++ [k].
Proof. intros H. rewrite assoc_set_fresh by exact H. now rewrite map_app. Qed.

(** The properties of the record read, in the order of their creation. *)
Lemma read_all_keys (view : DataView) (ab : ArrayBuffer) (props : list Access)
    (o : object) :
  NoDup (map fst o ++ map key props) -> ~ In "__proto__"%string (map key props) ->
  map fst (read_all view ab props o) = map fst o ++ map key props.
Proof.
  revert o. induction props as [|p props IH]; intros o Hnd Hp.
  - cbn. now rewrite List.app_nil_r.
  - rewrite read_all_cons. cbn [map] in *.
    assert (Hk : key p <> "__proto__"%string) by (intros E; apply Hp; now left).
    unfold Set_ at 1. destruct (String.eqb (key p) "__proto__") eqn:E;
      [apply String.eqb_eq in E; contradiction|].
    assert (Hfresh : ~ In (key p) (map fst o)).
    { apply NoDup_remove_2 in Hnd. intros Hin. apply Hnd. apply in_or_app. now left. }
    rewrite IH.
    + rewrite assoc_set_keys_fresh by exact Hfresh. now rewrite <- List.app_assoc.
    + rewrite assoc_set_keys_fresh by exact Hfresh. rewrite <- List.app_assoc. exact Hnd.
    + intros Hin. apply Hp. now right.
Qed.

End Keys.

Section Reading.

Import FunctionConstructor Template.

(** From a buffer that all the accesses fit, a reader never throws. *)
Lemma run_reader_ok (ps : list Access) (buffer : BufferArg) :
  (forall p, In p ps -> (at_offset p + width (type p) <= reachable buffer)%nat) ->
  run_reader ps buffer
  = (Normal (read_all (view_of buffer) (underlying buffer) ps []), underlying buffer).
Proof.
  intros H. unfold run_reader. apply literal_ok.
  apply forallb_forall. intros p Hp. apply Nat.leb_le. now apply H.
Qed.

Lemma layout_In_inv (le : bool) (es : list (string * FieldType)) (start : nat) (a : Access) :
  In a (layout le es start) -> In (key a, type a) es.
Proof.
  revert start. induction es as [|[n t] es IH]; intros start; [intros []|].
  intros [<-|H]; [now left|right; eapply IH; exact H].
Qed.

Lemma length_slice_le (ab : ArrayBuffer) (pos w : nat) : (length (slice ab pos w) <= w)%nat.
Proof. unfold slice. rewrite length_firstn. lia. Qed.

Lemma layout_read (le : bool) (es : list (string * FieldType)) (buffer : BufferArg) :
  (total_width es <= reachable buffer)%nat ->
  exists o,
    run_reader (layout le es 0) buffer = (Normal o, underlying buffer)
    /\ (NoDup (map fst es) -> ~ In "__proto__"%string (map fst es) ->
        map fst o = map fst es
        /\ forall name ty, In (name, ty) es -> exists v, Get o name = Num v /\ exact ty v).
Proof.
  intros Hlen. eexists. split.
  - apply run_reader_ok. intros p Hp. apply layout_range in Hp. lia.
  - intros Hnd Hproto. split.
    + rewrite read_all_keys; rewrite layout_keys; [reflexivity|exact Hnd|exact Hproto].
    + intros name ty Hin.
      destruct (layout_In le es 0 name ty Hin) as (a & Ha & <- & <-).
      eexists. split.
      * apply read_all_get; [now rewrite layout_keys|exact Ha|].
        intros E. apply Hproto. rewrite <- E. now apply (in_map fst _ (key a, type a)).
      * apply exact_loaded, length_slice_le.
Qed.

(** X12.  From a buffer that is long enough [read] returns a record, in
    version 2 whatever the names are and in version 1 when they are
    identifier names.  For distinct names other than [__proto__], the
    record holds under each declared name a value that is exact for the
    type of the field: an integer of its unsigned range, or a float32
    value, NaN included.  For identifier names its properties are those
    names, in the order of the declarations. *)
Theorem read_long_enough (entries : list (string * FieldType)) (le : option bool)
    (st0 : V2.Store) (buffer : BufferArg) :
  (Forall (fun e => is_identifier_name (fst e) = true) entries ->
   exists s,
     V1.build (V1.declare entries le) = Normal s
     /\ ((V1.struct_size s <= reachable buffer)%nat ->
         exists o,
           V1.struct_read s buffer = (Normal o, underlying buffer)
           /\ (NoDup (map fst entries) ->
               ~ In "__proto__"%string (map fst entries) ->
               map fst o = map fst entries
               /\ forall name ty, In (name, ty) entries ->
                    exists v, Get o name = Num v /\ exact ty v)))
  /\ (let s := V2.build (fst (V2.declare entries le st0)) in
      let st := snd (V2.declare entries le st0) in
      (V2.struct_size s <= reachable buffer)%nat ->
      exists o,
        V2.struct_read s st buffer = (Normal o, underlying buffer)
        /\ (NoDup (map fst entries) -> ~ In "__proto__"%string (map fst entries) ->
            (forall name ty, In (name, ty) entries ->
               exists v, Get o name = Num v /\ exact ty v)
            /\ (Forall (fun e => is_identifier_name (fst e) = true) entries ->
                map fst o = map fst entries))).
Proof.
  split.
  - intros Hid. destruct (V1_build_identifiers entries le Hid) as [Hb _].
    eexists. split; [exact Hb|].
    cbn [V1.struct_size V1.struct_read]. intros Hlen.
    set (ps := bound_accesses (default_true le) entries) in *.
    assert (Hfit : forall p, In p ps -> (at_offset p + width (type p) <= reachable buffer)%nat).
    { intros p Hp. apply bound_accesses_range in Hp. lia. }
    eexists. split; [now apply run_reader_ok|].
    intros Hnd Hproto.
    pose proof (V1_build_layout entries le Hnd Hid) as Hl.
    unfold V1.declare in Hb. rewrite Hl in Hb. injection Hb as Er _.
    destruct (layout_read (default_true le) entries buffer Hlen) as (o & Hr & Hd).
    rewrite Er in Hr. fold ps in Hr. rewrite run_reader_ok in Hr by exact Hfit.
    injection Hr as <-. now apply Hd.
  - cbn zeta. rewrite V2_size. intros Hlen. rewrite V2_read_now.
    destruct (layout_read (default_true le) entries buffer Hlen) as (o & Hr & Hd).
    exists o. split; [exact Hr|]. intros Hnd Hproto.
    destruct (Hd Hnd Hproto) as [Hk Hv]. split; [exact Hv|]. intros _. exact Hk.
Qed.

(** The bytes of the benchmark's record are read. *)
Lemma read_long_enough_witness :
  (Forall (fun e => is_identifier_name (fst e) = true) ComplexStruct
   /\ (V2.struct_size (V2.build (fst (V2.declare ComplexStruct None [])))
       <= reachable (IsArrayBuffer data_bytes))%nat)
  /\ (exists s o,
        V1.build (V1.declare ComplexStruct None) = Normal s
        /\ V1.struct_read s (IsArrayBuffer data_bytes) = (Normal o, data_bytes))
  /\ exists o,
       V2.struct_read (V2.build (fst (V2.declare ComplexStruct None [])))
         (snd (V2.declare ComplexStruct None [])) (IsArrayBuffer data_bytes)
       = (Normal o, data_bytes).
Proof.
  assert (Hid : Forall (fun e => is_identifier_name (fst e) = true) ComplexStruct)
    by (apply all_identifiers; vm_compute; reflexivity).
  assert (H : (V2.struct_size (V2.build (fst (V2.declare ComplexStruct None [])))
               <= reachable (IsArrayBuffer data_bytes))%nat) by (vm_compute; lia).
  split; [split; assumption|]. split.
  - destruct (proj1 (read_long_enough ComplexStruct None [] (IsArrayBuffer data_bytes)) Hid)
      as (s & Hb & Hread).
    assert (H' : (V1.struct_size s <= reachable (IsArrayBuffer data_bytes))%nat).
    { rewrite ComplexStruct_built in Hb. injection Hb as <-.
      cbn [V1.struct_size]. vm_compute. lia. }
    destruct (Hread H') as (o & Hr & _).
    exists s, o. split; [exact Hb|exact Hr].
  - destruct (proj2 (read_long_enough ComplexStruct None [] (IsArrayBuffer data_bytes)) H)
      as (o & Hr & _).
    exists o. exact Hr.
Defined.

Lemma layout_round_trip_target (le : bool) (es : list (string * FieldType)) (data : object)
    (target : BufferArg) :
  view_fits target = true -> (total_width es <= reachable target)%nat ->
  exists image o ab',
    run_writer (total_width es) (layout le es 0) data None = (Normal image, image)
    /\ run_reader (layout le es 0) (IsArrayBuffer image) = (Normal o, image)
    /\ run_writer (total_width es) (layout le es 0) data (Some target) = (Normal ab', ab')
    /\ run_reader (layout le es 0) (with_content target ab') = (Normal o, ab').
Proof.
  intros Hfit Hlen.
  destruct (run_writer_places le es data target Hfit Hlen) as (Hl & Hnone & Hsome).
  cbn zeta in *. pose proof (view_fits_spec _ Hfit) as Hspec.
  set (n := total_width es) in *. set (L := layout le es 0) in *.
  set (image := write_all _ data L _) in *.
  set (ab' := splice (underlying target) (byteOffset (view_of target)) image) in *.
  assert (Hrange : forall p, In p L -> (at_offset p + width (type p) <= n)%nat).
  { intros p Hp. apply layout_range in Hp. unfold n. lia. }
  assert (Hlab : length ab' = length (underlying target))
    by (unfold ab'; apply length_splice; lia).
  destruct (with_content_view target ab' Hlab) as [Hv Hu].
  exists image, (read_all (mkDataView 0 n) image L []), ab'.
  split; [exact Hnone|]. split; [|split; [exact Hsome|]].
  - rewrite run_reader_ok
      by (intros p Hp; specialize (Hrange p Hp); unfold reachable; cbn; lia).
    cbn [view_of underlying]. rewrite Hl. reflexivity.
  - rewrite run_reader_ok
      by (intros p Hp; specialize (Hrange p Hp); unfold reachable in *; rewrite Hv; lia).
    rewrite Hv, Hu. f_equal. f_equal.
    apply read_all_ext. intros a Ha. specialize (Hrange a Ha).
    unfold ab'. cbn [byteOffset Nat.add]. apply slice_splice_inside; lia.
Qed.

(** X14.  The codec does not depend on the place of the view: writing a record
    through a view at any offset and reading through the same view gives
    the record that a fresh buffer gives. *)
Theorem round_trip_through_a_view (entries : list (string * FieldType))
    (le : option bool) (st0 : V2.Store) (data : object) (target : BufferArg) :
  view_fits target = true -> (total_width entries <= reachable target)%nat ->
  (let s := V2.build (fst (V2.declare entries le st0)) in
   let st := snd (V2.declare entries le st0) in
   exists image o ab',
     V2.struct_write s st data None = (Normal image, image)
     /\ V2.struct_read s st (IsArrayBuffer image) = (Normal o, image)
     /\ V2.struct_write s st data (Some target) = (Normal ab', ab')
     /\ V2.struct_read s st (with_content target ab') = (Normal o, ab'))
  /\ (NoDup (map fst entries) ->
      Forall (fun e => is_identifier_name (fst e) = true) entries ->
      exists s image o ab',
        V1.build (V1.declare entries le) = Normal s
        /\ V1.struct_write s data None = (Normal image, image)
        /\ V1.struct_read s (IsArrayBuffer image) = (Normal o, image)
        /\ V1.struct_write s data (Some target) = (Normal ab', ab')
        /\ V1.struct_read s (with_content target ab') = (Normal o, ab')).
Proof.
  intros Hfit Hlen.
  destruct (layout_round_trip_target (default_true le) entries data target Hfit Hlen)
    as (image & o & ab' & H1 & H2 & H3 & H4).
  split.
  - cbn zeta. exists image, o, ab'. rewrite !V2_write_now, !V2_read_now. now repeat split.
  - intros Hnd Hid. eexists. exists image, o, ab'.
    split; [apply (V1_build_layout entries le Hnd Hid)|].
    cbn [V1.struct_write V1.struct_read]. now repeat split.
Qed.

(** The record of the benchmark, through a view at offset 4 of 32 bytes. *)
Lemma round_trip_through_a_view_witness :
  (view_fits (IsDataView (mkDataView 4 20) (new_ArrayBuffer 32)) = true
   /\ (total_width ComplexStruct
       <= reachable (IsDataView (mkDataView 4 20) (new_ArrayBuffer 32)))%nat)
  /\ exists image o ab',
       V2.struct_read (V2.build (fst (V2.declare ComplexStruct None [])))
         (snd (V2.declare ComplexStruct None [])) (IsArrayBuffer image) = (Normal o, image)
       /\ V2.struct_read (V2.build (fst (V2.declare ComplexStruct None [])))
            (snd (V2.declare ComplexStruct None []))
            (with_content (IsDataView (mkDataView 4 20) (new_ArrayBuffer 32)) ab')
          = (Normal o, ab').
Proof.
  assert (H1 : view_fits (IsDataView (mkDataView 4 20) (new_ArrayBuffer 32)) = true)
    by (vm_compute; reflexivity).
  assert (H2 : (total_width ComplexStruct
                <= reachable (IsDataView (mkDataView 4 20) (new_ArrayBuffer 32)))%nat)
    by (vm_compute; lia).
  split; [split; assumption|].
  destruct (proj1 (round_trip_through_a_view ComplexStruct None [] data _ H1 H2))
    as (image & o & ab' & _ & Hr & _ & Hr').
  exists image, o, ab'. split; assumption.
Defined.

Lemma run_reader_same (ps : list Access) (ab ab' : ArrayBuffer) :
  length ab' = length ab ->
  (forall p, In p ps ->
     slice ab' (at_offset p) (width (type p)) = slice ab (at_offset p) (width (type p))) ->
  fst (run_reader ps (IsArrayBuffer ab')) = fst (run_reader ps (IsArrayBuffer ab)).
Proof.
  intros Hl Hs. unfold run_reader. cbn [view_of underlying]. rewrite Hl.
  destruct (forallb (in_bounds (mkDataView 0 (length ab))) ps) eqn:F.
  - rewrite !literal_ok by exact F. cbn [fst]. f_equal.
    apply read_all_ext. intros a Ha. cbn [byteOffset Nat.add]. now apply Hs.
  - now rewrite !literal_out_of_bounds by exact F.
Qed.

Lemma run_writer_behind (n : nat) (ps : list Access) (data : object) (view : DataView)
    (ab : ArrayBuffer) :
  view_fits (IsDataView view ab) = true ->
  (n <= byteLength view)%nat -> (n <= byteOffset view)%nat ->
  (forall p, In p ps -> (at_offset p + width (type p) <= n)%nat) ->
  exists ab',
    run_writer n ps data (Some (IsDataView view ab)) = (Normal ab', ab')
    /\ fst (run_reader ps (IsArrayBuffer ab')) = fst (run_reader ps (IsArrayBuffer ab)).
Proof.
  intros Hfit Hlen Hoff Hrange.
  destruct (run_writer_rest n ps data (IsDataView view ab) Hfit Hlen Hrange)
    as (ab' & Hw & Hl & Hf).
  exists ab'. split; [exact Hw|].
  apply run_reader_same; [exact Hl|].
  intros p Hp. specialize (Hrange p Hp). apply Hf. cbn [view_of]. lia.
Qed.

(** X15.  [write] returns the array buffer of the view, not the view: when
    the view starts at or after [size], [read] of the buffer returned
    does not see the record written, and gives what [read] of the buffer
    gave before the call.  This holds for version 2 whatever the names
    are, and for version 1 when they are identifier names. *)
Theorem read_of_the_buffer_returned (entries : list (string * FieldType))
    (le : option bool) (st0 : V2.Store) (data : object) (view : DataView)
    (ab : ArrayBuffer) :
  view_fits (IsDataView view ab) = true ->
  (Forall (fun e => is_identifier_name (fst e) = true) entries ->
   exists s,
     V1.build (V1.declare entries le) = Normal s
     /\ ((V1.struct_size s <= byteLength view)%nat ->
         (V1.struct_size s <= byteOffset view)%nat ->
         exists ab',
           V1.struct_write s data (Some (IsDataView view ab)) = (Normal ab', ab')
           /\ fst (V1.struct_read s (IsArrayBuffer ab'))
              = fst (V1.struct_read s (IsArrayBuffer ab))))
  /\ (let s := V2.build (fst (V2.declare entries le st0)) in
      let st := snd (V2.declare entries le st0) in
      (V2.struct_size s <= byteLength view)%nat ->
      (V2.struct_size s <= byteOffset view)%nat ->
      exists ab',
        V2.struct_write s st data (Some (IsDataView view ab)) = (Normal ab', ab')
        /\ fst (V2.struct_read s st (IsArrayBuffer ab'))
           = fst (V2.struct_read s st (IsArrayBuffer ab))).
Proof.
  intros Hfit. split.
  - intros Hid. destruct (V1_build_identifiers entries le Hid) as [Hb _].
    eexists. split; [exact Hb|].
    cbn [V1.struct_size V1.struct_write V1.struct_read]. intros Hlen Hoff.
    apply run_writer_behind; [exact Hfit|exact Hlen|exact Hoff|].
    apply bound_accesses_range.
  - cbn zeta. rewrite V2_size. intros Hlen Hoff.
    destruct (run_writer_behind (total_width entries) (layout (default_true le) entries 0)
                data view ab Hfit Hlen Hoff) as (ab' & Hw & Hr).
    { intros p Hp. apply layout_range in Hp. lia. }
    exists ab'. rewrite V2_write_now, !V2_read_now. now split.
Qed.

(** The struct of the benchmark, written through a view at offset 20. *)
Lemma read_of_the_buffer_returned_witness :
  (view_fits (IsDataView (mkDataView 20 20) (new_ArrayBuffer 40)) = true
   /\ Forall (fun e => is_identifier_name (fst e) = true) ComplexStruct
   /\ (V2.struct_size (V2.build (fst (V2.declare ComplexStruct None []))) <= 20)%nat)
  /\ (exists s ab',
        V1.build (V1.declare ComplexStruct None) = Normal s
        /\ V1.struct_write s data (Some (IsDataView (mkDataView 20 20) (new_ArrayBuffer 40)))
           = (Normal ab', ab')
        /\ fst (V1.struct_read s (IsArrayBuffer ab'))
           = fst (V1.struct_read s (IsArrayBuffer (new_ArrayBuffer 40))))
  /\ exists ab',
       V2.struct_write (V2.build (fst (V2.declare ComplexStruct None [])))
         (snd (V2.declare ComplexStruct None [])) data
         (Some (IsDataView (mkDataView 20 20) (new_ArrayBuffer 40))) = (Normal ab', ab')
       /\ fst (V2.struct_read (V2.build (fst (V2.declare ComplexStruct None [])))
                 (snd (V2.declare ComplexStruct None [])) (IsArrayBuffer ab'))
          = fst (V2.struct_read (V2.build (fst (V2.declare ComplexStruct None [])))
                  (snd (V2.declare ComplexStruct None []))
                  (IsArrayBuffer (new_ArrayBuffer 40))).
Proof.
  assert (H1 : view_fits (IsDataView (mkDataView 20 20) (new_ArrayBuffer 40)) = true)
    by (vm_compute; reflexivity).
  assert (Hid : Forall (fun e => is_identifier_name (fst e) = true) ComplexStruct)
    by (apply all_identifiers; vm_compute; reflexivity).
  assert (H2 : (V2.struct_size (V2.build (fst (V2.declare ComplexStruct None []))) <= 20)%nat)
    by (vm_compute; lia).
  split; [exact (conj H1 (conj Hid H2))|]. split.
  - destruct (proj1 (read_of_the_buffer_returned ComplexStruct None [] data
                       (mkDataView 20 20) (new_ArrayBuffer 40) H1) Hid) as (s & Hb & Hw).
    assert (H3 : (V1.struct_size s <= 20)%nat).
    { rewrite ComplexStruct_built in Hb. injection Hb as <-. cbn [V1.struct_size]. lia. }
    destruct (Hw H3 H3) as (ab' & Hw' & Hr').
    exists s, ab'. split; [exact Hb|]. split; [exact Hw'|exact Hr'].
  - exact (proj2 (read_of_the_buffer_returned ComplexStruct None [] data
                    (mkDataView 20 20) (new_ArrayBuffer 40) H1) H2 H2).
Defined.

Lemma slice_slice (ab : ArrayBuffer) (pos n pos' w : nat) :
  (pos' + w <= n)%nat -> slice (slice ab pos n) pos' w = slice ab (pos + pos') w.
Proof.
  intros H. apply nth_error_ext. intros i. rewrite !nth_error_slice.
  destruct (i <? w)%nat eqn:E; [|reflexivity]. apply Nat.ltb_lt in E.
  destruct (pos' + i <? n)%nat eqn:E'; [|apply Nat.ltb_ge in E'; lia].
  f_equal. lia.
Qed.

Lemma run_reader_window (n : nat) (ps : list Access) (b1 b2 : BufferArg) :
  (forall p, In p ps -> (at_offset p + width (type p) <= n)%nat) ->
  (n <= reachable b1)%nat -> (n <= reachable b2)%nat ->
  slice (underlying b1) (byteOffset (view_of b1)) n
  = slice (underlying b2) (byteOffset (view_of b2)) n ->
  fst (run_reader ps b1) = fst (run_reader ps b2).
Proof.
  intros Hrange H1 H2 Hs.
  rewrite !run_reader_ok by (intros p Hp; specialize (Hrange p Hp); lia).
  cbn [fst]. f_equal. apply read_all_ext. intros a Ha. specialize (Hrange a Ha).
  rewrite <- (slice_slice (underlying b1) _ n) by lia.
  rewrite <- (slice_slice (underlying b2) _ n) by lia.
  now rewrite Hs.
Qed.

(** X13.  [read] depends on the bytes of the struct only: two buffers that
    hold the same [size] bytes at the offsets of their views are read as
    the same record, whatever else they hold.  This holds for version 2
    whatever the names are, and for version 1 when they are identifier
    names. *)
Theorem read_depends_on_the_struct_bytes (entries : list (string * FieldType))
    (le : option bool) (st0 : V2.Store) (buffer1 buffer2 : BufferArg) :
  (Forall (fun e => is_identifier_name (fst e) = true) entries ->
   exists s,
     V1.build (V1.declare entries le) = Normal s
     /\ ((V1.struct_size s <= reachable buffer1)%nat ->
         (V1.struct_size s <= reachable buffer2)%nat ->
         slice (underlying buffer1) (byteOffset (view_of buffer1)) (V1.struct_size s)
         = slice (underlying buffer2) (byteOffset (view_of buffer2)) (V1.struct_size s) ->
         fst (V1.struct_read s buffer1) = fst (V1.struct_read s buffer2)))
  /\ (let s := V2.build (fst (V2.declare entries le st0)) in
      let st := snd (V2.declare entries le st0) in
      (V2.struct_size s <= reachable buffer1)%nat ->
      (V2.struct_size s <= reachable buffer2)%nat ->
      slice (underlying buffer1) (byteOffset (view_of buffer1)) (V2.struct_size s)
      = slice (underlying buffer2) (byteOffset (view_of buffer2)) (V2.struct_size s) ->
      fst (V2.struct_read s st buffer1) = fst (V2.struct_read s st buffer2)).
Proof.
  split.
  - intros Hid. destruct (V1_build_identifiers entries le Hid) as [Hb _].
    eexists. split; [exact Hb|].
    cbn [V1.struct_size V1.struct_read]. apply run_reader_window.
    apply bound_accesses_range.
  - cbn zeta. rewrite V2_size, !V2_read_now. apply run_reader_window.
    intros p Hp. apply layout_range in Hp. lia.
Qed.

(** The bytes of the benchmark's record, alone and followed by one more byte. *)
Lemma read_depends_on_the_struct_bytes_witness :
  (Forall (fun e => is_identifier_name (fst e) = true) ComplexStruct
   /\ (20 <= reachable (IsArrayBuffer data_bytes))%nat
   /\ (20 <= reachable (IsDataView (mkDataView 0 20) (data_bytes ++ [xff])))%nat
   /\ slice (underlying (IsArrayBuffer data_bytes))
            (byteOffset (view_of (IsArrayBuffer data_bytes))) 20
      = slice (underlying (IsDataView (mkDataView 0 20) (data_bytes ++ [xff])))
              (byteOffset (view_of (IsDataView (mkDataView 0 20) (data_bytes ++ [xff])))) 20)
  /\ (exists s,
        V1.build (V1.declare ComplexStruct None) = Normal s
        /\ fst (V1.struct_read s (IsArrayBuffer data_bytes))
           = fst (V1.struct_read s (IsDataView (mkDataView 0 20) (data_bytes ++ [xff]))))
  /\ fst (V2.struct_read (V2.build (fst (V2.declare ComplexStruct None [])))
             (snd (V2.declare ComplexStruct None [])) (IsArrayBuffer data_bytes))
     = fst (V2.struct_read (V2.build (fst (V2.declare ComplexStruct None [])))
              (snd (V2.declare ComplexStruct None []))
              (IsDataView (mkDataView 0 20) (data_bytes ++ [xff]))).
Proof.
  assert (Hid : Forall (fun e => is_identifier_name (fst e) = true) ComplexStruct)
    by (apply all_identifiers; vm_compute; reflexivity).
  assert (H1 : (20 <= reachable (IsArrayBuffer data_bytes))%nat) by (vm_compute; lia).
  assert (H2 : (20 <= reachable (IsDataView (mkDataView 0 20) (data_bytes ++ [xff])))%nat)
    by (vm_compute; lia).
  assert (H3 : slice (underlying (IsArrayBuffer data_bytes))
                 (byteOffset (view_of (IsArrayBuffer data_bytes))) 20
               = slice (underlying (IsDataView (mkDataView 0 20) (data_bytes ++ [xff])))
                   (byteOffset (view_of (IsDataView (mkDataView 0 20) (data_bytes ++ [xff]))))
                   20)
    by (vm_compute; reflexivity).
  split; [exact (conj Hid (conj H1 (conj H2 H3)))|]. split.
  - destruct (proj1 (read_depends_on_the_struct_bytes ComplexStruct None []
                       (IsArrayBuffer data_bytes)
                       (IsDataView (mkDataView 0 20) (data_bytes ++ [xff]))) Hid)
      as (s & Hb & Hsame).
    exists s. split; [exact Hb|].
    rewrite ComplexStruct_built in Hb. injection Hb as <-.
    exact (Hsame H1 H2 H3).
  - exact (proj2 (read_depends_on_the_struct_bytes ComplexStruct None [] _ _) H1 H2 H3).
Defined.

End Reading.

Section Values.

Import FunctionConstructor Template.

(** What is read back from a fresh buffer, for any record. *)
Lemma layout_write_read (le : bool) (es : list (string * FieldType)) (data : object) :
  NoDup (map fst es) -> ~ In "__proto__"%string (map fst es) ->
  exists buf o,
    run_writer (total_width es) (layout le es 0) data None = (Normal buf, buf)
    /\ run_reader (layout le es 0) (IsArrayBuffer buf) = (Normal o, buf)
    /\ forall name ty,
         In (name, ty) es ->
         Get o name
         = Num (field_value ty (field_bits ty (Get data name) mod 256 ^ Z.of_nat (width ty))).
Proof.
  intros Hnd Hproto.
  set (n := total_width es). set (L := layout le es 0).
  set (view := mkDataView 0 n).
  set (buf := write_all view data L (new_ArrayBuffer n)).
  assert (Hrange : forall p, In p L -> (at_offset p + width (type p) <= n)%nat).
  { intros p Hp. apply layout_range in Hp. unfold n. lia. }
  assert (Hlen : length buf = n) by apply length_image.
  exists buf, (read_all view buf L []). split; [|split].
  - now apply run_writer_fresh.
  - rewrite run_reader_ok
      by (intros p Hp; specialize (Hrange p Hp); unfold reachable; cbn; lia).
    cbn [view_of underlying]. rewrite Hlen. reflexivity.
  - intros name ty Hin.
    destruct (layout_In le es 0 name ty Hin) as (a & Ha & <- & <-).
    rewrite read_all_get;
      [|unfold L; now rewrite layout_keys|exact Ha
       |intros E; apply Hproto; rewrite <- E; now apply (in_map fst _ (key a, type a))].
    f_equal. unfold buf, L.
    rewrite (write_all_slice le view data es 0 (new_ArrayBuffer n) a);
      [|unfold new_ArrayBuffer; rewrite repeat_length; cbn; unfold n; lia|exact Ha].
    apply loaded_stored_any.
Qed.

Lemma uint_wrap (ty : FieldType) (z : Z) :
  ty <> float32 ->
  field_value ty (field_bits ty (Num (Number_of_Z z)) mod 256 ^ Z.of_nat (width ty))
  = Number_of_Z (z mod 256 ^ Z.of_nat (width ty)).
Proof.
  intros Hty. destruct ty; try congruence;
    cbn [field_value field_bits ToNumber width]; rewrite ToUint_wrap;
    f_equal; apply Z.mod_mod; discriminate.
Qed.

Lemma float32_round (v : number) :
  is_double v ->
  field_value float32 (field_bits float32 (Num v) mod 256 ^ Z.of_nat (width float32))
  = ToFloat32 v.
Proof.
  intros Hv. cbn [field_value field_bits ToNumber width].
  destruct (float32_bits_spec _ (ToFloat32_is_float32 v Hv)) as [Hb Hr].
  rewrite Z.mod_small by exact Hr. exact Hb.
Qed.

(** X17.  An integer field holds its value modulo [2^8], [2^16] or [2^32]: an
    integer out of the unsigned range of the field, a negative one
    included, is read back reduced modulo [256^width]. *)
Theorem integer_fields_wrap (entries : list (string * FieldType)) (le : option bool)
    (st0 : V2.Store) (data : object) :
  NoDup (map fst entries) -> ~ In "__proto__"%string (map fst entries) ->
  (let s := V2.build (fst (V2.declare entries le st0)) in
   let st := snd (V2.declare entries le st0) in
   exists buf o,
     V2.struct_write s st data None = (Normal buf, buf)
     /\ V2.struct_read s st (IsArrayBuffer buf) = (Normal o, buf)
     /\ forall name ty z,
          In (name, ty) entries -> ty <> float32 ->
          is_double (Number_of_Z z) -> Get data name = Num (Number_of_Z z) ->
          Get o name = Num (Number_of_Z (z mod 256 ^ Z.of_nat (width ty))))
  /\ (Forall (fun e => is_identifier_name (fst e) = true) entries ->
      exists s buf o,
        V1.build (V1.declare entries le) = Normal s
        /\ V1.struct_write s data None = (Normal buf, buf)
        /\ V1.struct_read s (IsArrayBuffer buf) = (Normal o, buf)
        /\ forall name ty z,
             In (name, ty) entries -> ty <> float32 ->
             is_double (Number_of_Z z) -> Get data name = Num (Number_of_Z z) ->
             Get o name = Num (Number_of_Z (z mod 256 ^ Z.of_nat (width ty)))).
Proof.
  intros Hnd Hproto.
  destruct (layout_write_read (default_true le) entries data Hnd Hproto)
    as (buf & o & Hw & Hr & Hv).
  assert (Hwrap : forall name ty z,
             In (name, ty) entries -> ty <> float32 ->
             is_double (Number_of_Z z) -> Get data name = Num (Number_of_Z z) ->
             Get o name = Num (Number_of_Z (z mod 256 ^ Z.of_nat (width ty)))).
  { intros name ty z Hin Hty _ Hget. rewrite (Hv name ty Hin), Hget.
    f_equal. now apply uint_wrap. }
  split.
  - cbn zeta. exists buf, o. rewrite V2_write_now, V2_read_now. now repeat split.
  - intros Hid. eexists. exists buf, o.
    split; [apply (V1_build_layout entries le Hnd Hid)|].
    cbn [V1.struct_write V1.struct_read]. now repeat split.
Qed.

(** Minus one in a uint8 field is read back as 255. *)
Lemma integer_fields_wrap_witness :
  (NoDup (map fst [("a"%string, uint8)])
   /\ ~ In "__proto__"%string (map fst [("a"%string, uint8)])
   /\ In ("a"%string, uint8) [("a"%string, uint8)] /\ uint8 <> float32
   /\ is_double (Number_of_Z (-1))
   /\ Get [("a"%string, Number_of_Z (-1))] "a" = Num (Number_of_Z (-1)))
  /\ exists buf o,
       V2.struct_write (V2.build (fst (V2.declare [("a"%string, uint8)] None [])))
         (snd (V2.declare [("a"%string, uint8)] None []))
         [("a"%string, Number_of_Z (-1))] None = (Normal buf, buf)
       /\ V2.struct_read (V2.build (fst (V2.declare [("a"%string, uint8)] None [])))
            (snd (V2.declare [("a"%string, uint8)] None [])) (IsArrayBuffer buf)
          = (Normal o, buf)
       /\ Get o "a" = Num (Number_of_Z (-1 mod 256 ^ Z.of_nat (width uint8))).
Proof.
  assert (Hnd : NoDup (map fst [("a"%string, uint8)]))
    by (apply distinct_NoDup; vm_compute; reflexivity).
  assert (Hproto : ~ In "__proto__"%string (map fst [("a"%string, uint8)]))
    by (cbn; intros [H|[]]; discriminate H).
  assert (Hin : In ("a"%string, uint8) [("a"%string, uint8)]) by (now left).
  assert (Hty : uint8 <> float32) by discriminate.
  assert (Hd : is_double (Number_of_Z (-1))) by (vm_compute; repeat split; discriminate).
  assert (Hg : Get [("a"%string, Number_of_Z (-1))] "a" = Num (Number_of_Z (-1)))
    by reflexivity.
  split; [exact (conj Hnd (conj Hproto (conj Hin (conj Hty (conj Hd Hg)))))|].
  destruct (proj1 (integer_fields_wrap [("a"%string, uint8)] None []
                     [("a"%string, Number_of_Z (-1))] Hnd Hproto))
    as (buf & o & Hw & Hr & Hwrap).
  exists buf, o. split; [exact Hw|]. split; [exact Hr|].
  exact (Hwrap "a"%string uint8 (-1) Hin Hty Hd Hg).
Defined.

(** X18.  A float32 field holds the float32 value nearest to the number
    written, ties to even: that value is read back, and it is a float32
    value, so that writing it again changes nothing. *)
Theorem float32_fields_round (entries : list (string * FieldType)) (le : option bool)
    (st0 : V2.Store) (data : object) :
  NoDup (map fst entries) -> ~ In "__proto__"%string (map fst entries) ->
  (let s := V2.build (fst (V2.declare entries le st0)) in
   let st := snd (V2.declare entries le st0) in
   exists buf o,
     V2.struct_write s st data None = (Normal buf, buf)
     /\ V2.struct_read s st (IsArrayBuffer buf) = (Normal o, buf)
     /\ forall name v,
          In (name, float32) entries -> is_double v -> Get data name = Num v ->
          Get o name = Num (ToFloat32 v)
          /\ is_float32 (ToFloat32 v) /\ ToFloat32 (ToFloat32 v) = ToFloat32 v)
  /\ (Forall (fun e => is_identifier_name (fst e) = true) entries ->
      exists s buf o,
        V1.build (V1.declare entries le) = Normal s
        /\ V1.struct_write s data None = (Normal buf, buf)
        /\ V1.struct_read s (IsArrayBuffer buf) = (Normal o, buf)
        /\ forall name v,
             In (name, float32) entries -> is_double v -> Get data name = Num v ->
             Get o name = Num (ToFloat32 v)
             /\ is_float32 (ToFloat32 v) /\ ToFloat32 (ToFloat32 v) = ToFloat32 v).
Proof.
  intros Hnd Hproto.
  destruct (layout_write_read (default_true le) entries data Hnd Hproto)
    as (buf & o & Hw & Hr & Hv).
  assert (Hround : forall name v,
             In (name, float32) entries -> is_double v -> Get data name = Num v ->
             Get o name = Num (ToFloat32 v)
             /\ is_float32 (ToFloat32 v) /\ ToFloat32 (ToFloat32 v) = ToFloat32 v).
  { intros name v Hin Hd Hget. pose proof (ToFloat32_is_float32 v Hd) as Hf.
    split; [|split; [exact Hf|exact (ToFloat32_exact _ Hf)]].
    rewrite (Hv name float32 Hin), Hget. f_equal. now apply float32_round. }
  split.
  - cbn zeta. exists buf, o. rewrite V2_write_now, V2_read_now.
    split; [exact Hw|split; [exact Hr|exact Hround]].
  - intros Hid. eexists. exists buf, o.
    split; [apply (V1_build_layout entries le Hnd Hid)|].
    cbn [V1.struct_write V1.struct_read].
    split; [exact Hw|split; [exact Hr|exact Hround]].
Qed.

(** One tenth, the double [3602879701896397 / 2^55], in a float32 field. *)
Lemma float32_fields_round_witness :
  (NoDup (map fst [("x"%string, float32)])
   /\ ~ In "__proto__"%string (map fst [("x"%string, float32)])
   /\ is_double (Finite false 3602879701896397 (-55)))
  /\ exists buf o,
       V2.struct_read (V2.build (fst (V2.declare [("x"%string, float32)] None [])))
         (snd (V2.declare [("x"%string, float32)] None [])) (IsArrayBuffer buf)
       = (Normal o, buf)
       /\ Get o "x" = Num (ToFloat32 (Finite false 3602879701896397 (-55))).
Proof.
  assert (Hnd : NoDup (map fst [("x"%string, float32)]))
    by (apply distinct_NoDup; vm_compute; reflexivity).
  assert (Hproto : ~ In "__proto__"%string (map fst [("x"%string, float32)]))
    by (cbn; intros [H|[]]; discriminate H).
  assert (Hd : is_double (Finite false 3602879701896397 (-55)))
    by (vm_compute; repeat split; discriminate).
  split; [exact (conj Hnd (conj Hproto Hd))|].
  destruct (proj1 (float32_fields_round [("x"%string, float32)] None []
                     [("x"%string, Finite false 3602879701896397 (-55))] Hnd Hproto))
    as (buf & o & _ & Hr & Hround).
  exists buf, o. split; [exact Hr|].
  exact (proj1 (Hround "x"%string _ (or_introl eq_refl) Hd eq_refl)).
Defined.

End Values.

Section Reencoding.

Import FunctionConstructor Template.

Lemma layout_read_write (le : bool) (es : list (string * FieldType)) (buffer : BufferArg) :
  NoDup (map fst es) -> ~ In "__proto__"%string (map fst es) ->
  view_fits buffer = true -> (total_width es <= reachable buffer)%nat ->
  exists o,
    let image := slice (underlying buffer) (byteOffset (view_of buffer)) (total_width es) in
    run_reader (layout le es 0) buffer = (Normal o, underlying buffer)
    /\ ((forall name, In (name, float32) es -> Get o name <> Num NaN) ->
        run_writer (total_width es) (layout le es 0) o None = (Normal image, image)
        /\ run_writer (total_width es) (layout le es 0) o (Some buffer)
           = (Normal (underlying buffer), underlying buffer)).
Proof.
  intros Hnd Hproto Hfit Hlen. pose proof (view_fits_spec _ Hfit) as Hspec.
  set (n := total_width es) in *. set (L := layout le es 0).
  set (view := view_of buffer) in *. set (ab := underlying buffer) in *.
  set (o := read_all view ab L []).
  assert (Hrange : forall p, In p L -> (at_offset p + width (type p) <= n)%nat).
  { intros p Hp. apply layout_range in Hp. unfold n. lia. }
  exists o. cbn zeta. split.
  - apply run_reader_ok. intros p Hp. specialize (Hrange p Hp). lia.
  - intros Hnan.
    set (image := write_all (mkDataView 0 n) o L (new_ArrayBuffer n)).
    assert (Hli : length image = n) by apply length_image.
    assert (Himage : image = slice ab (byteOffset view) n).
    { apply nth_error_ext. intros j. rewrite nth_error_slice.
      destruct (j <? n)%nat eqn:Hj.
      - apply Nat.ltb_lt in Hj.
        destruct (layout_covers le es 0 j Hj) as (a & Ha & Hr). cbn [Nat.add] in Hr.
        fold L in Ha. specialize (Hrange a Ha).
        set (jj := (j - at_offset a)%nat).
        set (raw := slice ab (byteOffset view + at_offset a) (width (type a))).
        assert (Hget : Get o (key a) = Num (loaded a raw)).
        { apply read_all_get; [unfold L; now rewrite layout_keys|exact Ha|].
          intros E. apply Hproto. rewrite <- E.
          apply (in_map fst _ (key a, type a)). eapply layout_In_inv. exact Ha. }
        transitivity (nth_error raw jj).
        + replace j with (byteOffset (mkDataView 0 n) + at_offset a + jj)%nat
            by (unfold jj; cbn; lia).
          rewrite (slice_nth_error _ _ (width (type a))) by (unfold jj; lia).
          unfold image, L.
          rewrite (write_all_slice le (mkDataView 0 n) o es 0 (new_ArrayBuffer n) a);
            [|unfold new_ArrayBuffer; rewrite repeat_length; cbn; fold n; lia|exact Ha].
          rewrite Hget. rewrite stored_loaded; [reflexivity| |].
          * unfold raw. apply length_slice. unfold ab, view in *. lia.
          * intros Et E. apply (Hnan (key a)).
            -- rewrite <- Et. eapply layout_In_inv. exact Ha.
            -- rewrite Hget. now rewrite E.
        + unfold raw. rewrite <- slice_nth_error by (unfold jj; lia).
          f_equal. unfold jj. lia.
      - apply Nat.ltb_ge in Hj. apply nth_error_None. lia. }
    split.
    + rewrite <- Himage. now apply run_writer_fresh.
    + destruct (run_writer_places le es o buffer Hfit Hlen) as (_ & _ & Hw).
      cbn zeta in Hw. fold n L image view ab in Hw. rewrite Hw, Himage.
      rewrite splice_slice by lia. reflexivity.
Qed.

(** X16.  Reading then writing gives the bytes back: the record read from a
    buffer is written as the [size] bytes it was read from, and writing
    it into that buffer leaves the buffer as it is, provided that no
    float32 field was read as NaN (the word of a NaN is not kept). *)
Theorem read_then_write (entries : list (string * FieldType)) (le : option bool)
    (st0 : V2.Store) (buffer : BufferArg) :
  NoDup (map fst entries) -> ~ In "__proto__"%string (map fst entries) ->
  view_fits buffer = true -> (total_width entries <= reachable buffer)%nat ->
  let image :=
    slice (underlying buffer) (byteOffset (view_of buffer)) (total_width entries) in
  (let s := V2.build (fst (V2.declare entries le st0)) in
   let st := snd (V2.declare entries le st0) in
   exists o,
     V2.struct_read s st buffer = (Normal o, underlying buffer)
     /\ ((forall name, In (name, float32) entries -> Get o name <> Num NaN) ->
         V2.struct_write s st o None = (Normal image, image)
         /\ V2.struct_write s st o (Some buffer)
            = (Normal (underlying buffer), underlying buffer)))
  /\ (Forall (fun e => is_identifier_name (fst e) = true) entries ->
      exists s o,
        V1.build (V1.declare entries le) = Normal s
        /\ V1.struct_read s buffer = (Normal o, underlying buffer)
        /\ ((forall name, In (name, float32) entries -> Get o name <> Num NaN) ->
            V1.struct_write s o None = (Normal image, image)
            /\ V1.struct_write s o (Some buffer)
               = (Normal (underlying buffer), underlying buffer))).
Proof.
  intros Hnd Hproto Hfit Hlen image.
  destruct (layout_read_write (default_true le) entries buffer Hnd Hproto Hfit Hlen)
    as (o & Hr & Hw).
  split.
  - cbn zeta. exists o. rewrite V2_read_now. split; [exact Hr|].
    intros Hnan. rewrite !V2_write_now. now apply Hw.
  - intros Hid. eexists. exists o.
    split; [apply (V1_build_layout entries le Hnd Hid)|].
    cbn [V1.struct_write V1.struct_read]. split; [exact Hr|exact Hw].
Qed.

(** The bytes of the benchmark's record. *)
Lemma read_then_write_witness :
  (NoDup (map fst ComplexStruct) /\ ~ In "__proto__"%string (map fst ComplexStruct)
   /\ view_fits (IsArrayBuffer data_bytes) = true
   /\ (total_width ComplexStruct <= reachable (IsArrayBuffer data_bytes))%nat)
  /\ exists o,
       V2.struct_read (V2.build (fst (V2.declare ComplexStruct None [])))
         (snd (V2.declare ComplexStruct None [])) (IsArrayBuffer data_bytes)
       = (Normal o, data_bytes).
Proof.
  assert (Hnd : NoDup (map fst ComplexStruct))
    by (apply distinct_NoDup; vm_compute; reflexivity).
  assert (Hproto : ~ In "__proto__"%string (map fst ComplexStruct))
    by (cbn; intros H; repeat (destruct H as [H|H]; [discriminate H|]); exact H).
  assert (Hfit : view_fits (IsArrayBuffer data_bytes) = true) by (vm_compute; reflexivity).
  assert (Hlen : (total_width ComplexStruct <= reachable (IsArrayBuffer data_bytes))%nat)
    by (vm_compute; lia).
  split; [exact (conj Hnd (conj Hproto (conj Hfit Hlen)))|].
  destruct (proj1 (read_then_write ComplexStruct None [] (IsArrayBuffer data_bytes)
                     Hnd Hproto Hfit Hlen)) as (o & Hr & _).
  exists o. exact Hr.
Defined.

End Reencoding.

Section ByteOrder.

Import FunctionConstructor Template.

Lemma stored_big_endian (name : string) (ty : FieldType) (o : nat) (v : value) :
  stored (mkAccess name ty o false) v = rev (stored (mkAccess name ty o true) v).
Proof.
  unfold stored. cbn [type isLittleEndian].
  destruct ty; reflexivity.
Qed.

Lemma layout_byte_order (es : list (string * FieldType)) (data : object) :
  let n := total_width es in
  let image le := write_all (mkDataView 0 n) data (layout le es 0) (new_ArrayBuffer n) in
  forall i name ty,
    nth_error es i = Some (name, ty) ->
    slice (image false) (total_width (firstn i es)) (width ty)
    = rev (slice (image true) (total_width (firstn i es)) (width ty)).
Proof.
  intros n image i name ty Hn.
  assert (Ha : forall le, In (mkAccess name ty (total_width (firstn i es)) le)
                             (layout le es 0)).
  { intros le. apply (nth_error_In _ i). rewrite layout_nth, Hn. reflexivity. }
  assert (Hs : forall le,
             slice (image le) (total_width (firstn i es)) (width ty)
             = stored (mkAccess name ty (total_width (firstn i es)) le) (Get data name)).
  { intros le. unfold image.
    pose proof (write_all_slice le (mkDataView 0 n) data es 0 (new_ArrayBuffer n)
                  (mkAccess name ty (total_width (firstn i es)) le)) as H.
    cbn [byteOffset Nat.add at_offset type key] in H. apply H; [|apply Ha].
    unfold new_ArrayBuffer. rewrite repeat_length. fold n. lia. }
  rewrite !Hs. apply stored_big_endian.
Qed.

(** X19.  The byte order of the builder reverses the bytes of each field and
    nothing else: a big-endian struct writes, at each field, the bytes
    that the little-endian struct writes there, in the opposite order (a
    uint8 field being the same in both).  Without an argument the
    constructor makes a little-endian builder. *)
Theorem byte_order_reverses_each_field (entries : list (string * FieldType))
    (st0 : V2.Store) (data : object) :
  exists little big,
    (forall i name ty,
       nth_error entries i = Some (name, ty) ->
       slice big (total_width (firstn i entries)) (width ty)
       = rev (slice little (total_width (firstn i entries)) (width ty)))
    /\ V2.struct_write (V2.build (fst (V2.declare entries None st0)))
         (snd (V2.declare entries None st0)) data None = (Normal little, little)
    /\ V2.struct_write (V2.build (fst (V2.declare entries (Some true) st0)))
         (snd (V2.declare entries (Some true) st0)) data None = (Normal little, little)
    /\ V2.struct_write (V2.build (fst (V2.declare entries (Some false) st0)))
         (snd (V2.declare entries (Some false) st0)) data None = (Normal big, big)
    /\ (forall s, V1.build (V1.declare entries None) = Normal s ->
        NoDup (map fst entries) ->
        Forall (fun e => is_identifier_name (fst e) = true) entries ->
        V1.struct_write s data None = (Normal little, little)
        /\ exists s',
             V1.build (V1.declare entries (Some false)) = Normal s'
             /\ V1.struct_write s' data None = (Normal big, big)).
Proof.
  set (n := total_width entries).
  set (image le := write_all (mkDataView 0 n) data (layout le entries 0) (new_ArrayBuffer n)).
  assert (Hw : forall le, run_writer n (layout le entries 0) data None
                          = (Normal (image le), image le)).
  { intros le. apply run_writer_fresh. intros p Hp. apply layout_range in Hp. unfold n. lia. }
  exists (image true), (image false).
  split; [apply layout_byte_order|].
  rewrite !V2_write_now. cbn [default_true]. fold n.
  split; [apply Hw|]. split; [apply Hw|]. split; [apply Hw|].
  intros s Hs Hnd Hid.
  unfold V1.declare in Hs.
  rewrite (V1_build_layout entries None Hnd Hid) in Hs. injection Hs as <-.
  cbn [V1.struct_write default_true]. split; [apply Hw|].
  eexists. split; [apply (V1_build_layout entries (Some false) Hnd Hid)|].
  cbn [V1.struct_write default_true]. apply Hw.
Qed.

(** The field [flags] of the benchmark's struct, at offset 16. *)
Lemma byte_order_reverses_each_field_witness :
  (NoDup (map fst ComplexStruct)
   /\ Forall (fun e => is_identifier_name (fst e) = true) ComplexStruct)
  /\ exists little big,
       slice big 16 2 = rev (slice little 16 2)
       /\ (exists s, V1.build (V1.declare ComplexStruct None) = Normal s
                     /\ V1.struct_write s data None = (Normal little, little))
       /\ exists s', V1.build (V1.declare ComplexStruct (Some false)) = Normal s'
                     /\ V1.struct_write s' data None = (Normal big, big).
Proof.
  assert (Hnd : NoDup (map fst ComplexStruct))
    by (apply distinct_NoDup; vm_compute; reflexivity).
  assert (Hid : Forall (fun e => is_identifier_name (fst e) = true) ComplexStruct)
    by (apply all_identifiers; vm_compute; reflexivity).
  split; [exact (conj Hnd Hid)|].
  destruct (byte_order_reverses_each_field ComplexStruct [] data)
    as (little & big & Hrev & _ & _ & _ & H1).
  destruct (H1 _ ComplexStruct_built Hnd Hid) as (Hw & Hbig).
  exists little, big. split; [exact (Hrev 4%nat "flags"%string uint16 eq_refl)|].
  split; [|exact Hbig].
  eexists. split; [exact ComplexStruct_built|exact Hw].
Defined.

End ByteOrder.

Section Sharing.

Import FunctionConstructor Template.

Lemma run_writer_fresh_short (le : bool) (es : list (string * FieldType)) (n : nat)
    (data : object) :
  (n < total_width es)%nat ->
  fst (run_writer n (layout le es 0) data None) = Throw RangeError.
Proof.
  intros Hlt. unfold run_writer, bind.
  pose proof (for_of_setters_throw (mkDataView 0 n) data (layout le es 0)
                (new_ArrayBuffer n)) as Ht.
  assert (Hf : forallb (in_bounds (mkDataView 0 n)) (layout le es 0) = false).
  { apply layout_out_of_bounds; [cbn; lia|].
    intros ->. change (total_width []) with 0%nat in Hlt. lia. }
  specialize (Ht Hf).
  destruct (for_of _ _ _) as [[[]|e] ab']; cbn [fst] in *; congruence.
Qed.

(** X4.  A struct of version 2 follows its builder: after further
    declarations, the struct built before reads and writes the fields of
    all the declarations, as the struct built after them does, but keeps
    its [size]; from then on [write] without a target throws a
    RangeError, the fresh buffer being [size] bytes long. *)
Theorem struct_follows_later_declarations (entries more : list (string * FieldType))
    (le : option bool) (st0 : V2.Store) :
  let b := fst (V2.declare entries le st0) in
  let st := snd (V2.declare entries le st0) in
  let b' := fst (V2.reduce more b st) in
  let st' := snd (V2.reduce more b st) in
  V2.struct_size (V2.build b) = total_width entries
  /\ V2.struct_size (V2.build b') = total_width (entries ++ more)
  /\ (forall buffer,
        V2.struct_read (V2.build b) st' buffer = V2.struct_read (V2.build b') st' buffer)
  /\ (forall data target,
        V2.struct_write (V2.build b) st' data (Some target)
        = V2.struct_write (V2.build b') st' data (Some target))
  /\ (more <> [] ->
      forall data, fst (V2.struct_write (V2.build b) st' data None) = Throw RangeError).
Proof.
  cbn zeta.
  set (b := fst (V2.declare entries le st0)). set (st := snd (V2.declare entries le st0)).
  assert (Hb' : fst (V2.reduce more b st)
                = V2.mkBuilder (total_width (entries ++ more)) (V2.this_fields b)
                               (V2.this_littleEndian b)).
  { rewrite V2_reduce_builder. unfold b. rewrite V2_declare_builder.
    cbn [V2.this_size]. now rewrite total_width_app. }
  assert (Hf : V2.deref (snd (V2.reduce more b st)) (V2.this_fields b)
               = map field_of (layout (default_true le) (entries ++ more) 0))
    by apply (V2_declare_fields entries more le st0).
  split; [apply V2_size|]. split; [now rewrite Hb'|]. split; [|split].
  - intros buffer. rewrite Hb'. reflexivity.
  - intros data target. rewrite Hb'. destruct target; reflexivity.
  - intros Hne data.
    pose proof (V2_struct_write_eq b _ _ data None Hf) as E. rewrite E.
    apply run_writer_fresh_short. unfold b. rewrite V2_declare_builder.
    cbn [V2.this_size]. rewrite total_width_app.
    destruct more as [|[n t] more]; [congruence|].
    rewrite total_width_cons. pose proof (width_pos t). lia.
Qed.

(** The struct of the benchmark, after one more declaration on its builder. *)
Lemma struct_follows_later_declarations_witness :
  [("extra"%string, uint8)] <> []
  /\ fst (V2.struct_write (V2.build (fst (V2.declare ComplexStruct None [])))
            (snd (V2.reduce [("extra"%string, uint8)]
                            (fst (V2.declare ComplexStruct None []))
                            (snd (V2.declare ComplexStruct None []))))
            data None)
     = Throw RangeError.
Proof.
  assert (H : [("extra"%string, uint8)] <> []) by discriminate.
  split; [exact H|].
  exact (proj2 (proj2 (proj2 (proj2
           (struct_follows_later_declarations ComplexStruct [("extra"%string, uint8)]
              None [])))) H data).
Defined.

Lemma deref_app_nil (st : V2.Store) (l : V2.loc) : V2.deref (st ++ [[]]) l = V2.deref st l.
Proof.
  unfold V2.deref. destruct (Nat.lt_ge_cases l (length st)) as [H|H].
  - now apply app_nth1.
  - rewrite (nth_overflow st) by exact H.
    destruct (Nat.eq_dec l (length st)) as [->|Hne].
    + now rewrite nth_middle.
    + apply nth_overflow. rewrite length_app. cbn. lia.
Qed.

Lemma V2_declare_others (es : list (string * FieldType)) (le : option bool)
    (st : V2.Store) (l : V2.loc) :
  (l < length st)%nat -> V2.deref (snd (V2.declare es le st)) l = V2.deref st l.
Proof.
  intros Hl. rewrite V2_declare_eq, V2_reduce_others.
  - cbn [V2.new snd]. apply deref_app_nil.
  - cbn [V2.new fst V2.this_fields]. lia.
Qed.

(** X3.  Two builders of version 2 have each their own array of fields: the
    declarations made on a builder created later change nothing for a
    struct of an earlier one. *)
Theorem builders_share_nothing (entries1 entries2 : list (string * FieldType))
    (le1 le2 : option bool) (st0 : V2.Store) :
  let b1 := fst (V2.declare entries1 le1 st0) in
  let st1 := snd (V2.declare entries1 le1 st0) in
  let b2 := fst (V2.declare entries2 le2 st1) in
  let st2 := snd (V2.declare entries2 le2 st1) in
  V2.this_fields b2 <> V2.this_fields b1
  /\ (forall buffer,
        V2.struct_read (V2.build b1) st2 buffer = V2.struct_read (V2.build b1) st1 buffer)
  /\ (forall data target,
        V2.struct_write (V2.build b1) st2 data target
        = V2.struct_write (V2.build b1) st1 data target).
Proof.
  cbn zeta.
  set (b1 := fst (V2.declare entries1 le1 st0)).
  set (st1 := snd (V2.declare entries1 le1 st0)).
  assert (Hlen : length st1 = S (length st0)).
  { unfold st1. rewrite V2_declare_eq, V2_reduce_length. cbn [V2.new snd].
    rewrite length_app. cbn. lia. }
  assert (Hl1 : V2.this_fields b1 = length st0)
    by (unfold b1; now rewrite V2_declare_builder).
  assert (Hd : V2.deref (snd (V2.declare entries2 le2 st1)) (V2.this_fields b1)
               = V2.deref st1 (V2.this_fields b1)).
  { apply V2_declare_others. lia. }
  split; [rewrite V2_declare_builder; cbn [V2.this_fields]; lia|].
  split.
  - intros buffer. cbn [V2.build V2.struct_read]. now rewrite Hd.
  - intros data target. cbn [V2.build V2.struct_write]. now rewrite Hd.
Qed.

(** X7.  A builder on which nothing is declared builds a struct of size 0,
    in both versions: [read] returns the empty record from any buffer,
    and [write] returns its target untouched, or a fresh buffer of no
    byte; neither ever throws. *)
Theorem empty_struct (le : option bool) (st0 : V2.Store) :
  (exists s,
     V1.build (V1.declare [] le) = Normal s
     /\ V1.struct_size s = 0%nat
     /\ (forall buffer, V1.struct_read s buffer = (Normal [], underlying buffer))
     /\ (forall data, V1.struct_write s data None = (Normal [], []))
     /\ (forall data target,
           V1.struct_write s data (Some target)
           = (Normal (underlying target), underlying target)))
  /\ (let s := V2.build (fst (V2.declare [] le st0)) in
      let st := snd (V2.declare [] le st0) in
      V2.struct_size s = 0%nat
      /\ (forall buffer, V2.struct_read s st buffer = (Normal [], underlying buffer))
      /\ (forall data, V2.struct_write s st data None = (Normal [], []))
      /\ (forall data target,
            V2.struct_write s st data (Some target)
            = (Normal (underlying target), underlying target))).
Proof.
  split.
  - eexists. split; [apply (V1_build_declare [] le []); reflexivity|].
    cbn [V1.struct_size V1.struct_read V1.struct_write].
    split; [reflexivity|]. split; [reflexivity|]. split; [reflexivity|].
    intros data target. now destruct target.
  - cbn zeta. split; [apply V2_size|].
    split; [intros buffer; now rewrite V2_read_now|].
    split; [intros data; now rewrite V2_write_now|].
    intros data target. rewrite V2_write_now. now destruct target.
Qed.

End Sharing.

Section Tiling.

Import FunctionConstructor Template.

Lemma layout_packed (le : bool) (es : list (string * FieldType)) (start : nat) :
  packed (map (fun a => (at_offset a, width (type a))) (layout le es start))
         start (start + total_width es) = true.
Proof.
  revert start. induction es as [|[n t] es IH]; intros start.
  - change (total_width []) with 0%nat. cbn. apply Nat.eqb_eq. lia.
  - cbn [layout map packed at_offset type]. rewrite total_width_cons.
    rewrite Nat.eqb_refl. cbn [andb].
    replace (0 <? width t)%nat with true
      by (symmetry; apply Nat.ltb_lt; apply width_pos).
    cbn [andb]. replace (start + (width t + total_width es))%nat
      with (start + width t + total_width es)%nat by lia.
    apply IH.
Qed.

Lemma layout_ordered (le : bool) (es : list (string * FieldType)) (i j : nat)
    (a b : Access) :
  (i < j)%nat ->
  nth_error (layout le es 0) i = Some a -> nth_error (layout le es 0) j = Some b ->
  (at_offset a + width (type a) <= at_offset b)%nat.
Proof.
  intros Hij Ha Hb. rewrite layout_nth in Ha, Hb.
  destruct (nth_error es i) as [[n t]|] eqn:Ei; [|discriminate].
  destruct (nth_error es j) as [[n' t']|] eqn:Ej; [|discriminate].
  cbn in Ha, Hb. injection Ha as <-. injection Hb as <-. cbn.
  rewrite <- (total_width_firstn_S es i n t Ei).
  apply total_width_firstn_mono. lia.
Qed.

(** X1.  The fields of a builder tile the bytes of the struct: the first one
    starts at 0, each next one starts where the one before it ends, every
    field has at least one byte, and the last one ends at the size of the
    builder.  So no two fields overlap and no byte of the struct is
    outside a field.  Both versions lay the fields out alike. *)
Theorem fields_tile_the_struct (entries : list (string * FieldType)) (le : option bool)
    (st0 : V2.Store) :
  let b1 := V1.declare entries le in
  let b2 := fst (V2.declare entries le st0) in
  let ranges1 := map (fun f => (V1.offset f, V1.size f)) (V1.this_fields b1) in
  let ranges2 :=
    map (fun f => (V2.offset f, V2.size f))
        (V2.deref (snd (V2.declare entries le st0)) (V2.this_fields b2)) in
  packed ranges1 0 (V1.this_size b1) = true
  /\ packed ranges2 0 (V2.this_size b2) = true
  /\ ranges1 = ranges2
  /\ forall i j o1 w1 o2 w2,
       (i < j)%nat ->
       nth_error ranges1 i = Some (o1, w1) -> nth_error ranges1 j = Some (o2, w2) ->
       (o1 + w1 <= o2)%nat.
Proof.
  cbn zeta. unfold V1.declare. rewrite V1_reduce_new.
  rewrite V2_declare_fields_now, V2_declare_builder.
  cbn [V1.this_fields V1.this_size V2.this_size]. rewrite !map_map.
  change (fun x => (V1.offset (V1field x), V1.size (V1field x)))
    with (fun a => (at_offset a, width (type a))).
  change (fun x => (V2.offset (field_of x), V2.size (field_of x)))
    with (fun a => (at_offset a, width (type a))).
  split; [apply (layout_packed _ entries 0)|].
  split; [apply (layout_packed _ entries 0)|]. split; [reflexivity|].
  intros i j o1 w1 o2 w2 Hij H1 H2.
  rewrite nth_error_map in H1, H2.
  destruct (nth_error _ i) as [a|] eqn:Ea; [|discriminate].
  destruct (nth_error _ j) as [b|] eqn:Eb; [|discriminate].
  cbn in H1, H2. injection H1 as <- <-. injection H2 as <- <-.
  eapply layout_ordered; eassumption.
Qed.

(** The fields [x] and [flags] of the benchmark's struct, in version 1. *)
Lemma fields_tile_the_struct_witness :
  (1 < 4)%nat
  /\ nth_error (map (fun f => (V1.offset f, V1.size f))
                    (V1.this_fields (V1.declare ComplexStruct None))) 1 = Some (4, 4)%nat
  /\ nth_error (map (fun f => (V1.offset f, V1.size f))
                    (V1.this_fields (V1.declare ComplexStruct None))) 4 = Some (16, 2)%nat
  /\ (4 + 4 <= 16)%nat.
Proof.
  assert (H : (1 < 4)%nat) by lia.
  assert (H1 : nth_error (map (fun f => (V1.offset f, V1.size f))
                    (V1.this_fields (V1.declare ComplexStruct None))) 1 = Some (4, 4)%nat)
    by reflexivity.
  assert (H2 : nth_error (map (fun f => (V1.offset f, V1.size f))
                    (V1.this_fields (V1.declare ComplexStruct None))) 4 = Some (16, 2)%nat)
    by reflexivity.
  split; [exact H|]. split; [exact H1|]. split; [exact H2|].
  exact (proj2 (proj2 (proj2 (fields_tile_the_struct ComplexStruct None [])))
           1%nat 4%nat 4%nat 4%nat 16%nat 2%nat H H1 H2).
Defined.

End Tiling.

Section FieldMap.

Import FunctionConstructor Template.

(** X2.  [fieldMap] of version 1 binds each declared name once, to the index
    in [fields] of the last field declared under that name: a field
    declared earlier under the same name keeps its bytes in the layout
    but is bound to no name. *)
Theorem fieldMap_binds_the_last_declaration (entries : list (string * FieldType))
    (le : option bool) :
  let b := V1.declare entries le in
  NoDup (map fst (V1.this_fieldMap b))
  /\ (forall name, In name (map fst (V1.this_fieldMap b)) <-> In name (map fst entries))
  /\ forall name i,
       In (name, i) (V1.this_fieldMap b) ->
       (exists ty,
          nth_error entries i = Some (name, ty)
          /\ nth_error (V1.this_fields b) i
             = Some (V1.mkField (total_width (firstn i entries)) (width ty)
                                (getter_name ty) (setter_name ty)))
       /\ forall j ty, (i < j)%nat -> nth_error entries j <> Some (name, ty).
Proof.
  cbn zeta. unfold V1.declare. rewrite V1_reduce_new.
  cbn [V1.this_fieldMap V1.this_fields].
  destruct (index_map_last_declaration entries) as (Hnd & Hkeys & Hlast).
  split; [exact Hnd|]. split; [exact Hkeys|].
  intros name i Hin. destruct (Hlast name i Hin) as ((ty & Hn) & Hafter).
  split; [|exact Hafter].
  exists ty. split; [exact Hn|].
  rewrite nth_error_map, layout_nth, Hn. reflexivity.
Qed.

(** The name [a] declared twice: it is bound to the second field. *)
Lemma fieldMap_binds_the_last_declaration_witness :
  In ("a"%string, 1%nat)
     (V1.this_fieldMap (V1.declare [("a"%string, uint8); ("a"%string, uint16)] None))
  /\ nth_error (V1.this_fields
                  (V1.declare [("a"%string, uint8); ("a"%string, uint16)] None)) 1
     = Some (V1.mkField 1 2 "getUint16" "setUint16").
Proof.
  assert (H : In ("a"%string, 1%nat)
                 (V1.this_fieldMap
                    (V1.declare [("a"%string, uint8); ("a"%string, uint16)] None)))
    by (now left).
  split; [exact H|].
  destruct (proj2 (proj2 (fieldMap_binds_the_last_declaration
                            [("a"%string, uint8); ("a"%string, uint16)] None))
              "a"%string 1%nat H) as ((ty & Hn & Hf) & _).
  injection Hn as <-. exact Hf.
Defined.

End FieldMap.

Section Outcome.

Import FunctionConstructor Template.

(** X5.  [build] of version 1 throws nothing but a SyntaxError, that of the
    [Function] constructor (no index of [fieldMap] is out of [fields]),
    and it returns a struct whenever every declared name is an identifier
    name: a name may be declared more than once, or be a reserved word. *)
Theorem build_accepts_identifier_names (entries : list (string * FieldType))
    (le : option bool) :
  (forall e, V1.build (V1.declare entries le) = Throw e -> e = SyntaxError)
  /\ (Forall (fun e => is_identifier_name (fst e) = true) entries ->
      exists s, V1.build (V1.declare entries le) = Normal s
                /\ V1.struct_size s = total_width entries).
Proof.
  split.
  - apply (proj2 (V1_build_outcome (V1.declare entries le))).
    unfold V1.declare. rewrite V1_reduce_new. cbn [V1.this_fields V1.this_fieldMap].
    rewrite length_map. apply index_map_bound.
  - intros Hid. destruct (V1_build_identifiers entries le Hid) as [Hb _].
    eexists. split; [exact Hb|reflexivity].
Qed.

(** A repeated name and a reserved word. *)
Lemma build_accepts_identifier_names_witness :
  Forall (fun e => is_identifier_name (fst e) = true)
         [("a"%string, uint8); ("class"%string, uint8); ("a"%string, uint16)]
  /\ exists s,
       V1.build (V1.declare [("a"%string, uint8); ("class"%string, uint8);
                             ("a"%string, uint16)] None) = Normal s
       /\ V1.struct_size s = 4%nat.
Proof.
  assert (Hid : Forall (fun e => is_identifier_name (fst e) = true)
                  [("a"%string, uint8); ("class"%string, uint8); ("a"%string, uint16)])
    by (apply all_identifiers; vm_compute; reflexivity).
  split; [exact Hid|].
  exact (proj2 (build_accepts_identifier_names
                  [("a"%string, uint8); ("class"%string, uint8); ("a"%string, uint16)]
                  None) Hid).
Defined.

End Outcome.

Section SourceText.

Import FunctionConstructor Template.

Lemma accesses_read_as (le : bool) (es es' : list (string * FieldType)) (start : nat) :
  read_as es es' ->
  accesses (combine (map fst es) (layout le es start)) = Some (layout le es' start).
Proof.
  intros H. revert start. induction H as [|[n t] [n' t'] es es' [Hn Ht] _ IH]; intros start.
  - reflexivity.
  - cbn [fst snd] in Hn, Ht. subst t'.
    cbn [map fst layout combine accesses]. rewrite Hn, IH. reflexivity.
Qed.

Lemma read_as_width (es es' : list (string * FieldType)) :
  read_as es es' -> total_width es = total_width es'.
Proof.
  induction 1 as [|[n t] [n' t'] es es' [_ Ht] _ IH]; [reflexivity|].
  cbn [snd] in Ht. subst t'. now rewrite !total_width_cons, IH.
Qed.

Lemma V1_build_read_as (es es' : list (string * FieldType)) (le : option bool) :
  NoDup (map fst es) -> NoDup (map fst es') -> read_as es es' ->
  V1.build (V1.declare es le)
  = Normal (V1.mkStruct (total_width es')
              (run_reader (layout (default_true le) es' 0))
              (run_writer (total_width es') (layout (default_true le) es' 0))).
Proof.
  intros Hnd Hnd' Hr. rewrite <- (read_as_width es es' Hr).
  apply V1_build_declare.
  rewrite index_map_NoDup by exact Hnd. cbn [app].
  pose proof (bind_entries_combine [] (layout (default_true le) es 0) (map fst es)) as Hb.
  rewrite length_map, !length_layout in Hb. cbn [app length] in Hb.
  rewrite Hb by reflexivity.
  unfold compile. rewrite (accesses_read_as _ es es' 0 Hr).
  now rewrite proto_once_NoDup by now rewrite layout_keys.
Qed.

(** X6.  Version 1 reads the declared names as source text: when each name
    is read as one identifier, a name with spaces around it for
    instance, the struct built is the struct of these identifiers, as
    version 2 builds it, and so accesses the properties of the record
    under the identifiers, not under the names declared. *)
Theorem names_are_read_as_source_text (entries entries' : list (string * FieldType))
    (le : option bool) (st0 : V2.Store) :
  NoDup (map fst entries) -> NoDup (map fst entries') -> read_as entries entries' ->
  let s2 := V2.build (fst (V2.declare entries' le st0)) in
  let st := snd (V2.declare entries' le st0) in
  exists s1,
    V1.build (V1.declare entries le) = Normal s1
    /\ V1.struct_size s1 = V2.struct_size s2
    /\ (forall data target, V1.struct_write s1 data target = V2.struct_write s2 st data target)
    /\ (forall buffer, V1.struct_read s1 buffer = V2.struct_read s2 st buffer).
Proof.
  intros Hnd Hnd' Hr. cbn zeta. eexists.
  split; [apply (V1_build_read_as entries entries' le Hnd Hnd' Hr)|].
  cbn [V1.struct_size V1.struct_write V1.struct_read].
  split; [now rewrite V2_size|]. split.
  - intros data target. now rewrite V2_write_now.
  - intros buffer. now rewrite V2_read_now.
Qed.

(** The name [a] with a space on each side. *)
Lemma names_are_read_as_source_text_witness :
  let padded := String " " (String "a" (String " " EmptyString)) in
  (NoDup (map fst [(padded, uint8)]) /\ NoDup (map fst [("a"%string, uint8)])
   /\ read_as [(padded, uint8)] [("a"%string, uint8)])
  /\ exists s1,
       V1.build (V1.declare [(padded, uint8)] None) = Normal s1
       /\ forall buffer,
            V1.struct_read s1 buffer
            = V2.struct_read (V2.build (fst (V2.declare [("a"%string, uint8)] None [])))
                (snd (V2.declare [("a"%string, uint8)] None [])) buffer.
Proof.
  cbn zeta.
  assert (H1 : NoDup (map fst [(String " " (String "a" (String " " EmptyString)), uint8)]))
    by (apply distinct_NoDup; vm_compute; reflexivity).
  assert (H2 : NoDup (map fst [("a"%string, uint8)]))
    by (apply distinct_NoDup; vm_compute; reflexivity).
  assert (H3 : read_as [(String " " (String "a" (String " " EmptyString)), uint8)]
                       [("a"%string, uint8)])
    by (repeat constructor).
  split; [exact (conj H1 (conj H2 H3))|].
  destruct (names_are_read_as_source_text _ _ None [] H1 H2 H3) as (s1 & Hb & _ & _ & Hr).
  exists s1. split; [exact Hb|exact Hr].
Defined.

End SourceText.

Section AnyByteOrder.

Import FunctionConstructor Template.

(** The value that a field gives back for the value written to it. *)
Lemma read_all_image (le : bool) (es : list (string * FieldType)) (data : object)
    (start : nat) (ab : ArrayBuffer) (o : object) :
  (forall a, In a (layout le es start) ->
     slice ab (at_offset a) (width (type a)) = stored a (Get data (key a))) ->
  read_all (mkDataView 0 (length ab)) ab (layout le es start) o
  = fold_left
      (fun o e =>
         Set_ o (fst e)
              (field_value (snd e)
                 (field_bits (snd e) (Get data (fst e)) mod 256 ^ Z.of_nat (width (snd e)))))
      es o.
Proof.
  revert start o. induction es as [|[n t] es IH]; intros start o H; [reflexivity|].
  cbn [layout]. rewrite read_all_cons. cbn [fold_left fst snd].
  cbn [byteOffset Nat.add key type at_offset].
  pose proof (H (mkAccess n t start le) (or_introl eq_refl)) as Hs.
  cbn [key type at_offset] in Hs. rewrite Hs.
  rewrite loaded_stored_any. cbn [key type].
  apply IH. intros a Ha. apply H. now right.
Qed.

Lemma layout_round_trip_record (le : bool) (es : list (string * FieldType)) (data : object) :
  exists buf,
    run_writer (total_width es) (layout le es 0) data None = (Normal buf, buf)
    /\ run_reader (layout le es 0) (IsArrayBuffer buf)
       = (Normal
            (fold_left
               (fun o e =>
                  Set_ o (fst e)
                       (field_value (snd e)
                          (field_bits (snd e) (Get data (fst e))
                           mod 256 ^ Z.of_nat (width (snd e)))))
               es []), buf).
Proof.
  set (n := total_width es). set (L := layout le es 0).
  set (buf := write_all (mkDataView 0 n) data L (new_ArrayBuffer n)).
  assert (Hrange : forall p, In p L -> (at_offset p + width (type p) <= n)%nat).
  { intros p Hp. apply layout_range in Hp. unfold n. lia. }
  assert (Hlen : length buf = n) by apply length_image.
  exists buf. split; [now apply run_writer_fresh|].
  rewrite run_reader_ok
    by (intros p Hp; specialize (Hrange p Hp); unfold reachable; cbn; lia).
  cbn [view_of underlying]. f_equal. f_equal.
  apply read_all_image. intros a Ha. unfold buf, L.
  apply (write_all_slice le (mkDataView 0 n) data es 0 (new_ArrayBuffer n) a); [|exact Ha].
  unfold new_ArrayBuffer. rewrite repeat_length. cbn. fold n. lia.
Qed.

(** X20.  The record read back does not depend on the byte order: a
    little-endian and a big-endian struct of the same declarations give,
    each from the buffer it wrote, the same record. *)
Theorem round_trip_in_any_byte_order (entries : list (string * FieldType))
    (le1 le2 : option bool) (st0 : V2.Store) (data : object) :
  exists o buf1 buf2,
    V2.struct_write (V2.build (fst (V2.declare entries le1 st0)))
      (snd (V2.declare entries le1 st0)) data None = (Normal buf1, buf1)
    /\ V2.struct_read (V2.build (fst (V2.declare entries le1 st0)))
         (snd (V2.declare entries le1 st0)) (IsArrayBuffer buf1) = (Normal o, buf1)
    /\ V2.struct_write (V2.build (fst (V2.declare entries le2 st0)))
         (snd (V2.declare entries le2 st0)) data None = (Normal buf2, buf2)
    /\ V2.struct_read (V2.build (fst (V2.declare entries le2 st0)))
         (snd (V2.declare entries le2 st0)) (IsArrayBuffer buf2) = (Normal o, buf2).
Proof.
  destruct (layout_round_trip_record (default_true le1) entries data) as (buf1 & Hw1 & Hr1).
  destruct (layout_round_trip_record (default_true le2) entries data) as (buf2 & Hw2 & Hr2).
  eexists. exists buf1, buf2. rewrite !V2_write_now, !V2_read_now.
  split; [exact Hw1|]. split; [exact Hr1|]. split; [exact Hw2|exact Hr2].
Qed.

End AnyByteOrder.

Section Literals.

Import FunctionConstructor Template.

Lemma bind_entries_snoc (L : list Access) (fm : list (string * nat)) (n : string)
    (a : Access) :
  Forall (fun e => (snd e < length L)%nat) fm ->
  bind_entries (L ++ [a]) (assoc_set fm n (length L)) = assoc_set (bind_entries L fm) n a.
Proof.
  induction fm as [|[k i] fm IH]; intros H.
  - cbn. rewrite nth_error_app2 by lia. now rewrite Nat.sub_diag.
  - pose proof (Forall_inv H) as Hi. cbn [snd] in Hi.
    specialize (IH (Forall_inv_tail H)).
    cbn [assoc_set bind_entries].
    destruct (nth_error L i) as [b|] eqn:Eb; [|apply nth_error_None in Eb; lia].
    cbn [assoc_set]. destruct (String.eqb k n).
    + cbn [bind_entries]. rewrite nth_error_app2 by lia. rewrite Nat.sub_diag. cbn.
      f_equal. clear - H. induction fm as [|[k' i'] fm IH]; [reflexivity|].
      pose proof (Forall_inv (Forall_inv_tail H)) as Hi'. cbn [snd] in Hi'.
      cbn [bind_entries]. rewrite nth_error_app1 by lia.
      destruct (nth_error L i'); [|reflexivity]. f_equal. apply IH.
      constructor; [exact (Forall_inv H)|].
      exact (Forall_inv_tail (Forall_inv_tail H)).
    + cbn [bind_entries]. rewrite nth_error_app1 by lia. rewrite Eb. now rewrite IH.
Qed.

Lemma map_assoc_set {V W} (f : V -> W) (l : list (string * V)) (k : string) (v : V) :
  map (fun kv => (fst kv, f (snd kv))) (assoc_set l k v)
  = assoc_set (map (fun kv => (fst kv, f (snd kv))) l) k (f v).
Proof.
  induction l as [|[k' v'] l IH]; [reflexivity|].
  cbn [assoc_set map fst snd]. destruct (String.eqb k' k); cbn [map fst snd];
    [reflexivity|now rewrite IH].
Qed.

Lemma own_assoc_set (kvs : list (string * number)) (k : string) (v : number) :
  own (assoc_set kvs k v) = Set_ (own kvs) k v.
Proof.
  unfold Set_. induction kvs as [|[k' v'] kvs IH].
  - cbn. destruct (String.eqb k "__proto__"); reflexivity.
  - cbn [assoc_set]. destruct (String.eqb k' k) eqn:E.
    + apply String.eqb_eq in E. subst k'. cbn [own filter fst].
      destruct (String.eqb k "__proto__") eqn:P; cbn [negb]; [reflexivity|].
      cbn [assoc_set]. now rewrite String.eqb_refl.
    + cbn [own filter fst]. fold (own (assoc_set kvs k v)). fold (own kvs). rewrite IH.
      destruct (String.eqb k' "__proto__") eqn:P'; cbn [negb].
      * reflexivity.
      * destruct (String.eqb k "__proto__"); [reflexivity|].
        cbn [assoc_set]. now rewrite E.
Qed.

Variable view : DataView.
Variable ab : ArrayBuffer.

Lemma read_all_snoc (ps : list Access) (a : Access) (o : object) :
  read_all view ab (ps ++ [a]) o = Set_ (read_all view ab ps o) (key a) (value_at view ab a).
Proof. unfold read_all. now rewrite fold_left_app. Qed.

(** An object literal with distinct names. *)
Lemma read_all_distinct (ps : list Access) (o : object) :
  NoDup (map fst o ++ map key ps) ->
  read_all view ab ps o = o ++ own (map (fun p => (key p, value_at view ab p)) ps).
Proof.
  revert o. induction ps as [|p ps IH]; intros o Hnd.
  - cbn. now rewrite List.app_nil_r.
  - rewrite read_all_cons. fold (value_at view ab p). cbn [map] in Hnd.
    assert (Hfresh : ~ In (key p) (map fst o)).
    { apply NoDup_remove_2 in Hnd. intros Hin. apply Hnd. apply in_or_app. now left. }
    cbn [map own filter fst]. fold (own (map (fun p => (key p, value_at view ab p)) ps)).
    unfold Set_ at 1. destruct (String.eqb (key p) "__proto__") eqn:P; cbn [negb].
    + apply IH. now apply NoDup_remove_1 in Hnd.
    + rewrite assoc_set_fresh by exact Hfresh.
      rewrite IH; [now rewrite <- List.app_assoc|].
      rewrite map_app, <- List.app_assoc. exact Hnd.
Qed.

(** The loop of version 2 over all the fields builds the record of the
    fields bound in [fieldMap]. *)
Lemma read_all_layout (le : bool) (es : list (string * FieldType)) :
  read_all view ab (layout le es 0) []
  = own (map (fun na => (fst na, value_at view ab (snd na)))
             (bind_entries (layout le es 0) (index_map es 0 []))).
Proof.
  induction es as [|[n t] es IH] using rev_ind; [reflexivity|].
  rewrite layout_app, index_map_snoc. cbn [layout].
  rewrite read_all_snoc, IH. cbn [key].
  rewrite <- (length_layout le es 0).
  rewrite bind_entries_snoc by apply index_map_bound.
  rewrite (map_assoc_set (value_at view ab)), own_assoc_set. reflexivity.
Qed.

Lemma read_all_bound (le : bool) (es : list (string * FieldType)) :
  NoDup (map key (bound_accesses le es)) ->
  read_all view ab (bound_accesses le es) [] = read_all view ab (layout le es 0) [].
Proof.
  intros Hnd. rewrite read_all_distinct by exact Hnd. cbn [app].
  rewrite read_all_layout. unfold bound_accesses. rewrite map_map. reflexivity.
Qed.

End Literals.

Section RepeatedNames.

Import FunctionConstructor Template.

Lemma run_reader_bound (le : bool) (es : list (string * FieldType)) (buffer : BufferArg) :
  NoDup (map key (bound_accesses le es)) ->
  run_reader (bound_accesses le es) buffer = run_reader (layout le es 0) buffer.
Proof.
  intros Hnd. destruct (Nat.lt_ge_cases (reachable buffer) (total_width es)) as [Hlt|Hge].
  - assert (Hne : es <> []).
    { intros ->. change (total_width []) with 0%nat in Hlt. lia. }
    destruct (bound_accesses_last le es Hne) as (p & Hp & Hend).
    rewrite (run_reader_short _ buffer p Hp) by lia.
    symmetry. apply literal_out_of_bounds. apply layout_out_of_bounds; [|exact Hne].
    unfold reachable in Hlt. lia.
  - rewrite !run_reader_ok.
    + now rewrite read_all_bound.
    + intros p Hp. apply layout_range in Hp. lia.
    + intros p Hp. apply bound_accesses_range in Hp. lia.
Qed.

(** X21.  With a name declared more than once the two versions still read
    alike: for identifier names, repeated or not, [read] of version 1
    and [read] of version 2 give the same result for every buffer, the
    same record or the same RangeError. *)
Theorem repeated_names_are_read_alike (entries : list (string * FieldType))
    (le : option bool) (st0 : V2.Store) :
  Forall (fun e => is_identifier_name (fst e) = true) entries ->
  exists s1,
    V1.build (V1.declare entries le) = Normal s1
    /\ forall buffer,
         V1.struct_read s1 buffer
         = V2.struct_read (V2.build (fst (V2.declare entries le st0)))
             (snd (V2.declare entries le st0)) buffer.
Proof.
  intros Hid. destruct (V1_build_identifiers entries le Hid) as [Hb Hnd].
  eexists. split; [exact Hb|].
  intros buffer. cbn [V1.struct_read]. rewrite V2_read_now.
  now apply run_reader_bound.
Qed.

(** The name [a] declared twice, around [b]. *)
Lemma repeated_names_are_read_alike_witness :
  Forall (fun e => is_identifier_name (fst e) = true)
         [("a"%string, uint8); ("b"%string, uint8); ("a"%string, uint16)]
  /\ exists s1,
       V1.build (V1.declare [("a"%string, uint8); ("b"%string, uint8); ("a"%string, uint16)]
                            None) = Normal s1
       /\ V1.struct_read s1 (IsArrayBuffer [x01; x02; x03; x04])
          = V2.struct_read
              (V2.build (fst (V2.declare
                 [("a"%string, uint8); ("b"%string, uint8); ("a"%string, uint16)] None [])))
              (snd (V2.declare
                 [("a"%string, uint8); ("b"%string, uint8); ("a"%string, uint16)] None []))
              (IsArrayBuffer [x01; x02; x03; x04]).
Proof.
  assert (Hid : Forall (fun e => is_identifier_name (fst e) = true)
                  [("a"%string, uint8); ("b"%string, uint8); ("a"%string, uint16)])
    by (apply all_identifiers; vm_compute; reflexivity).
  split; [exact Hid|].
  destruct (repeated_names_are_read_alike _ None [] Hid) as (s1 & Hb & Hr).
  exists s1. split; [exact Hb|apply Hr].
Defined.

Lemma slice_new_ArrayBuffer (n pos w : nat) :
  (pos + w <= n)%nat -> slice (new_ArrayBuffer n) pos w = repeat x00 w.
Proof.
  intros H. apply nth_error_ext. intros i. rewrite nth_error_slice.
  destruct (i <? w)%nat eqn:E.
  - apply Nat.ltb_lt in E. unfold new_ArrayBuffer.
    rewrite !nth_error_repeat by lia. reflexivity.
  - apply Nat.ltb_ge in E. symmetry. apply nth_error_None. now rewrite repeat_length.
Qed.

(** X22.  With a name declared more than once the two versions do not write
    alike: version 1 does not write a field whose name is declared again
    later, the bytes of the field staying zero in a fresh buffer, while
    version 2 writes the value of the property to that field too. *)
Theorem repeated_names_are_not_written_alike (entries : list (string * FieldType))
    (le : option bool) (st0 : V2.Store) (data : object) (i j : nat) (name : string)
    (ty ty' : FieldType) :
  Forall (fun e => is_identifier_name (fst e) = true) entries ->
  (i < j)%nat ->
  nth_error entries i = Some (name, ty) -> nth_error entries j = Some (name, ty') ->
  let at_i := total_width (firstn i entries) in
  exists s1 buf1 buf2,
    V1.build (V1.declare entries le) = Normal s1
    /\ V1.struct_write s1 data None = (Normal buf1, buf1)
    /\ V2.struct_write (V2.build (fst (V2.declare entries le st0)))
         (snd (V2.declare entries le st0)) data None = (Normal buf2, buf2)
    /\ slice buf1 at_i (width ty) = repeat x00 (width ty)
    /\ slice buf2 at_i (width ty)
       = stored (mkAccess name ty at_i (default_true le)) (Get data name).
Proof.
  intros Hid Hij Hi Hj at_i.
  destruct (V1_build_identifiers entries le Hid) as [Hb _].
  set (n := total_width entries) in *.
  set (ps := bound_accesses (default_true le) entries) in *.
  set (L := layout (default_true le) entries 0).
  assert (Hai : (at_i + width ty <= n)%nat).
  { unfold at_i, n. rewrite <- (total_width_firstn_S entries i name ty Hi).
    apply total_width_firstn_le. }
  eexists. exists (write_all (mkDataView 0 n) data ps (new_ArrayBuffer n)),
                  (write_all (mkDataView 0 n) data L (new_ArrayBuffer n)).
  split; [exact Hb|]. cbn [V1.struct_write]. rewrite V2_write_now. fold n L.
  split; [|split; [|split]].
  - apply run_writer_fresh. intros p Hp. now apply bound_accesses_range in Hp.
  - apply run_writer_fresh. intros p Hp. apply layout_range in Hp. unfold n. lia.
  - rewrite write_all_frame; [now apply slice_new_ArrayBuffer|].
    intros p Hp. pose proof (bound_accesses_range _ _ _ Hp) as Hr. fold n in Hr.
    unfold new_ArrayBuffer. rewrite repeat_length. cbn [byteOffset Nat.add].
    split; [exact Hr|].
    destruct (bound_accesses_In _ _ _ Hp) as (k & t & Hk & Ep & Hafter).
    assert (Hne : k <> i).
    { intros ->. rewrite Hi in Hk. injection Hk as Hname _.
      apply (Hafter j ty' Hij). now rewrite <- Hname. }
    rewrite Ep. cbn [at_offset type]. unfold at_i.
    destruct (Nat.lt_ge_cases k i) as [Hlt|Hge].
    + right. rewrite <- (total_width_firstn_S entries k _ t Hk).
      apply total_width_firstn_mono. lia.
    + left. rewrite <- (total_width_firstn_S entries i name ty Hi).
      apply total_width_firstn_mono. lia.
  - pose proof (write_all_slice (default_true le) (mkDataView 0 n) data entries 0
                  (new_ArrayBuffer n) (mkAccess name ty at_i (default_true le))) as H.
    cbn [byteOffset Nat.add at_offset type key] in H. apply H.
    + unfold new_ArrayBuffer. rewrite repeat_length. fold n. lia.
    + apply (nth_error_In _ i). rewrite layout_nth, Hi. reflexivity.
Qed.

(** The name [a] declared twice and the record with 7 for it. *)
Lemma repeated_names_are_not_written_alike_witness :
  (Forall (fun e => is_identifier_name (fst e) = true)
          [("a"%string, uint8); ("a"%string, uint8)]
   /\ (0 < 1)%nat
   /\ nth_error [("a"%string, uint8); ("a"%string, uint8)] 0 = Some ("a"%string, uint8)
   /\ nth_error [("a"%string, uint8); ("a"%string, uint8)] 1 = Some ("a"%string, uint8))
  /\ exists s1 buf1 buf2,
       V1.build (V1.declare [("a"%string, uint8); ("a"%string, uint8)] None) = Normal s1
       /\ V1.struct_write s1 [("a"%string, Number_of_Z 7)] None = (Normal buf1, buf1)
       /\ V2.struct_write
            (V2.build (fst (V2.declare [("a"%string, uint8); ("a"%string, uint8)] None [])))
            (snd (V2.declare [("a"%string, uint8); ("a"%string, uint8)] None []))
            [("a"%string, Number_of_Z 7)] None = (Normal buf2, buf2)
       /\ slice buf1 0 1 = [x00]
       /\ slice buf2 0 1 = [x07].
Proof.
  assert (Hid : Forall (fun e => is_identifier_name (fst e) = true)
                  [("a"%string, uint8); ("a"%string, uint8)])
    by (apply all_identifiers; vm_compute; reflexivity).
  assert (Hij : (0 < 1)%nat) by lia.
  assert (Hi : nth_error [("a"%string, uint8); ("a"%string, uint8)] 0
               = Some ("a"%string, uint8)) by reflexivity.
  assert (Hj : nth_error [("a"%string, uint8); ("a"%string, uint8)] 1
               = Some ("a"%string, uint8)) by reflexivity.
  split; [exact (conj Hid (conj Hij (conj Hi Hj)))|].
  exact (repeated_names_are_not_written_alike _ None [] [("a"%string, Number_of_Z 7)]
           0%nat 1%nat "a"%string uint8 uint8 Hid Hij Hi Hj).
Defined.

End RepeatedNames.

(** * The claims *)

Section Claims.

Import FunctionConstructor Template.

(** C7. Layout determinism: after any chain of [addField] calls the size
    of the builder, and of the struct it builds, is the sum of the widths
    of the declared fields (1, 2, 4 and 4 bytes for uint8, uint16, uint32
    and float32), and the offset of each field is the sum of the widths
    of the fields declared before it.  This holds for both versions. *)
Theorem C7_layout_determinism (entries : list (string * FieldType)) (le : option bool)
    (st0 : V2.Store) :
  let sum_before (i : nat) := total_width (firstn i entries) in
  let b1 := V1.declare entries le in
  let b2 := fst (V2.declare entries le st0) in
  let fields2 := V2.deref (snd (V2.declare entries le st0)) (V2.this_fields b2) in
  (width uint8 = 1 /\ width uint16 = 2 /\ width uint32 = 4 /\ width float32 = 4)%nat
  /\ (V1.this_size b1 = total_width entries
      /\ map V1.size (V1.this_fields b1) = map (fun e => width (snd e)) entries
      /\ map V1.offset (V1.this_fields b1) = map sum_before (seq 0 (length entries))
      /\ forall s, V1.build b1 = Normal s -> V1.struct_size s = total_width entries)
  /\ (V2.this_size b2 = total_width entries
      /\ V2.struct_size (V2.build b2) = total_width entries
      /\ map V2.name fields2 = map fst entries
      /\ map V2.size fields2 = map (fun e => width (snd e)) entries
      /\ map V2.offset fields2 = map sum_before (seq 0 (length entries))).
Proof.
  cbn zeta. split; [now repeat split|]. split.
  - unfold V1.declare. rewrite V1_reduce_new.
    cbn [V1.this_size V1.this_fields]. rewrite !map_map.
    repeat split.
    + change (fun x => V1.size (V1field x)) with (fun x => width (type x)).
      rewrite <- (map_map type width), layout_types, map_map. reflexivity.
    + change (fun x => V1.offset (V1field x)) with at_offset.
      rewrite layout_offsets, offsets_prefix. reflexivity.
    + intros s Hs. apply (proj1 (V1_build_outcome _)) in Hs. exact Hs.
  - rewrite V2_declare_fields_now, V2_declare_builder, !map_map.
    cbn [V2.this_size V2.build V2.struct_size].
    repeat split.
    + change (fun x => V2.name (field_of x)) with key. apply layout_keys.
    + change (fun x => V2.size (field_of x)) with (fun x => width (type x)).
      rewrite <- (map_map type width), layout_types, map_map. reflexivity.
    + change (fun x => V2.offset (field_of x)) with at_offset.
      rewrite layout_offsets, offsets_prefix. reflexivity.
Qed.

(** The struct of the benchmark is built and has the size of its layout. *)
Lemma C7_layout_determinism_witness :
  exists s, V1.build (V1.declare ComplexStruct None) = Normal s
            /\ V1.struct_size s = total_width ComplexStruct.
Proof.
  eexists. split; [exact ComplexStruct_built|].
  exact (proj2 (proj2 (proj2 (proj1 (proj2
           (C7_layout_determinism ComplexStruct None [])))))  _ ComplexStruct_built).
Defined.

(** C4, as amended.  Round trip: for declarations with distinct names,
    none of which is [__proto__] and which for version 1 are identifier
    names, writing a record into a fresh buffer and reading that buffer
    gives back, under each field name, the value the record holds for it,
    whenever that value is exact for the type of the field: an integer
    within the unsigned range of an integer field, a float32 value for a
    float32 field. *)
Theorem C4_round_trip (entries : list (string * FieldType)) (le : option bool)
    (st0 : V2.Store) (data : object) :
  NoDup (map fst entries) -> ~ In "__proto__"%string (map fst entries) ->
  (Forall (fun e => is_identifier_name (fst e) = true) entries ->
   exists s buf o,
     V1.build (V1.declare entries le) = Normal s
     /\ V1.struct_write s data None = (Normal buf, buf)
     /\ V1.struct_read s (IsArrayBuffer buf) = (Normal o, buf)
     /\ forall name ty v,
          In (name, ty) entries -> Get data name = Num v -> exact ty v ->
          Get o name = Num v)
  /\ (let s := V2.build (fst (V2.declare entries le st0)) in
      let st := snd (V2.declare entries le st0) in
      exists buf o,
        V2.struct_write s st data None = (Normal buf, buf)
        /\ V2.struct_read s st (IsArrayBuffer buf) = (Normal o, buf)
        /\ forall name ty v,
             In (name, ty) entries -> Get data name = Num v -> exact ty v ->
             Get o name = Num v).
Proof.
  intros Hnd Hproto.
  destruct (layout_round_trip (default_true le) entries data Hnd Hproto)
    as (buf & o & Hw & Hr & Hrt).
  split.
  - intros Hid. eexists. exists buf, o.
    split; [apply (V1_build_layout entries le Hnd Hid)|].
    cbn [V1.struct_write V1.struct_read]. now repeat split.
  - cbn zeta. exists buf, o.
    rewrite (V2_struct_write_eq _ _ _ _ None (V2_declare_fields_now entries le st0)).
    rewrite (V2_struct_read_eq _ _ _ _ (V2_declare_fields_now entries le st0)).
    rewrite V2_declare_builder. cbn [V2.this_size]. now repeat split.
Qed.

(** The struct and the record of the benchmark make a round trip. *)
Lemma C4_round_trip_witness :
  (NoDup (map fst ComplexStruct)
   /\ ~ In "__proto__"%string (map fst ComplexStruct)
   /\ Forall (fun e => is_identifier_name (fst e) = true) ComplexStruct)
  /\ exists s buf o,
       V1.build (V1.declare ComplexStruct None) = Normal s
       /\ V1.struct_write s data None = (Normal buf, buf)
       /\ V1.struct_read s (IsArrayBuffer buf) = (Normal o, buf)
       /\ forall name ty v,
            In (name, ty) ComplexStruct -> Get data name = Num v -> exact ty v ->
            Get o name = Num v.
Proof.
  assert (Hnd : NoDup (map fst ComplexStruct))
    by (apply distinct_NoDup; vm_compute; reflexivity).
  assert (Hid : Forall (fun e => is_identifier_name (fst e) = true) ComplexStruct)
    by (apply all_identifiers; vm_compute; reflexivity).
  assert (Hproto : ~ In "__proto__"%string (map fst ComplexStruct))
    by (cbn; intros H; repeat (destruct H as [H|H]; [discriminate H|]); exact H).
  split; [repeat split; assumption|].
  exact (proj1 (C4_round_trip ComplexStruct None [] data Hnd Hproto) Hid).
Defined.

(** C4 as stated fails for version 1 when a name is not an identifier
    name: the field named by the letter a followed by a space is compiled
    to accesses of the property [a], so the value the record holds under
    the declared name is not written, and the record read back has no
    property of that name.  It fails for both versions when a field is
    named [__proto__]: the value is written, but storing the number read
    back under that name creates no property. *)
Lemma C4_counterexample :
  (let name := String "a" (String " " EmptyString) in
   let entries := [(name, uint8)] in
   let record : object := [(name, Number_of_Z 5)] in
   NoDup (map fst entries)
   /\ Get record name = Num (Number_of_Z 5)
   /\ exact uint8 (Number_of_Z 5)
   /\ exists s,
        V1.build (V1.declare entries None) = Normal s
        /\ V1.struct_write s record None = (Normal [x00], [x00])
        /\ V1.struct_read s (IsArrayBuffer [x00])
           = (Normal [("a"%string, Zero false)], [x00])
        /\ Get [("a"%string, Zero false)] name = undefined)
  /\ (let entries := [("__proto__"%string, uint8)] in
      let record : object := [("__proto__"%string, Number_of_Z 5)] in
      let s := V2.build (fst (V2.declare entries None [])) in
      let st := snd (V2.declare entries None []) in
      Get record "__proto__" = Num (Number_of_Z 5)
      /\ V2.struct_write s st record None = (Normal [x05], [x05])
      /\ V2.struct_read s st (IsArrayBuffer [x05]) = (Normal [], [x05])
      /\ Get [] "__proto__" = Inherited).
Proof.
  cbn zeta. split.
  - split; [repeat constructor; intros []|].
    split; [reflexivity|]. split; [exists 5; split; [lia|reflexivity]|].
    eexists. split.
    + apply (V1_build_declare _ _ [mkAccess "a" uint8 0 true]). vm_compute. reflexivity.
    + cbn [V1.struct_write V1.struct_read]. repeat split.
  - repeat split; vm_compute; reflexivity.
Qed.

(** C5, as amended.  Strategy equivalence: for declarations with distinct
    identifier names and the same byte order, version 1 builds a struct,
    and it is the struct of version 2: same size, same result and same
    bytes of [write] for every record and every target, same result of
    [read] for every buffer. *)
Theorem C5_strategy_equivalence (entries : list (string * FieldType)) (le : option bool)
    (st0 : V2.Store) :
  NoDup (map fst entries) ->
  Forall (fun e => is_identifier_name (fst e) = true) entries ->
  let s2 := V2.build (fst (V2.declare entries le st0)) in
  let st := snd (V2.declare entries le st0) in
  exists s1,
    V1.build (V1.declare entries le) = Normal s1
    /\ V1.struct_size s1 = V2.struct_size s2
    /\ (forall data target, V1.struct_write s1 data target = V2.struct_write s2 st data target)
    /\ (forall buffer, V1.struct_read s1 buffer = V2.struct_read s2 st buffer).
Proof.
  intros Hnd Hid. cbn zeta. eexists.
  split; [apply (V1_build_layout entries le Hnd Hid)|].
  cbn [V1.struct_size V1.struct_write V1.struct_read].
  split; [now rewrite V2_size|]. split.
  - intros data0 target.
    rewrite (V2_struct_write_eq _ _ _ _ target (V2_declare_fields_now entries le st0)).
    now rewrite V2_declare_builder.
  - intros buffer.
    now rewrite (V2_struct_read_eq _ _ _ buffer (V2_declare_fields_now entries le st0)).
Qed.

(** The two structs of the benchmark are equivalent. *)
Lemma C5_strategy_equivalence_witness :
  (NoDup (map fst ComplexStruct)
   /\ Forall (fun e => is_identifier_name (fst e) = true) ComplexStruct)
  /\ exists s1,
       V1.build (V1.declare ComplexStruct None) = Normal s1
       /\ V1.struct_size s1
          = V2.struct_size (V2.build (fst (V2.declare ComplexStruct None []))).
Proof.
  assert (Hnd : NoDup (map fst ComplexStruct))
    by (apply distinct_NoDup; vm_compute; reflexivity).
  assert (Hid : Forall (fun e => is_identifier_name (fst e) = true) ComplexStruct)
    by (apply all_identifiers; vm_compute; reflexivity).
  split; [split; assumption|].
  destruct (C5_strategy_equivalence ComplexStruct None [] Hnd Hid) as (s1 & H1 & H2 & _).
  exists s1. split; assumption.
Defined.

(** C5 as stated fails: with a field named [a-b] version 1 builds no
    struct at all, the text of the reader being refused with a
    SyntaxError, while version 2 builds one that reads the field. *)
Lemma C5_counterexample :
  let entries := [("a-b"%string, uint8)] in
  NoDup (map fst entries)
  /\ V1.build (V1.declare entries None) = Throw SyntaxError
  /\ V2.struct_read (V2.build (fst (V2.declare entries None [])))
       (snd (V2.declare entries None [])) (IsArrayBuffer [x07])
     = (Normal [("a-b"%string, Number_of_Z 7)], [x07]).
Proof.
  cbn zeta. split; [repeat constructor; intros []|]. split.
  - vm_compute. reflexivity.
  - vm_compute. reflexivity.
Qed.

(** C6, as amended.  The benchmark's struct, little-endian: its size is
    20 (four bytes for [id], twelve for [x], [y] and [z], two for [flags],
    one each for [type] and [reserved]), and writing the benchmark's
    record then reading the buffer returns exactly that record, with
    [flags] equal to 43690.  This holds for both versions. *)
Theorem C6_benchmark_scenario :
  (exists s,
     V1.build (V1.declare ComplexStruct None) = Normal s
     /\ V1.struct_size s = 20%nat
     /\ V1.struct_write s data None = (Normal data_bytes, data_bytes)
     /\ V1.struct_read s (IsArrayBuffer data_bytes) = (Normal data, data_bytes))
  /\ (let s := V2.build (fst (V2.declare ComplexStruct None [])) in
      let st := snd (V2.declare ComplexStruct None []) in
      V2.struct_size s = 20%nat
      /\ V2.struct_write s st data None = (Normal data_bytes, data_bytes)
      /\ V2.struct_read s st (IsArrayBuffer data_bytes) = (Normal data, data_bytes))
  /\ Get data "flags" = Num (Number_of_Z 43690).
Proof.
  split; [|split; [|reflexivity]].
  - eexists. split; [exact ComplexStruct_built|].
    cbn [V1.struct_size V1.struct_write V1.struct_read].
    repeat split; vm_compute; reflexivity.
  - cbn zeta. repeat split; vm_compute; reflexivity.
Qed.

(** C6 as stated fails on the size: the struct of the benchmark is 20
    bytes long in both versions, not 18. *)
Lemma C6_counterexample :
  (forall s, V1.build (V1.declare ComplexStruct None) = Normal s ->
             V1.struct_size s <> 18%nat)
  /\ V2.struct_size (V2.build (fst (V2.declare ComplexStruct None []))) <> 18%nat.
Proof.
  split.
  - intros s E. rewrite ComplexStruct_built in E. injection E as <-.
    cbn [V1.struct_size]. discriminate.
  - vm_compute. discriminate.
Qed.

(** C3.  A struct of version 2 is not isolated from its builder: [build]
    hands the array [fields] itself to [read] and [write], so a field
    added after [build] is read and written by the struct built before.
    Here [a] is declared, the struct is built, then [b] is declared: the
    size of the struct stays 1, but [read] of two bytes now returns [b] as
    well, and [write] into a fresh buffer, still of one byte, now throws
    a RangeError.  A struct of version 1 holds compiled functions and no
    reference to its builder. *)
Theorem C3_struct_shares_fields_with_builder :
  let b := fst (V2.declare [("a"%string, uint8)] None []) in
  let st := snd (V2.declare [("a"%string, uint8)] None []) in
  let s := V2.build b in
  let st' := snd (V2.addField b "b" uint8 st) in
  let one : object := [("a"%string, Number_of_Z 1)] in
  V2.struct_size s = 1%nat
  /\ V2.struct_read s st (IsArrayBuffer [x01; x02])
     = (Normal [("a"%string, Number_of_Z 1)], [x01; x02])
  /\ V2.struct_read s st' (IsArrayBuffer [x01; x02])
     = (Normal [("a"%string, Number_of_Z 1); ("b"%string, Number_of_Z 2)], [x01; x02])
  /\ V2.struct_write s st one None = (Normal [x01], [x01])
  /\ V2.struct_write s st' one None = (Throw RangeError, [x01]).
Proof.
  cbn zeta. repeat split; vm_compute; reflexivity.
Qed.


Lemma V1_addField_declare (entries : list (string * FieldType)) (le : option bool)
    (name : string) (ty : FieldType) :
  V1.addField (V1.declare entries le) name ty = V1.declare (entries ++ [(name, ty)]) le.
Proof.
  unfold V1.declare, V1.reduce. now rewrite fold_left_app.
Qed.

Lemma stored_missing (data0 : object) (name : string) (ty : FieldType) (o : nat)
    (le : bool) :
  assoc_get data0 name = None ->
  stored (mkAccess name ty o le) (Get data0 name) = NaN_bytes le ty.
Proof.
  intros H. unfold Get. rewrite H.
  destruct (inherited name), ty, le; reflexivity.
Qed.

Lemma missing_as_NaN (data0 : object) (name : string) :
  assoc_get data0 name = None ->
  forall k, ToNumber (Get data0 k) = ToNumber (Get (Set_ data0 name NaN) k).
Proof.
  intros Hu k. destruct (string_dec name k) as [<-|Hne].
  - unfold Get at 1. rewrite Hu.
    assert (Hl : ToNumber (if inherited name then Inherited else undefined) = NaN)
      by now destruct (inherited name).
    rewrite Hl. destruct (string_dec name "__proto__") as [->|Hp].
    + unfold Set_. cbn [String.eqb Ascii.eqb Bool.eqb]. unfold Get. now rewrite Hu.
    + now rewrite Get_Set_same.
  - now rewrite Get_Set_other.
Qed.

(** The bytes that the layout leaves, in a fresh buffer, in a field whose
    name the record lacks. *)
Lemma layout_missing (le : bool) (es : list (string * FieldType)) (data0 : object)
    (i : nat) (name : string) (ty : FieldType) :
  nth_error es i = Some (name, ty) -> assoc_get data0 name = None ->
  slice (write_all (mkDataView 0 (total_width es)) data0 (layout le es 0)
                   (new_ArrayBuffer (total_width es)))
        (total_width (firstn i es)) (width ty)
  = NaN_bytes le ty.
Proof.
  intros Hi Hmiss.
  pose proof (write_all_slice le (mkDataView 0 (total_width es)) data0 es 0
                (new_ArrayBuffer (total_width es))
                (mkAccess name ty (total_width (firstn i es)) le)) as H.
  cbn [byteOffset Nat.add at_offset type key] in H. rewrite H.
  - now apply stored_missing.
  - unfold new_ArrayBuffer. rewrite repeat_length. cbn [byteOffset]. lia.
  - apply (nth_error_In _ i). rewrite layout_nth, Hi. reflexivity.
Qed.

(** C1, as amended.  A missing field is not detected.  [write] into a
    fresh buffer returns the buffer for every record, complete or not,
    and a property that the record lacks is written as NaN is: [write]
    gives the same result, into any target, as for the record with NaN
    under that name, and in the fresh buffer the bytes of a field whose
    name the record lacks are zeros for an integer field and the word of
    NaN, [0x7fc00000] in the byte order of the struct, for a float32
    field, a word that is read as NaN.  This holds for a struct of
    version 2 used in the state that its builder had at [build], whatever
    the names are; and for version 1, which then builds a struct, when
    the names are identifier names, the bytes being those of each field
    when the names are distinct as well. *)
Theorem C1_missing_field_written_as_NaN (entries : list (string * FieldType))
    (le : option bool) (st0 : V2.Store) (data0 : object) :
  (Forall (fun e => is_identifier_name (fst e) = true) entries ->
   exists s buf,
     V1.build (V1.declare entries le) = Normal s
     /\ V1.struct_write s data0 None = (Normal buf, buf)
     /\ (forall name target, assoc_get data0 name = None ->
           V1.struct_write s data0 target
           = V1.struct_write s (Set_ data0 name NaN) target)
     /\ (NoDup (map fst entries) ->
         forall i name ty,
           nth_error entries i = Some (name, ty) -> assoc_get data0 name = None ->
           slice buf (total_width (firstn i entries)) (width ty)
           = NaN_bytes (default_true le) ty))
  /\ (let s := V2.build (fst (V2.declare entries le st0)) in
      let st := snd (V2.declare entries le st0) in
      exists buf,
        V2.struct_write s st data0 None = (Normal buf, buf)
        /\ (forall name target, assoc_get data0 name = None ->
              V2.struct_write s st data0 target
              = V2.struct_write s st (Set_ data0 name NaN) target)
        /\ (forall i name ty,
              nth_error entries i = Some (name, ty) -> assoc_get data0 name = None ->
              slice buf (total_width (firstn i entries)) (width ty)
              = NaN_bytes (default_true le) ty))
  /\ (forall littleEndian : bool,
        float32_of_bits
          (RawBytesToNumeric (if littleEndian then NaN_bytes littleEndian float32
                              else rev (NaN_bytes littleEndian float32)))
        = NaN).
Proof.
  set (n := total_width entries).
  set (L := layout (default_true le) entries 0).
  assert (HL : forall p, In p L -> (at_offset p + width (type p) <= n)%nat).
  { intros p Hp. apply layout_range in Hp. unfold n. lia. }
  split; [|split].
  - intros Hid. destruct (V1_build_identifiers entries le Hid) as [Hb _].
    fold n in Hb. set (ps := bound_accesses (default_true le) entries) in *.
    assert (Hps : forall p, In p ps -> (at_offset p + width (type p) <= n)%nat)
      by apply bound_accesses_range.
    eexists. exists (write_all (mkDataView 0 n) data0 ps (new_ArrayBuffer n)).
    split; [exact Hb|]. cbn [V1.struct_write].
    split; [now apply run_writer_fresh|]. split.
    + intros name target Hu. apply run_writer_ext. now apply missing_as_NaN.
    + intros Hnd i name ty Hi Hmiss.
      pose proof (V1_build_layout entries le Hnd Hid) as Hl.
      unfold V1.declare in Hb. rewrite Hl in Hb. injection Hb as _ Ew.
      fold n L ps in Ew.
      assert (E : run_writer n L data0 None = run_writer n ps data0 None) by now rewrite Ew.
      rewrite !run_writer_fresh in E by assumption. injection E as E.
      rewrite <- E. exact (layout_missing _ entries data0 i name ty Hi Hmiss).
  - cbn zeta. exists (write_all (mkDataView 0 n) data0 L (new_ArrayBuffer n)).
    split; [|split].
    + rewrite V2_write_now. now apply run_writer_fresh.
    + intros name target Hu. rewrite !V2_write_now.
      apply run_writer_ext. now apply missing_as_NaN.
    + intros i name ty Hi Hmiss. exact (layout_missing _ entries data0 i name ty Hi Hmiss).
  - intros [|]; vm_compute; reflexivity.
Qed.

(** The record of the benchmark without [type]: its byte is 0. *)
Lemma C1_missing_field_written_as_NaN_witness :
  (Forall (fun e => is_identifier_name (fst e) = true) ComplexStruct
   /\ NoDup (map fst ComplexStruct)
   /\ nth_error ComplexStruct 5 = Some ("type"%string, uint8)
   /\ assoc_get data_without_type "type" = None)
  /\ exists s buf,
       V1.build (V1.declare ComplexStruct None) = Normal s
       /\ V1.struct_write s data_without_type None = (Normal buf, buf)
       /\ V1.struct_write s data_without_type None
          = V1.struct_write s (Set_ data_without_type "type" NaN) None
       /\ slice buf 18 1 = [x00].
Proof.
  assert (Hid : Forall (fun e => is_identifier_name (fst e) = true) ComplexStruct)
    by (apply all_identifiers; vm_compute; reflexivity).
  assert (Hnd : NoDup (map fst ComplexStruct))
    by (apply distinct_NoDup; vm_compute; reflexivity).
  assert (Hi : nth_error ComplexStruct 5 = Some ("type"%string, uint8)) by reflexivity.
  assert (H : assoc_get data_without_type "type" = None) by reflexivity.
  split; [exact (conj Hid (conj Hnd (conj Hi H)))|].
  destruct (proj1 (C1_missing_field_written_as_NaN ComplexStruct None [] data_without_type)
              Hid) as (s & buf & Hb & Hw & Hext & Hbytes).
  exists s, buf. split; [exact Hb|]. split; [exact Hw|].
  split; [exact (Hext "type"%string None H)|].
  exact (Hbytes Hnd 5%nat "type"%string uint8 Hi H).
Defined.

(** C1 as stated fails: the record of the benchmark without [type] is
    written by both versions without any error, the byte of [type] (at
    offset 18) being 0. *)
Lemma C1_counterexample :
  let bytes :=
    [xd2; x04; x00; x00; x00; x00; xc0; x3f; x00; x00; x20; x40; x00; x00; x60; x40;
     xaa; xaa; x00; x00] in
  Get data_without_type "type" = undefined
  /\ In ("type"%string, uint8) ComplexStruct
  /\ (exists s, V1.build (V1.declare ComplexStruct None) = Normal s
                /\ V1.struct_write s data_without_type None = (Normal bytes, bytes))
  /\ V2.struct_write (V2.build (fst (V2.declare ComplexStruct None [])))
       (snd (V2.declare ComplexStruct None [])) data_without_type None
     = (Normal bytes, bytes).
Proof.
  cbn zeta. split; [reflexivity|]. split; [cbn; tauto|]. split.
  - eexists. split; [exact ComplexStruct_built|].
    cbn [V1.struct_write]. vm_compute. reflexivity.
  - vm_compute. reflexivity.
Qed.

(** C2, as amended.  A second declaration of a name is accepted:
    [addField] returns the builder with one more field, placed at the
    size reached before the call, and with the size increased by the width
    of the type.  Version 1 binds the name to the new field, at the
    place the name already has in [fieldMap]; version 2 keeps both fields
    under the one name.  [build] after the second declaration returns a
    struct of the increased size, in version 2 always and in version 1
    when every name declared is an identifier name. *)
Theorem C2_duplicate_name_accepted (name : string) (ty : FieldType) :
  (forall b : V1.BinaryStructBuilderV1,
     In name (map fst (V1.this_fieldMap b)) ->
     let b' := V1.addField b name ty in
     V1.this_size b' = (V1.this_size b + width ty)%nat
     /\ V1.this_fields b'
        = V1.this_fields b
            ++ [V1.mkField (V1.this_size b) (width ty) (getter_name ty) (setter_name ty)]
     /\ map fst (V1.this_fieldMap b') = map fst (V1.this_fieldMap b)
     /\ assoc_get (V1.this_fieldMap b') name = Some (length (V1.this_fields b)))
  /\ (forall (b : V2.BinaryStructBuilderV2) (st : V2.Store),
        (V2.this_fields b < length st)%nat ->
        In name (map V2.name (V2.deref st (V2.this_fields b))) ->
        let b' := fst (V2.addField b name ty st) in
        let st' := snd (V2.addField b name ty st) in
        V2.this_size b' = (V2.this_size b + width ty)%nat
        /\ V2.this_fields b' = V2.this_fields b
        /\ V2.struct_size (V2.build b') = (V2.this_size b + width ty)%nat
        /\ exists f,
             V2.deref st' (V2.this_fields b) = V2.deref st (V2.this_fields b) ++ [f]
             /\ V2.name f = name /\ V2.offset f = V2.this_size b
             /\ V2.size f = width ty)
  /\ (forall (entries : list (string * FieldType)) (le : option bool),
        In name (map fst entries) ->
        Forall (fun e => is_identifier_name (fst e) = true) entries ->
        exists s,
          V1.build (V1.addField (V1.declare entries le) name ty) = Normal s
          /\ V1.struct_size s = (total_width entries + width ty)%nat).
Proof.
  split; [|split].
  - intros b Hin. cbn zeta. rewrite V1_addField_eq.
    cbn [V1.this_size V1.this_fields V1.this_fieldMap]. repeat split.
    + now apply assoc_set_keys.
    + apply assoc_get_set_same.
  - intros b st Hlt Hin. cbn zeta. rewrite V2_addField_eq.
    cbn [fst snd V2.this_size V2.this_fields V2.build V2.struct_size]. repeat split.
    eexists. split; [apply deref_push_same; exact Hlt|]. now repeat split.
  - intros entries le Hin Hid. rewrite V1_addField_declare.
    assert (Hname : is_identifier_name name = true).
    { apply in_map_iff in Hin as ([n t] & <- & Hin).
      rewrite Forall_forall in Hid. exact (Hid _ Hin). }
    assert (Hid' : Forall (fun e => is_identifier_name (fst e) = true)
                          (entries ++ [(name, ty)])).
    { apply Forall_app. split; [exact Hid|]. constructor; [exact Hname|constructor]. }
    destruct (V1_build_identifiers _ le Hid') as [Hb _].
    eexists. split; [exact Hb|]. cbn [V1.struct_size].
    rewrite total_width_app, total_width_cons. change (total_width []) with 0%nat. lia.
Qed.

(** A builder on which [a] is declared, and [a] declared again. *)
Lemma C2_duplicate_name_accepted_witness :
  (In "a"%string (map fst (V1.this_fieldMap (V1.declare [("a"%string, uint8)] None)))
   /\ V1.this_size (V1.addField (V1.declare [("a"%string, uint8)] None) "a" uint16)
      = 3%nat)
  /\ (let b := fst (V2.declare [("a"%string, uint8)] None []) in
      let st := snd (V2.declare [("a"%string, uint8)] None []) in
      (V2.this_fields b < length st)%nat
      /\ In "a"%string (map V2.name (V2.deref st (V2.this_fields b)))
      /\ V2.this_size (fst (V2.addField b "a" uint16 st)) = 3%nat)
  /\ (In "a"%string (map fst [("a"%string, uint8)])
      /\ Forall (fun e => is_identifier_name (fst e) = true) [("a"%string, uint8)]
      /\ exists s,
           V1.build (V1.addField (V1.declare [("a"%string, uint8)] None) "a" uint16)
           = Normal s
           /\ V1.struct_size s = 3%nat).
Proof.
  assert (H1 : In "a"%string
                  (map fst (V1.this_fieldMap (V1.declare [("a"%string, uint8)] None))))
    by (vm_compute; left; reflexivity).
  assert (H2 : (V2.this_fields (fst (V2.declare [("a"%string, uint8)] None []))
                < length (snd (V2.declare [("a"%string, uint8)] None [])))%nat)
    by (vm_compute; lia).
  assert (H3 : In "a"%string
                  (map V2.name
                       (V2.deref (snd (V2.declare [("a"%string, uint8)] None []))
                          (V2.this_fields (fst (V2.declare [("a"%string, uint8)] None []))))))
    by (cbn; left; reflexivity).
  assert (H4 : In "a"%string (map fst [("a"%string, uint8)])) by (left; reflexivity).
  assert (H5 : Forall (fun e => is_identifier_name (fst e) = true) [("a"%string, uint8)])
    by (apply all_identifiers; vm_compute; reflexivity).
  split; [split; [exact H1|]|split; [cbn zeta; split; [exact H2|split; [exact H3|]]|]].
  - exact (proj1 (proj1 (C2_duplicate_name_accepted "a" uint16)
                    (V1.declare [("a"%string, uint8)] None) H1)).
  - exact (proj1 (proj1 (proj2 (C2_duplicate_name_accepted "a" uint16))
                    (fst (V2.declare [("a"%string, uint8)] None []))
                    (snd (V2.declare [("a"%string, uint8)] None [])) H2 H3)).
  - split; [exact H4|]. split; [exact H5|].
    exact (proj2 (proj2 (C2_duplicate_name_accepted "a" uint16))
             [("a"%string, uint8)] None H4 H5).
Defined.

(** C2 as stated fails: on a builder where [a] is declared, [addField]
    with [a] again returns a builder, in both versions, and [build] then
    returns a struct; nothing signals the duplicate. *)
Lemma C2_counterexample :
  V1.addField (V1.declare [("a"%string, uint8)] None) "a" uint16
  = V1.mkBuilder 3
      [V1.mkField 0 1 "getUint8" "setUint8"; V1.mkField 1 2 "getUint16" "setUint16"]
      [("a"%string, 1%nat)] true
  /\ (exists s,
        V1.build (V1.addField (V1.declare [("a"%string, uint8)] None) "a" uint16)
        = Normal s)
  /\ (let b := fst (V2.declare [("a"%string, uint8)] None []) in
      let st := snd (V2.declare [("a"%string, uint8)] None []) in
      fst (V2.addField b "a" uint16 st) = V2.mkBuilder 3 0%nat true
      /\ map (fun f => (V2.name f, V2.offset f, V2.size f))
             (V2.deref (snd (V2.addField b "a" uint16 st)) 0%nat)
         = [("a"%string, 0%nat, 1%nat); ("a"%string, 1%nat, 2%nat)]).
Proof.
  split; [reflexivity|]. split.
  - change (V1.addField (V1.declare [("a"%string, uint8)] None) "a" uint16)
      with (V1.declare [("a"%string, uint8); ("a"%string, uint16)] None).
    eexists. apply (V1_build_declare _ _ [mkAccess "a" uint16 1 true]).
    vm_compute. reflexivity.
  - cbn zeta. split; reflexivity.
Qed.

(** ** Claims on every built codec

    Version 2 pastes no name into any text, and the three claims below
    hold for it whatever the names are.  Version 1 compiles the text that
    the names make: the claims hold for it when every declared name is
    an identifier name, and each fails for some other name. *)

Lemma new_Function_buffer_wide (body : string) (ts : list token) (ps : list property) :
  tokenize body = Some ts -> parse_reader ts = None -> parse_reader_wide ts = Some ps ->
  new_Function_buffer body = Normal (run_reader_wide ps).
Proof.
  intros Ht Hp Hw. unfold new_Function_buffer. now rewrite Ht, Hp, Hw.
Qed.

Lemma new_Function_data_buffer_wide (body : string) (ts : list token) (n : nat)
    (ss : list statement) :
  tokenize body = Some ts -> parse_writer ts = None -> parse_writer_wide ts = Some (n, ss) ->
  new_Function_data_buffer body = Normal (run_writer_wide n ss).
Proof.
  intros Ht Hp Hw. unfold new_Function_data_buffer. now rewrite Ht, Hp, Hw.
Qed.

(** [build], step by step. *)
Lemma V1_build_steps (b : V1.BinaryStructBuilderV1) (reads writes : list string)
    (readFn : BufferArg -> Outcome object)
    (writeFn : object -> option BufferArg -> Outcome ArrayBuffer) :
  V1.map_entries (V1.read_entry (V1.this_littleEndian b)) (V1.this_fields b)
                 (V1.this_fieldMap b) = Normal reads ->
  new_Function_buffer (V1.read_body reads) = Normal readFn ->
  V1.map_entries (V1.write_entry (V1.this_littleEndian b)) (V1.this_fields b)
                 (V1.this_fieldMap b) = Normal writes ->
  new_Function_data_buffer (V1.write_body (V1.this_size b) writes) = Normal writeFn ->
  V1.build b = Normal (V1.mkStruct (V1.this_size b) readFn writeFn).
Proof.
  intros H1 H2 H3 H4. unfold V1.build. now rewrite H1, H2, H3, H4.
Qed.

(** C8, as amended.  Bounds rejection: reading through a buffer, or a
    view, that is shorter than the size of the struct throws a RangeError
    and returns no record; the buffer is left as it was.  This holds for
    version 2 whatever the names are, in every later state of the builder
    as well, and for version 1, which then builds a struct, when the
    names are identifier names. *)
Theorem C8_bounds_rejection (entries more : list (string * FieldType)) (le : option bool)
    (st0 : V2.Store) (buffer : BufferArg) :
  (Forall (fun e => is_identifier_name (fst e) = true) entries ->
   exists s,
     V1.build (V1.declare entries le) = Normal s
     /\ ((reachable buffer < V1.struct_size s)%nat ->
         V1.struct_read s buffer = (Throw RangeError, underlying buffer)))
  /\ (let b := fst (V2.declare entries le st0) in
      let st := snd (V2.declare entries le st0) in
      (reachable buffer < V2.struct_size (V2.build b))%nat ->
      V2.struct_read (V2.build b) (snd (V2.reduce more b st)) buffer
      = (Throw RangeError, underlying buffer)).
Proof.
  split.
  - intros Hid. destruct (V1_build_identifiers entries le Hid) as [Hb _].
    eexists. split; [exact Hb|].
    cbn [V1.struct_size V1.struct_read]. intros Hlt.
    assert (Hne : entries <> []).
    { intros ->. change (total_width []) with 0%nat in Hlt. lia. }
    destruct (bound_accesses_last (default_true le) entries Hne) as (p & Hp & Hend).
    apply (run_reader_short _ buffer p Hp). lia.
  - cbn zeta. intros Hlt. rewrite V2_size in Hlt.
    rewrite (V2_struct_read_eq _ _ _ buffer (V2_declare_fields entries more le st0)).
    apply literal_out_of_bounds. apply layout_out_of_bounds.
    + rewrite total_width_app. unfold reachable in Hlt. lia.
    + destruct entries; [|discriminate].
      change (total_width []) with 0%nat in Hlt. lia.
Qed.

(** Nineteen bytes are too few for the struct of the benchmark. *)
Lemma C8_bounds_rejection_witness :
  (Forall (fun e => is_identifier_name (fst e) = true) ComplexStruct
   /\ (reachable (IsArrayBuffer (new_ArrayBuffer 19)) < 20)%nat)
  /\ (exists s,
        V1.build (V1.declare ComplexStruct None) = Normal s
        /\ V1.struct_size s = 20%nat
        /\ V1.struct_read s (IsArrayBuffer (new_ArrayBuffer 19))
           = (Throw RangeError, new_ArrayBuffer 19))
  /\ V2.struct_read (V2.build (fst (V2.declare ComplexStruct None [])))
       (snd (V2.reduce [] (fst (V2.declare ComplexStruct None []))
                       (snd (V2.declare ComplexStruct None []))))
       (IsArrayBuffer (new_ArrayBuffer 19))
     = (Throw RangeError, new_ArrayBuffer 19).
Proof.
  assert (Hid : Forall (fun e => is_identifier_name (fst e) = true) ComplexStruct)
    by (apply all_identifiers; vm_compute; reflexivity).
  assert (H1 : (reachable (IsArrayBuffer (new_ArrayBuffer 19)) < 20)%nat)
    by (vm_compute; lia).
  split; [split; assumption|]. split.
  - destruct (proj1 (C8_bounds_rejection ComplexStruct [] None []
                       (IsArrayBuffer (new_ArrayBuffer 19))) Hid) as (s & Hb & Hthrow).
    assert (Hs : V1.struct_size s = 20%nat).
    { rewrite ComplexStruct_built in Hb. now injection Hb as <-. }
    exists s. split; [exact Hb|]. split; [exact Hs|].
    apply Hthrow. rewrite Hs. exact H1.
  - exact (proj2 (C8_bounds_rejection ComplexStruct [] None []
                    (IsArrayBuffer (new_ArrayBuffer 19))) H1).
Defined.

(** C8 as stated fails for version 1 when a name is not an identifier
    name.  With a field named [a, b] the reader is compiled from
    [return { a, b: view.getUint8(0, true) };], where [a] is a shorthand
    property, and the writer from [view.setUint8(0, data.a, b, true);]:
    [build] returns a struct of size 1, and its [read] of a buffer of no
    byte throws the ReferenceError of [a], not a RangeError, as does its
    [read] of any other buffer. *)
Lemma C8_counterexample :
  let name := "a, b"%string in
  let s := V1.mkStruct 1
             (run_reader_wide [Shorthand "a" None; Plain (mkAccess "b" uint8 0 true)])
             (run_writer_wide 1
                [mkStatement uint8 0 "a" [Atom (AUnresolvable "b"); Atom (ABoolean true)]]) in
  V1.read_entry true name (V1.mkField 0 1 "getUint8" "setUint8")
  = "a, b: view.getUint8(0, true)"%string
  /\ V1.write_entry true name (V1.mkField 0 1 "getUint8" "setUint8")
     = "view.setUint8(0, data.a, b, true);"%string
  /\ V1.build (V1.declare [(name, uint8)] None) = Normal s
  /\ (reachable (IsArrayBuffer []) < V1.struct_size s)%nat
  /\ V1.struct_read s (IsArrayBuffer []) = (Throw ReferenceError, [])
  /\ V1.struct_read s (IsArrayBuffer [x07]) = (Throw ReferenceError, [x07]).
Proof.
  cbn zeta. split; [reflexivity|]. split; [reflexivity|]. split.
  - apply (V1_build_steps (V1.declare [("a, b"%string, uint8)] None)
             ["a, b: view.getUint8(0, true)"%string]
             ["view.setUint8(0, data.a, b, true);"%string]).
    + reflexivity.
    + eapply new_Function_buffer_wide.
      * vm_compute. reflexivity.
      * vm_compute. reflexivity.
      * vm_compute. reflexivity.
    + reflexivity.
    + eapply new_Function_data_buffer_wide.
      * vm_compute. reflexivity.
      * vm_compute. reflexivity.
      * vm_compute. reflexivity.
  - split; [cbn; lia|]. split; vm_compute; reflexivity.
Qed.

(** C9, as amended.  Order independence of the record: two records with
    the same entries in different orders are written to the same bytes,
    with the same completion, into the same target.  This holds for
    version 2 whatever the names are, in every later state of the builder
    as well, and for version 1, which then builds a struct, when the
    names are identifier names. *)
Theorem C9_order_independence (entries more : list (string * FieldType))
    (le : option bool) (st0 : V2.Store) (data1 data2 : object)
    (target : option BufferArg) :
  Permutation data1 data2 -> NoDup (map fst data1) ->
  (Forall (fun e => is_identifier_name (fst e) = true) entries ->
   exists s,
     V1.build (V1.declare entries le) = Normal s
     /\ V1.struct_write s data1 target = V1.struct_write s data2 target)
  /\ (let b := fst (V2.declare entries le st0) in
      let st := snd (V2.declare entries le st0) in
      V2.struct_write (V2.build b) (snd (V2.reduce more b st)) data1 target
      = V2.struct_write (V2.build b) (snd (V2.reduce more b st)) data2 target).
Proof.
  intros HP Hnd.
  assert (Hext : forall k, ToNumber (Get data1 k) = ToNumber (Get data2 k))
    by (intros k; now rewrite (Get_Permutation data1 data2 k HP Hnd)).
  split.
  - intros Hid. destruct (V1_build_identifiers entries le Hid) as [Hb _].
    eexists. split; [exact Hb|].
    cbn [V1.struct_write]. now apply run_writer_ext.
  - cbn zeta.
    rewrite !(V2_struct_write_eq _ _ _ _ target (V2_declare_fields entries more le st0)).
    now apply run_writer_ext.
Qed.

(** The record of the benchmark and the same record listed backwards. *)
Lemma C9_order_independence_witness :
  (Permutation data (rev data) /\ NoDup (map fst data)
   /\ Forall (fun e => is_identifier_name (fst e) = true) ComplexStruct)
  /\ (exists s,
        V1.build (V1.declare ComplexStruct None) = Normal s
        /\ V1.struct_write s data None = V1.struct_write s (rev data) None)
  /\ V2.struct_write (V2.build (fst (V2.declare ComplexStruct None [])))
       (snd (V2.reduce [] (fst (V2.declare ComplexStruct None []))
                       (snd (V2.declare ComplexStruct None [])))) data None
     = V2.struct_write (V2.build (fst (V2.declare ComplexStruct None [])))
         (snd (V2.reduce [] (fst (V2.declare ComplexStruct None []))
                         (snd (V2.declare ComplexStruct None [])))) (rev data) None.
Proof.
  assert (HP : Permutation data (rev data)) by apply Permutation_rev.
  assert (Hnd : NoDup (map fst data)) by (apply distinct_NoDup; vm_compute; reflexivity).
  assert (Hid : Forall (fun e => is_identifier_name (fst e) = true) ComplexStruct)
    by (apply all_identifiers; vm_compute; reflexivity).
  split; [exact (conj HP (conj Hnd Hid))|]. split.
  - exact (proj1 (C9_order_independence ComplexStruct [] None [] data (rev data) None
                    HP Hnd) Hid).
  - exact (proj2 (C9_order_independence ComplexStruct [] None [] data (rev data) None
                    HP Hnd)).
Defined.

(** C9 as stated fails for version 1 when a name is not an identifier
    name.  With a field [b] and a field named
    [NaN, [view.setUint8(0, Object.values(data)[0])]], the second
    statement of the writer is
    [view.setUint8(1, data.NaN, [view.setUint8(0, Object.values(data)[0])], true);]:
    the array literal stores at offset 0 the value of the property that
    the record lists first.  Two records with the same three properties,
    [b] listed first in one and [NaN] in the other, are written to
    different bytes. *)
Lemma C9_counterexample :
  let name := "NaN, [view.setUint8(0, Object.values(data)[0])]"%string in
  let entries := [("b"%string, uint8); (name, uint8)] in
  let data1 : object :=
    [("b"%string, Number_of_Z 1); ("NaN"%string, Number_of_Z 2); (name, Number_of_Z 3)] in
  let data2 : object :=
    [("NaN"%string, Number_of_Z 2); ("b"%string, Number_of_Z 1); (name, Number_of_Z 3)] in
  let inner := mkCall uint8 [ALiteral 0; AValues 0] in
  let s := V1.mkStruct 2
             (run_reader_wide
                [Plain (mkAccess "b" uint8 0 true); Shorthand "NaN" (Some NaN);
                 Computed inner (mkAccess "undefined" uint8 1 true)])
             (run_writer_wide 2
                [mkStatement uint8 0 "b" [Atom (ABoolean true)];
                 mkStatement uint8 1 "NaN" [ArrayLiteral inner; Atom (ABoolean true)]]) in
  V1.write_entry true name (V1.mkField 1 1 "getUint8" "setUint8")
  = "view.setUint8(1, data.NaN, [view.setUint8(0, Object.values(data)[0])], true);"%string
  /\ V1.read_entry true name (V1.mkField 1 1 "getUint8" "setUint8")
     = "NaN, [view.setUint8(0, Object.values(data)[0])]: view.getUint8(1, true)"%string
  /\ Permutation data1 data2 /\ NoDup (map fst data1)
  /\ (forall n t, In (n, t) entries ->
        Get data1 n = Get data2 n /\ exists v, Get data1 n = Num v)
  /\ V1.build (V1.declare entries None) = Normal s
  /\ V1.struct_write s data1 None = (Normal [x01; x02], [x01; x02])
  /\ V1.struct_write s data2 None = (Normal [x02; x02], [x02; x02]).
Proof.
  cbn zeta. split; [reflexivity|]. split; [reflexivity|].
  split; [apply perm_swap|].
  split; [apply distinct_NoDup; vm_compute; reflexivity|]. split.
  - intros n t [[= <- <-]|[[= <- <-]|[]]]; (split; [reflexivity|eexists; reflexivity]).
  - split.
    + apply (V1_build_steps
               (V1.declare
                  [("b"%string, uint8);
                   ("NaN, [view.setUint8(0, Object.values(data)[0])]"%string, uint8)] None)
               ["b: view.getUint8(0, true)"%string;
                "NaN, [view.setUint8(0, Object.values(data)[0])]: view.getUint8(1, true)"%string]
               ["view.setUint8(0, data.b, true);"%string;
                "view.setUint8(1, data.NaN, [view.setUint8(0, Object.values(data)[0])], true);"%string]).
      * reflexivity.
      * eapply new_Function_buffer_wide.
        -- vm_compute. reflexivity.
        -- vm_compute. reflexivity.
        -- vm_compute. reflexivity.
      * reflexivity.
      * eapply new_Function_data_buffer_wide.
        -- vm_compute. reflexivity.
        -- vm_compute. reflexivity.
        -- vm_compute. reflexivity.
    + split; vm_compute; reflexivity.
Qed.

(** C10, as amended.  Reading does not write: after [read], whether it
    returned or threw, every byte of the buffer is as before, and a
    second [read] of the same buffer gives the same result as the first.
    This holds for version 2 whatever the names are, in every later state
    of the builder as well, and for version 1, which then builds a
    struct, when the names are identifier names. *)
Theorem C10_read_leaves_buffer (entries more : list (string * FieldType))
    (le : option bool) (st0 : V2.Store) (buffer : BufferArg) :
  (Forall (fun e => is_identifier_name (fst e) = true) entries ->
   exists s,
     V1.build (V1.declare entries le) = Normal s
     /\ snd (V1.struct_read s buffer) = underlying buffer
     /\ V1.struct_read s (with_content buffer (snd (V1.struct_read s buffer)))
        = V1.struct_read s buffer)
  /\ (let b := fst (V2.declare entries le st0) in
      let st := snd (V2.reduce more b (snd (V2.declare entries le st0))) in
      snd (V2.struct_read (V2.build b) st buffer) = underlying buffer
      /\ V2.struct_read (V2.build b) st
           (with_content buffer (snd (V2.struct_read (V2.build b) st buffer)))
         = V2.struct_read (V2.build b) st buffer).
Proof.
  split.
  - intros Hid. destruct (V1_build_identifiers entries le Hid) as [Hb _].
    eexists. split; [exact Hb|].
    cbn [V1.struct_read]. split; [apply run_reader_frame|apply run_reader_again].
  - cbn zeta.
    pose proof (fun buf => V2_struct_read_eq _ _ _ buf
                             (V2_declare_fields entries more le st0)) as H.
    cbn zeta in H. rewrite !H. split; [apply run_reader_frame|apply run_reader_again].
Qed.

(** The struct of the benchmark, read from twenty bytes. *)
Lemma C10_read_leaves_buffer_witness :
  Forall (fun e => is_identifier_name (fst e) = true) ComplexStruct
  /\ exists s, V1.build (V1.declare ComplexStruct None) = Normal s
               /\ snd (V1.struct_read s (IsArrayBuffer (new_ArrayBuffer 20)))
                  = new_ArrayBuffer 20.
Proof.
  assert (Hid : Forall (fun e => is_identifier_name (fst e) = true) ComplexStruct)
    by (apply all_identifiers; vm_compute; reflexivity).
  split; [exact Hid|].
  destruct (proj1 (C10_read_leaves_buffer ComplexStruct [] None []
                     (IsArrayBuffer (new_ArrayBuffer 20))) Hid) as (s & Hb & Hframe & _).
  exists s. split; [exact Hb|exact Hframe].
Defined.

(** C10 as stated fails for version 1 when a name is not an identifier
    name.  With a field named [NaN, [view.setUint8(0, 7)]] the reader is
    compiled from
    [return { NaN, [view.setUint8(0, 7)]: view.getUint8(0, true) };]:
    the key of the second property is computed by a call that stores 7
    at offset 0.  [build] returns a struct of size 1, and its [read] of
    a buffer that holds the byte 0 leaves the byte 7 in the buffer. *)
Lemma C10_counterexample :
  let name := "NaN, [view.setUint8(0, 7)]"%string in
  let inner := mkCall uint8 [ALiteral 0; ALiteral 7] in
  let s := V1.mkStruct 1
             (run_reader_wide
                [Shorthand "NaN" (Some NaN); Computed inner (mkAccess "undefined" uint8 0 true)])
             (run_writer_wide 1
                [mkStatement uint8 0 "NaN" [ArrayLiteral inner; Atom (ABoolean true)]]) in
  V1.read_entry true name (V1.mkField 0 1 "getUint8" "setUint8")
  = "NaN, [view.setUint8(0, 7)]: view.getUint8(0, true)"%string
  /\ V1.write_entry true name (V1.mkField 0 1 "getUint8" "setUint8")
     = "view.setUint8(0, data.NaN, [view.setUint8(0, 7)], true);"%string
  /\ V1.build (V1.declare [(name, uint8)] None) = Normal s
  /\ (V1.struct_size s <= reachable (IsArrayBuffer [x00]))%nat
  /\ V1.struct_read s (IsArrayBuffer [x00])
     = (Normal [("NaN"%string, NaN); ("undefined"%string, Number_of_Z 7)], [x07]).
Proof.
  cbn zeta. split; [reflexivity|]. split; [reflexivity|]. split.
  - apply (V1_build_steps (V1.declare [("NaN, [view.setUint8(0, 7)]"%string, uint8)] None)
             ["NaN, [view.setUint8(0, 7)]: view.getUint8(0, true)"%string]
             ["view.setUint8(0, data.NaN, [view.setUint8(0, 7)], true);"%string]).
    + reflexivity.
    + eapply new_Function_buffer_wide.
      * vm_compute. reflexivity.
      * vm_compute. reflexivity.
      * vm_compute. reflexivity.
    + reflexivity.
    + eapply new_Function_data_buffer_wide.
      * vm_compute. reflexivity.
      * vm_compute. reflexivity.
      * vm_compute. reflexivity.
  - split; [cbn; lia|]. vm_compute. reflexivity.
Qed.

End Claims.
